(** * HDR export pipeline of deck.gl: EXR writer, pixel flipper, readback
      and render loop

    Shallow embedding of
      - [modules/core/src/utils/exr-writer.ts]      ([writeEXR], [floatToHalf], ...)
      - [modules/core/src/utils/gpu-readback.ts]    ([readPixelsAsync], [flipPixelsVertically])
      - [modules/core/src/utils/hdr-render-loop.ts] ([HDRRenderLoop])

    JavaScript numbers that hold sizes, offsets and indices are integers [Z];
    numbers that hold samples are IEEE-754 binary64 data ([spec_float] of the
    standard library, NaN without payload); 32-bit operators wrap as the
    language prescribes.  Byte buffers are lists of integers in [0, 256). *)

From Stdlib Require Import ZArith Lia Bool Sorting.Sorted.
From Stdlib Require Import Floats.SpecFloat.
From stdpp Require Import base list strings gmap.

Local Open Scope Z_scope.

(** ** JavaScript 32-bit integer operators *)

Module JS.

(** [ToInt32]: reduction modulo 2^32 into the signed range. *)
Definition ToInt32 (z : Z) : Z := (z + 2 ^ 31) mod 2 ^ 32 - 2 ^ 31.

(** [ToUint32], [ToUint16], [ToUint8]. *)
Definition ToUint32 (z : Z) : Z := z mod 2 ^ 32.
Definition ToUint16 (z : Z) : Z := z mod 2 ^ 16.

(** [a >> n]: sign-propagating shift, count taken modulo 32. *)
Definition sar (a n : Z) : Z := Z.shiftr (ToInt32 a) (ToUint32 n mod 32).

(** [a << n]. *)
Definition shl (a n : Z) : Z := ToInt32 (Z.shiftl (ToInt32 a) (ToUint32 n mod 32)).

(** [a & b] and [a | b]. *)
Definition and (a b : Z) : Z := ToInt32 (Z.land (ToInt32 a) (ToInt32 b)).
Definition or (a b : Z) : Z := ToInt32 (Z.lor (ToInt32 a) (ToInt32 b)).

End JS.

(** ** Numbers and their binary32 image *)

(** A JavaScript [number]. *)
Abbreviation number := spec_float.

(** The double nearest to [m * 2^e]. *)
Definition number_of (m e : Z) : number := binary_normalize 53 1024 m e false.

(** [ToNumber(undefined)]. *)
Definition NaN : number := S754_nan.

Module Float32.

(** Rounding of a double to binary32 (nearest, ties to even), as done by a
    store into a [Float32Array] or by [DataView.setFloat32]. *)
Definition round (value : number) : spec_float :=
  match value with
  | S754_finite s m e => binary_round 24 128 s m e
  | _ => value
  end.

Definition sign_bit (s : bool) : Z := if s then 2 ^ 31 else 0.

(** Bit pattern of a binary32 datum, as an unsigned 32-bit integer.  A NaN is
    written as the quiet NaN 0x7FC00000. *)
Definition bits (x : spec_float) : Z :=
  match x with
  | S754_zero s => sign_bit s
  | S754_infinity s => sign_bit s + 0x7F800000
  | S754_nan => 0x7FC00000
  | S754_finite s m e =>
      if Z.pos m <? 2 ^ 23
      then sign_bit s + Z.pos m
      else sign_bit s + (e + 150) * 2 ^ 23 + (Z.pos m - 2 ^ 23)
  end.

(** [floatView[0] = value] followed by a read of the same four bytes through
    an unsigned view. *)
Definition store (value : number) : Z := JS.ToUint32 (bits (round value)).

End Float32.

(** ** exr-writer.ts: [floatToHalf] *)

(** The body of [floatToHalf] from the point where [f = int32View[0]] holds
    the binary32 pattern of the argument as a signed 32-bit integer. *)
Definition floatToHalf_bits (f : Z) : Z :=
  let sign := JS.and (JS.sar f 16) 0x8000 in
  let exponent := JS.and (JS.sar f 23) 0xff - 127 + 15 in
  let mantissa := JS.and f 0x007fffff in
  if exponent <=? 0 then
    if exponent <? -10 then sign
    else
      let m := JS.sar (JS.or mantissa 0x00800000) (1 - exponent) in
      JS.or sign (JS.sar m 13)
  else if exponent =? 0xff - 127 + 15 then
    if mantissa =? 0 then JS.or sign 0x7c00
    else JS.or (JS.or sign 0x7c00) (JS.sar mantissa 13)
  else if 30 <? exponent then JS.or sign 0x7c00
  else JS.or (JS.or sign (JS.shl exponent 10)) (JS.sar mantissa 13).

(** [int32View[0]] after [floatView[0] = value]. *)
Definition float32_int32 (value : number) : Z := JS.ToInt32 (Float32.store value).

Definition floatToHalf (value : number) : Z := floatToHalf_bits (float32_int32 value).

(** The exponent of the binary32 pattern after rebias, as [floatToHalf]
    computes it. *)
Definition rebiased_exponent (f : Z) : Z := JS.and (JS.sar f 23) 0xff - 127 + 15.

(** Fields of a binary16 pattern. *)
Definition half_sign (h : Z) : Z := Z.land (Z.shiftr h 15) 1.
Definition half_exponent (h : Z) : Z := Z.land (Z.shiftr h 10) 0x1f.
Definition half_mantissa (h : Z) : Z := Z.land h 0x3ff.

(** Fields of a binary32 pattern held as a signed 32-bit integer. *)
Definition float_exponent (f : Z) : Z := Z.land (Z.shiftr f 23) 0xff.
Definition float_mantissa (f : Z) : Z := Z.land f 0x7fffff.

(** Magnitude of a finite binary32 pattern, counted in units of 2^-149 (the
    smallest binary32 subnormal). *)
Definition float_magnitude (f : Z) : Z :=
  if float_exponent f =? 0 then float_mantissa f
  else (2 ^ 23 + float_mantissa f) * 2 ^ (float_exponent f - 1).

(** Magnitude of a finite binary16 pattern, counted in units of 2^-24 (the
    smallest binary16 subnormal, 2^125 units of binary32). *)
Definition half_magnitude (h : Z) : Z :=
  if half_exponent h =? 0 then half_mantissa h
  else (2 ^ 10 + half_mantissa h) * 2 ^ (half_exponent h - 1).

(** A binary32 NaN pattern whose quiet bit (bit 22) is set: what a conversion
    from a double NaN delivers. *)
Definition quiet_nan32 (f : Z) : Prop :=
  - 2 ^ 31 <= f < 2 ^ 31 /\ Z.land (Z.shiftr f 23) 0xff = 0xff /\ Z.testbit f 22 = true.


(** ** Exceptions and fallible computations *)

Inductive exn :=
| RangeError
| TypeError
| Error (message : string)
| Thrown (tag : nat).

Inductive result (A : Type) :=
| Ok (a : A)
| Throw (e : exn).

Arguments Ok {A} a.
Arguments Throw {A} e.

#[global] Instance result_ret : MRet result := @Ok.
#[global] Instance result_bind : MBind result :=
  fun A B f m => match m with Ok a => f a | Throw e => Throw e end.
#[global] Instance result_fmap : FMap result :=
  fun A B f m => match m with Ok a => Ok (f a) | Throw e => Throw e end.

(** [for (let y = start; y < stop; y++) body], the loop state threaded
    through the iterations. *)
Fixpoint for_iter {S : Type} (n : nat) (y : Z) (body : Z -> S -> result S) (s : S) : result S :=
  match n with
  | O => Ok s
  | S n' => s' ← body y s; for_iter n' (y + 1) body s'
  end.

Definition for_lt {S : Type} (start stop : Z) (body : Z -> S -> result S) (s : S) : result S :=
  for_iter (Z.to_nat (stop - start)) start body s.

(** [for (const e of l) body]. *)
Fixpoint for_of {E S : Type} (l : list E) (body : E -> S -> result S) (s : S) : result S :=
  match l with
  | [] => Ok s
  | e :: l' => s' ← body e s; for_of l' body s'
  end.

(** ** Typed arrays, array buffers and data views *)

Module TypedArray.
Section TypedArray.
Context {A : Type}.

(** [new T(length)]: [length] elements, all [zero]; a negative length is a
    [RangeError].  An engine also answers with a [RangeError] a length it
    cannot allocate; where that limit lies depends on the engine and on its
    memory and is no part of the model, in which every allocation of a
    non-negative length is granted. *)
Definition make (zero : A) (length : Z) : result (list A) :=
  if length <? 0 then Throw RangeError else Ok (replicate (Z.to_nat length) zero).

(** [a.subarray(begin, end)]: relative indices are clamped to the array. *)
Definition subarray (a : list A) (begin end_ : Z) : list A :=
  let len := Z.of_nat (length a) in
  let clamp i := if i <? 0 then Z.max (len + i) 0 else Z.min i len in
  let b := clamp begin in
  let e := clamp end_ in
  take (Z.to_nat (e - b)) (drop (Z.to_nat b) a).

(** [target.set(source, offset)]. *)
Definition set (target source : list A) (offset : Z) : result (list A) :=
  if (offset <? 0) || (Z.of_nat (length target) <? offset + Z.of_nat (length source))
  then Throw RangeError
  else Ok (take (Z.to_nat offset) target ++ source
             ++ drop (Z.to_nat offset + length source) target).

(** [a[i]]: [None] stands for [undefined]. *)
Definition get (a : list A) (i : Z) : option A :=
  if i <? 0 then None else a !! Z.to_nat i.

End TypedArray.
End TypedArray.

(** [new ArrayBuffer(length)] and [new Uint8Array(length)]. *)
Definition ArrayBuffer_new (length : Z) : result (list Z) := TypedArray.make 0 length.

(** [a[i] = v] on a [Uint8Array]: ignored out of range. *)
Definition Uint8Array_put (a : list Z) (i v : Z) : list Z :=
  if i <? 0 then a else <[Z.to_nat i := v mod 256]> a.

(** The [n] low bytes of [v], least significant first. *)
Definition le_bytes (n : nat) (v : Z) : list Z :=
  (fun k : nat => Z.land (Z.shiftr v (8 * Z.of_nat k)) 0xff) <$> seq 0 n.

(** Value of a little-endian byte string. *)
Fixpoint le_value (bs : list Z) : Z :=
  match bs with
  | [] => 0
  | b :: bs' => b + 256 * le_value bs'
  end.

Module DataView.

(** All writes below pass [littleEndian = true]. *)
Definition setUint32 (view : list Z) (byteOffset value : Z) : result (list Z) :=
  TypedArray.set view (le_bytes 4 (JS.ToUint32 value)) byteOffset.

Definition setInt32 (view : list Z) (byteOffset value : Z) : result (list Z) :=
  TypedArray.set view (le_bytes 4 (JS.ToInt32 value)) byteOffset.

Definition setUint16 (view : list Z) (byteOffset value : Z) : result (list Z) :=
  TypedArray.set view (le_bytes 2 (JS.ToUint16 value)) byteOffset.

Definition setFloat32 (view : list Z) (byteOffset : Z) (value : number) : result (list Z) :=
  TypedArray.set view (le_bytes 4 (Float32.store value)) byteOffset.

End DataView.

(** ** Strings *)

(** Strings are sequences of code units below 256. *)
Definition code_unit (c : Ascii.ascii) : Z := Z.of_N (Ascii.N_of_ascii c).

(** [TextEncoder.encode]: UTF-8. *)
Definition utf8_encode (str : string) : list Z :=
  c ← String.list_ascii_of_string str;
  let u := code_unit c in
  if u <? 128 then [u] else [Z.lor 0xC0 (Z.shiftr u 6); Z.lor 0x80 (Z.land u 0x3F)].

(** [String.prototype.toUpperCase], exact on ASCII; other code units are kept,
    so the result equals an ASCII letter exactly when the real one does. *)
Definition toUpperCase_char (c : Ascii.ascii) : Ascii.ascii :=
  let u := Ascii.N_of_ascii c in
  if ((97 <=? u) && (u <=? 122))%N then Ascii.ascii_of_N (u - 32) else c.

Fixpoint toUpperCase (str : string) : string :=
  match str with
  | EmptyString => EmptyString
  | String c rest => String (toUpperCase_char c) (toUpperCase rest)
  end.

(** [Array.prototype.sort()] without comparator on an array of strings:
    increasing order of code units.  Equal strings are indistinguishable, so
    the sorted array is determined by the order alone. *)
Fixpoint sort_insert (x : string) (l : list string) : list string :=
  match l with
  | [] => [x]
  | y :: l' => if String.leb x y then x :: l else y :: sort_insert x l'
  end.

Definition Array_sort (l : list string) : list string := foldr sort_insert [] l.

(** ** exr-writer.ts *)

Inductive EXRChannelType := half | float.

Record WriteEXROptions := {
  options_pixelType : option EXRChannelType;
  options_channels : option (list string)
}.

(** [options = {}]. *)
Definition default_options : WriteEXROptions :=
  {| options_pixelType := None; options_channels := None |}.

Definition EXR_MAGIC : Z := 0x01312f76.
Definition EXR_VERSION : Z := 2.
Definition EXR_VERSION_FLAGS : Z := 0.

Definition PIXEL_TYPE_UINT : Z := 0.
Definition PIXEL_TYPE_HALF : Z := 1.
Definition PIXEL_TYPE_FLOAT : Z := 2.

Definition COMPRESSION_NONE : Z := 0.

Definition LINE_ORDER_INCREASING_Y : Z := 0.

(** [stringToBytes]: null-terminated UTF-8. *)
Definition stringToBytes (str : string) : result (list Z) :=
  let bytes := utf8_encode str in
  result ← TypedArray.make 0 (Z.of_nat (length bytes) + 1);
  result ← TypedArray.set result bytes 0;
  Ok (Uint8Array_put result (Z.of_nat (length bytes)) 0).

(** [getChannelIndex] (R=0, G=1, B=2, A=3). *)
Definition getChannelIndex (channel : string) : Z :=
  let upper := toUpperCase channel in
  if String.eqb upper "R" then 0
  else if String.eqb upper "G" then 1
  else if String.eqb upper "B" then 2
  else if String.eqb upper "A" then 3
  else 0.

(** [buildBox2i]. *)
Definition buildBox2i (xMin yMin xMax yMax : Z) : result (list Z) :=
  buffer ← ArrayBuffer_new 16;
  view ← DataView.setInt32 buffer 0 xMin;
  view ← DataView.setInt32 view 4 yMin;
  view ← DataView.setInt32 view 8 xMax;
  view ← DataView.setInt32 view 12 yMax;
  Ok view.

(** [writeAttribute]. *)
Definition writeAttribute (name type : string) (value : list Z) : result (list Z) :=
  nameBytes ← stringToBytes name;
  typeBytes ← stringToBytes type;
  sizeBytes ← TypedArray.make 0 4;
  sizeBytes ← DataView.setUint32 sizeBytes 0 (Z.of_nat (length value));
  result ← TypedArray.make 0
    (Z.of_nat (length nameBytes) + Z.of_nat (length typeBytes) + 4 + Z.of_nat (length value));
  let offset := 0 in
  result ← TypedArray.set result nameBytes offset;
  let offset := offset + Z.of_nat (length nameBytes) in
  result ← TypedArray.set result typeBytes offset;
  let offset := offset + Z.of_nat (length typeBytes) in
  result ← TypedArray.set result sizeBytes offset;
  let offset := offset + 4 in
  result ← TypedArray.set result value offset;
  Ok result.

(** The idiom closing [buildChannelList] and [buildHeader]: the parts are
    copied one after the other into an array of their total length. *)
Definition concat_parts (parts : list (list Z)) : result (list Z) :=
  let totalLength := foldl (fun sum part => sum + Z.of_nat (length part)) 0 parts in
  result ← TypedArray.make 0 totalLength;
  '(result, _) ← for_of parts
     (fun part '(result, offset) =>
        result ← TypedArray.set result part offset;
        Ok (result, offset + Z.of_nat (length part)))
     (result, 0);
  Ok result.

(** One entry of the channel list: name, pixel type, pLinear, three reserved
    bytes, xSampling, ySampling. *)
Definition channelEntry (name : string) (pixelType : EXRChannelType) : result (list Z) :=
  nameBytes ← stringToBytes name;
  entry ← TypedArray.make 0 (Z.of_nat (length nameBytes) + 16);
  entry ← TypedArray.set entry nameBytes 0;
  let dataOffset := Z.of_nat (length nameBytes) in
  entry ← DataView.setInt32 entry dataOffset
    (match pixelType with half => PIXEL_TYPE_HALF | float => PIXEL_TYPE_FLOAT end);
  let entry := Uint8Array_put entry (dataOffset + 4) 1 in
  let entry := Uint8Array_put entry (dataOffset + 5) 0 in
  let entry := Uint8Array_put entry (dataOffset + 6) 0 in
  let entry := Uint8Array_put entry (dataOffset + 7) 0 in
  entry ← DataView.setInt32 entry (dataOffset + 8) 1;
  entry ← DataView.setInt32 entry (dataOffset + 12) 1;
  Ok entry.

(** [buildChannelList]. *)
Definition buildChannelList (channels : list string) (pixelType : EXRChannelType)
  : result (list Z) :=
  let sortedChannels := Array_sort channels in
  parts ← for_of sortedChannels
     (fun name parts => entry ← channelEntry name pixelType; Ok (parts ++ [entry])) [];
  let parts := parts ++ [[0]] in
  concat_parts parts.

(** A fresh [ArrayBuffer] holding [values] as consecutive float32. *)
Definition float32_buffer (values : list number) : result (list Z) :=
  buffer ← ArrayBuffer_new (4 * Z.of_nat (length values));
  '(buffer, _) ← for_of values
     (fun value '(buffer, offset) =>
        buffer ← DataView.setFloat32 buffer offset value;
        Ok (buffer, offset + 4))
     (buffer, 0);
  Ok buffer.

(** [buildHeader]. *)
Definition buildHeader (width height : Z) (channels : list string)
    (pixelType : EXRChannelType) : result (list Z) :=
  let parts := [] in
  chlist ← buildChannelList channels pixelType;
  part ← writeAttribute "channels" "chlist" chlist;
  let parts := parts ++ [part] in
  part ← writeAttribute "compression" "compression" [COMPRESSION_NONE];
  let parts := parts ++ [part] in
  box ← buildBox2i 0 0 (width - 1) (height - 1);
  part ← writeAttribute "dataWindow" "box2i" box;
  let parts := parts ++ [part] in
  box ← buildBox2i 0 0 (width - 1) (height - 1);
  part ← writeAttribute "displayWindow" "box2i" box;
  let parts := parts ++ [part] in
  part ← writeAttribute "lineOrder" "lineOrder" [LINE_ORDER_INCREASING_Y];
  let parts := parts ++ [part] in
  aspectRatio ← float32_buffer [number_of 1 0];
  part ← writeAttribute "pixelAspectRatio" "float" aspectRatio;
  let parts := parts ++ [part] in
  center ← float32_buffer [S754_zero false; S754_zero false];
  part ← writeAttribute "screenWindowCenter" "v2f" center;
  let parts := parts ++ [part] in
  windowWidth ← float32_buffer [number_of 1 0];
  part ← writeAttribute "screenWindowWidth" "float" windowWidth;
  let parts := parts ++ [part] in
  let parts := parts ++ [[0]] in
  concat_parts parts.

(** [pixels[pixelIndex]] converted to a number: [undefined] becomes NaN. *)
Definition pixel_value (pixels : list number) (pixelIndex : Z) : number :=
  default NaN (TypedArray.get pixels pixelIndex).

(** Body of the innermost loop of [writeEXR]: one sample of one channel. *)
Definition writeEXR_sample (pixels : list number) (width : Z) (pixelType : EXRChannelType)
    (y channelIndex x : Z) (st : list Z * Z) : result (list Z * Z) :=
  let '(view, offset) := st in
  let pixelIndex := (y * width + x) * 4 + channelIndex in
  let value := pixel_value pixels pixelIndex in
  match pixelType with
  | half =>
      let halfValue := floatToHalf value in
      view ← DataView.setUint16 view offset halfValue;
      Ok (view, offset + 2)
  | float =>
      view ← DataView.setFloat32 view offset value;
      Ok (view, offset + 4)
  end.

(** Body of the scanline loop of [writeEXR]. *)
Definition writeEXR_scanline (pixels : list number) (width : Z) (channels : list string)
    (pixelType : EXRChannelType) (scanlineDataSize : Z) (y : Z) (st : list Z * Z)
  : result (list Z * Z) :=
  let '(view, offset) := st in
  view ← DataView.setInt32 view offset y;
  let offset := offset + 4 in
  view ← DataView.setUint32 view offset scanlineDataSize;
  let offset := offset + 4 in
  let sortedChannels := Array_sort channels in
  for_of sortedChannels
    (fun channel st =>
       let channelIndex := getChannelIndex channel in
       for_lt 0 width (writeEXR_sample pixels width pixelType y channelIndex) st)
    (view, offset).

(** Body of the offset table loop of [writeEXR]; the state is the view, the
    write offset and [scanlineOffset]. *)
Definition writeEXR_offset_entry (scanlineHeaderSize scanlineDataSize : Z) (y : Z)
    (st : list Z * Z * Z) : result (list Z * Z * Z) :=
  let '(view, offset, scanlineOffset) := st in
  view ← DataView.setUint32 view offset scanlineOffset;
  view ← DataView.setUint32 view (offset + 4) 0;
  let offset := offset + 8 in
  let scanlineOffset := scanlineOffset + (scanlineHeaderSize + scanlineDataSize) in
  Ok (view, offset, scanlineOffset).

(** Size of the buffer [writeEXR] allocates, given the header. *)
Definition writeEXR_totalSize (headerSize width height numChannels pixelSize : Z) : Z :=
  let scanlineDataSize := width * numChannels * pixelSize in
  let offsetTableSize := height * 8 in
  let scanlineHeaderSize := 8 in
  let totalScanlineSize := (scanlineHeaderSize + scanlineDataSize) * height in
  4 + 4 + headerSize + offsetTableSize + totalScanlineSize.

(** [writeEXR] after the allocation of [buffer]. *)
Definition writeEXR_fill (pixels : list number) (width height : Z) (channels : list string)
    (pixelType : EXRChannelType) (header : list Z) (buffer : list Z) : result (list Z) :=
  let numChannels := Z.of_nat (length channels) in
  let pixelSize := match pixelType with half => 2 | float => 4 end in
  let scanlineDataSize := width * numChannels * pixelSize in
  let offsetTableSize := height * 8 in
  let headerSize := Z.of_nat (length header) in
  let scanlineHeaderSize := 8 in
  let view := buffer in
  let offset := 0 in
  view ← DataView.setUint32 view offset EXR_MAGIC;
  let offset := offset + 4 in
  view ← DataView.setUint32 view offset (JS.or EXR_VERSION (JS.shl EXR_VERSION_FLAGS 8));
  let offset := offset + 4 in
  view ← TypedArray.set view header offset;
  let offset := offset + headerSize in
  let offsetTableStart := offset in
  let scanlineOffset := offsetTableStart + offsetTableSize in
  '(view, offset, scanlineOffset) ←
    for_lt 0 height (writeEXR_offset_entry scanlineHeaderSize scanlineDataSize)
      (view, offset, scanlineOffset);
  '(view, offset) ←
    for_lt 0 height (writeEXR_scanline pixels width channels pixelType scanlineDataSize)
      (view, offset);
  Ok view.

(** [writeEXR], for a [width] and a [height] that are integers. *)
Definition writeEXR (pixels : list number) (width height : Z) (options : WriteEXROptions)
  : result (list Z) :=
  let pixelType := default half (options_pixelType options) in
  let channels := default ["R"; "G"; "B"; "A"] (options_channels options) in
  let numChannels := Z.of_nat (length channels) in
  let pixelSize := match pixelType with half => 2 | float => 4 end in
  header ← buildHeader width height channels pixelType;
  let headerSize := Z.of_nat (length header) in
  let totalSize := writeEXR_totalSize headerSize width height numChannels pixelSize in
  buffer ← ArrayBuffer_new totalSize;
  writeEXR_fill pixels width height channels pixelType header buffer.

(** ** The layout of an EXR file, as the format describes it *)

(** [start; start + 1; ...], [n] values: the values of a loop counter. *)
Fixpoint range (start : Z) (n : nat) : list Z :=
  match n with
  | O => []
  | S n' => start :: range (start + 1) n'
  end.

Definition pixel_size (pixelType : EXRChannelType) : Z :=
  match pixelType with half => 2 | float => 4 end.

(** One sample: binary16 or binary32, little-endian. *)
Definition sample_bytes (pixelType : EXRChannelType) (value : number) : list Z :=
  match pixelType with
  | half => le_bytes 2 (JS.ToUint16 (floatToHalf value))
  | float => le_bytes 4 (Float32.store value)
  end.

(** The samples of the interleaved component [channelIndex] along row [y]. *)
Definition component_row (pixels : list number) (width y channelIndex : Z) : list number :=
  (fun x => pixel_value pixels ((y * width + x) * 4 + channelIndex)) <$> range 0 (Z.to_nat width).

(** The row of one channel. *)
Definition channel_row (pixels : list number) (width : Z) (pixelType : EXRChannelType)
    (y : Z) (channel : string) : list Z :=
  value ← component_row pixels width y (getChannelIndex channel);
  sample_bytes pixelType value.

(** The payload of scanline [y]: the rows of the channels in sorted order. *)
Definition scanline_payload (pixels : list number) (width : Z) (channels : list string)
    (pixelType : EXRChannelType) (y : Z) : list Z :=
  channel ← Array_sort channels;
  channel_row pixels width pixelType y channel.

Definition scanline_data_size (width : Z) (channels : list string)
    (pixelType : EXRChannelType) : Z :=
  width * Z.of_nat (length channels) * pixel_size pixelType.

(** The record of scanline [y]: row index, payload length, payload. *)
Definition scanline_record (pixels : list number) (width : Z) (channels : list string)
    (pixelType : EXRChannelType) (y : Z) : list Z :=
  le_bytes 4 (JS.ToInt32 y)
  ++ le_bytes 4 (JS.ToUint32 (scanline_data_size width channels pixelType))
  ++ scanline_payload pixels width channels pixelType y.

(** Byte position of the record of scanline [i]. *)
Definition scanline_position (headerSize width height : Z) (channels : list string)
    (pixelType : EXRChannelType) (i : Z) : Z :=
  8 + headerSize + 8 * height + i * (8 + scanline_data_size width channels pixelType).

(** One entry of the offset table, as the writer fills it. *)
Definition offset_entry (position : Z) : list Z :=
  le_bytes 4 (JS.ToUint32 position) ++ le_bytes 4 (JS.ToUint32 0).

Definition offset_table (headerSize width height : Z) (channels : list string)
    (pixelType : EXRChannelType) : list Z :=
  i ← range 0 (Z.to_nat height);
  offset_entry (scanline_position headerSize width height channels pixelType i).

Definition exr_file (pixels : list number) (width height : Z) (channels : list string)
    (pixelType : EXRChannelType) (header : list Z) : list Z :=
  le_bytes 4 (JS.ToUint32 EXR_MAGIC)
  ++ le_bytes 4 (JS.ToUint32 (JS.or EXR_VERSION (JS.shl EXR_VERSION_FLAGS 8)))
  ++ header
  ++ offset_table (Z.of_nat (length header)) width height channels pixelType
  ++ (y ← range 0 (Z.to_nat height); scanline_record pixels width channels pixelType y).

(** A step that writes [chunk] at the offset and advances the offset past
    it, whatever lies before and after. *)
Definition appends (f : list Z * Z -> result (list Z * Z)) (chunk : list Z) : Prop :=
  forall pre post : list Z,
    (length chunk <= length post)%nat ->
    f (pre ++ post, Z.of_nat (length pre))
    = Ok (pre ++ chunk ++ drop (length chunk) post, Z.of_nat (length (pre ++ chunk))).

(** The bytes between [from] and [from + len]. *)
Definition slice (buf : list Z) (from len : Z) : list Z :=
  take (Z.to_nat len) (drop (Z.to_nat from) buf).

(** *** The header *)

(** A null-terminated name. *)
Definition cstring (str : string) : list Z := utf8_encode str ++ [0].

(** An attribute: name, type tag, byte length of the value, value. *)
Definition attribute_bytes (name type : string) (value : list Z) : list Z :=
  cstring name ++ cstring type
  ++ le_bytes 4 (JS.ToUint32 (Z.of_nat (length value))) ++ value.

Definition box2i_bytes (xMin yMin xMax yMax : Z) : list Z :=
  le_bytes 4 (JS.ToInt32 xMin) ++ le_bytes 4 (JS.ToInt32 yMin)
  ++ le_bytes 4 (JS.ToInt32 xMax) ++ le_bytes 4 (JS.ToInt32 yMax).

Definition pixel_type_tag (pixelType : EXRChannelType) : Z :=
  match pixelType with half => PIXEL_TYPE_HALF | float => PIXEL_TYPE_FLOAT end.

Definition channel_entry_bytes (pixelType : EXRChannelType) (name : string) : list Z :=
  cstring name ++ le_bytes 4 (JS.ToInt32 (pixel_type_tag pixelType))
  ++ [1; 0; 0; 0] ++ le_bytes 4 (JS.ToInt32 1) ++ le_bytes 4 (JS.ToInt32 1).

Definition chlist_bytes (channels : list string) (pixelType : EXRChannelType) : list Z :=
  (name ← Array_sort channels; channel_entry_bytes pixelType name) ++ [0].

Definition float32_bytes (values : list number) : list Z :=
  value ← values; le_bytes 4 (Float32.store value).

Definition header_bytes (width height : Z) (channels : list string)
    (pixelType : EXRChannelType) : list Z :=
  attribute_bytes "channels" "chlist" (chlist_bytes channels pixelType)
  ++ attribute_bytes "compression" "compression" [COMPRESSION_NONE]
  ++ attribute_bytes "dataWindow" "box2i" (box2i_bytes 0 0 (width - 1) (height - 1))
  ++ attribute_bytes "displayWindow" "box2i" (box2i_bytes 0 0 (width - 1) (height - 1))
  ++ attribute_bytes "lineOrder" "lineOrder" [LINE_ORDER_INCREASING_Y]
  ++ attribute_bytes "pixelAspectRatio" "float" (float32_bytes [number_of 1 0])
  ++ attribute_bytes "screenWindowCenter" "v2f"
       (float32_bytes [S754_zero false; S754_zero false])
  ++ attribute_bytes "screenWindowWidth" "float" (float32_bytes [number_of 1 0])
  ++ [0].

(** The order [Array.prototype.sort()] sorts strings by. *)
Definition string_le (a b : string) : Prop := String.leb a b = true.

(** A computation whose only exception is a [RangeError]. *)
Definition throws_only_RangeError {A : Type} (m : result A) : Prop :=
  forall e, m = Throw e -> e = RangeError.

(** The pixel type and the channel list [writeEXR] works with. *)
Definition pixelType_of (options : WriteEXROptions) : EXRChannelType :=
  default half (options_pixelType options).

Definition channels_of (options : WriteEXROptions) : list string :=
  default ["R"; "G"; "B"; "A"] (options_channels options).

(** A channel name that [getChannelIndex] does not know. *)
Definition unknown_channel (channel : string) : Prop :=
  let upper := toUpperCase channel in
  upper <> "R" /\ upper <> "G" /\ upper <> "B" /\ upper <> "A".

(** The samples of the red component (interleaved index 0) of row [y], as
    [writeEXR] encodes them. *)
Definition red_row (pixels : list number) (width : Z) (pixelType : EXRChannelType) (y : Z)
  : list Z :=
  x ← range 0 (Z.to_nat width);
  sample_bytes pixelType (pixel_value pixels ((y * width + x) * 4 + 0)).

(** ** gpu-readback.ts: [flipPixelsVertically] *)

(** Typed arrays live in a store; a variable holds a reference into it.  The
    element type [A] is the type of the samples of [Uint8Array] or of
    [Float32Array], with [zero] the content of a fresh array. *)
Section Flip.
Context {A : Type} (zero : A).

(** Body of the loop of [flipPixelsVertically]: [data.subarray] is a view of
    [data], [flipped.set] writes into [flipped]. *)
Definition flip_row (data flipped : nat) (rowSize height : Z) (y : Z)
    (store : gmap nat (list A)) : result (gmap nat (list A)) :=
  let srcOffset := y * rowSize in
  let dstOffset := (height - 1 - y) * rowSize in
  match store !! data, store !! flipped with
  | Some source, Some target =>
      target ← TypedArray.set target
        (TypedArray.subarray source srcOffset (srcOffset + rowSize)) dstOffset;
      Ok (<[flipped := target]> store)
  | _, _ => Throw TypeError
  end.

(** [flipPixelsVertically(data, width, height, channels)]: returns the store
    after the call and the reference to the new array. *)
Definition flipPixelsVertically (store : gmap nat (list A)) (data : nat)
    (width height channels : Z) : result (gmap nat (list A) * nat) :=
  match store !! data with
  | None => Throw TypeError
  | Some source =>
      let rowSize := width * channels in
      array ← TypedArray.make zero (Z.of_nat (length source));
      let flipped := fresh (dom store) in
      let store := <[flipped := array]> store in
      store ← for_lt 0 height (flip_row data flipped rowSize height) store;
      Ok (store, flipped)
  end.

(** Row [i] of a buffer with rows of [rowSize] elements. *)
Definition row (b : list A) (rowSize i : nat) : list A :=
  take rowSize (drop (i * rowSize) b).

(** The rows of [b] in reverse order. *)
Definition flip_rows (b : list A) (rowSize height : nat) : list A :=
  i ← reverse (seq 0 height); row b rowSize i.

(** [flipPixelsVertically] on an array passed by value. *)
Definition flip_pixels (data : list A) (width height channels : Z) : result (list A) :=
  '(store, flipped) ← flipPixelsVertically {[ 0%nat := data ]} 0%nat width height channels;
  match store !! flipped with
  | Some array => Ok array
  | None => Throw TypeError
  end.

End Flip.

(** ** gpu-readback.ts: [readPixelsAsync] *)

Inductive DeviceType := webgpu | webgl.

Record Texture := {
  texture_width : Z;
  texture_height : Z;
  texture_format : string
}.

(** [Framebuffer | Texture]; of a framebuffer only [colorAttachments[0]] is
    used. *)
Inductive Source :=
| SourceFramebuffer (colorAttachment0 : Texture)
| SourceTexture (texture : Texture).

Record ReadPixelsOptions := {
  options_x : option Z;
  options_y : option Z;
  options_width : option Z;
  options_height : option Z
}.

Inductive PixelData :=
| Float32Data (samples : list number)
| Uint8Data (samples : list Z).

Record ReadPixelsResult := {
  result_data : PixelData;
  result_width : Z;
  result_height : Z;
  result_channels : Z
}.

(** The calls made on the device, in the order they are made. *)
Inductive GpuCall :=
| createBuffer (size : Z)
| createCommandEncoder
| copyTextureToBuffer (x y bytesPerRow rowsPerImage width height : Z)
| finish
| submit
| mapAsync
| getMappedRange
| unmap
| destroyBuffer
| createFramebuffer
| readPixelsToArrayWebGL (sourceX sourceY sourceWidth sourceHeight : Z)
| destroyFramebuffer.

(** The device: its kind and what it answers to the calls that can fail or
    that deliver data.  Nothing is assumed about these answers. *)
Record Device := {
  device_type : DeviceType;
  on_createBuffer : Z -> result unit;
  on_copyTextureToBuffer : Z -> Z -> Z -> Z -> Z -> Z -> result unit;
  on_submit : result unit;
  (** the bytes of the mapped range, or the rejection of [mapAsync] *)
  on_mapAsync : Z -> result (list Z);
  on_createFramebuffer : result unit;
  (** the content of the target array after the synchronous read *)
  on_readPixelsToArrayWebGL : Z -> Z -> Z -> Z -> PixelData -> result PixelData
}.

(** A computation that calls the device: the calls made so far are recorded,
    also when the computation ends with an exception. *)
Definition gpu (A : Type) : Type := list GpuCall -> list GpuCall * result A.

#[global] Instance gpu_ret : MRet gpu := fun A a calls => (calls, Ok a).
#[global] Instance gpu_bind : MBind gpu :=
  fun A B f m calls =>
    match m calls with
    | (calls', Ok a) => f a calls'
    | (calls', Throw e) => (calls', Throw e)
    end.

(** A call on the device and its answer. *)
Definition call {A : Type} (c : GpuCall) (answer : result A) : gpu A :=
  fun calls => (calls ++ [c], answer).

(** A computation that calls nothing. *)
Definition pure_step {A : Type} (r : result A) : gpu A := fun calls => (calls, r).

(** [s.includes(sub)]. *)
Definition includes (s sub : string) : bool :=
  match String.index 0 sub s with Some _ => true | None => false end.

(** [getBytesPerPixel]. *)
Definition getBytesPerPixel (format : string) : Z :=
  if includes format "32float" then 16
  else if includes format "16float" then 8
  else if includes format "8unorm" then 4
  else 4.

(** [Math.ceil(a / b)] for integers, [0 < b]. *)
Definition ceil_div (a b : Z) : Z := - ((- a) / b).

(** The number with the binary32 pattern [u]: an element of a
    [Float32Array] view. *)
Definition number_of_bits (u : Z) : number :=
  let s := Z.testbit u 31 in
  let e := Z.land (Z.shiftr u 23) 0xff in
  let m := Z.land u 0x7fffff in
  if e =? 0xff then (if m =? 0 then S754_infinity s else S754_nan)
  else if e =? 0 then
    match m with Z.pos p => S754_finite s p (-149) | _ => S754_zero s end
  else
    match m + 2 ^ 23 with Z.pos p => S754_finite s p (e - 150) | _ => S754_zero s end.

(** [new Float32Array(buffer)]: consecutive groups of four bytes. *)
Fixpoint Float32Array_view (bytes : list Z) : list number :=
  match bytes with
  | b0 :: b1 :: b2 :: b3 :: rest =>
      number_of_bits (le_value [b0; b1; b2; b3]) :: Float32Array_view rest
  | _ => []
  end.

(** The row copy closing [readPixelsWebGPU]: the unpadded part of each row
    of [sourceArray] goes to its place in [data]. *)
Definition copy_rows {A : Type} (data sourceArray : list A)
    (srcBytesPerRow dstPixelsPerRow height : Z) : result (list A) :=
  for_lt 0 height
    (fun row data =>
       let srcOffset := row * srcBytesPerRow in
       let dstOffset := row * dstPixelsPerRow in
       TypedArray.set data
         (TypedArray.subarray sourceArray srcOffset (srcOffset + dstPixelsPerRow)) dstOffset)
    data.

(** [readPixelsWebGPU]. *)
Definition readPixelsWebGPU (device : Device) (source : Source) (options : ReadPixelsOptions)
  : gpu ReadPixelsResult :=
  let texture :=
    match source with
    | SourceFramebuffer colorAttachment0 => colorAttachment0
    | SourceTexture texture => texture
    end in
  let x := default 0 (options_x options) in
  let y := default 0 (options_y options) in
  let width := default (texture_width texture) (options_width options) in
  let height := default (texture_height texture) (options_height options) in
  let bytesPerPixel := getBytesPerPixel (texture_format texture) in
  let channels := 4 in
  let bytesPerRow := ceil_div (width * bytesPerPixel) 256 * 256 in
  let bufferSize := bytesPerRow * height in
  _ ← call (createBuffer bufferSize) (on_createBuffer device bufferSize);
  _ ← call createCommandEncoder (Ok tt);
  _ ← call (copyTextureToBuffer x y bytesPerRow height width height)
        (on_copyTextureToBuffer device x y bytesPerRow height width height);
  _ ← call finish (Ok tt);
  _ ← call submit (on_submit device);
  mapped ← call mapAsync (on_mapAsync device bufferSize);
  mappedRange ← call getMappedRange (Ok mapped);
  let isFloat := includes (texture_format texture) "float" in
  data ← pure_step
    (if isFloat
     then
       data ← TypedArray.make (S754_zero false) (width * height * channels);
       let sourceArray := Float32Array_view mappedRange in
       let srcBytesPerRow := bytesPerRow / 4 in
       let dstPixelsPerRow := width * channels in
       data ← copy_rows data sourceArray srcBytesPerRow dstPixelsPerRow height;
       Ok (Float32Data data)
     else
       data ← TypedArray.make 0 (width * height * channels);
       let sourceArray := mappedRange in
       let srcBytesPerRow := bytesPerRow / 1 in
       let dstPixelsPerRow := width * channels in
       data ← copy_rows data sourceArray srcBytesPerRow dstPixelsPerRow height;
       Ok (Uint8Data data));
  _ ← call unmap (Ok tt);
  _ ← call destroyBuffer (Ok tt);
  mret {| result_data := data; result_width := width; result_height := height;
          result_channels := channels |}.

(** [readPixelsWebGL]. *)
Definition readPixelsWebGL (device : Device) (source : Source) (options : ReadPixelsOptions)
  : gpu ReadPixelsResult :=
  framebuffer ←
    match source with
    | SourceFramebuffer colorAttachment0 => mret (colorAttachment0, false)
    | SourceTexture texture =>
        _ ← call createFramebuffer (on_createFramebuffer device);
        mret (texture, true)
    end;
  let texture : Texture := fst framebuffer in
  let tempFramebuffer : bool := snd framebuffer in
  let x := default 0 (options_x options) in
  let y := default 0 (options_y options) in
  let width := default (texture_width texture) (options_width options) in
  let height := default (texture_height texture) (options_height options) in
  let channels := 4 in
  let isFloat := includes (texture_format texture) "float" in
  data ← pure_step
    (if isFloat
     then Float32Data <$> TypedArray.make (S754_zero false) (width * height * channels)
     else Uint8Data <$> TypedArray.make 0 (width * height * channels));
  data ← call (readPixelsToArrayWebGL x y width height)
           (on_readPixelsToArrayWebGL device x y width height data);
  _ ← (if tempFramebuffer then call destroyFramebuffer (Ok tt) else mret tt);
  mret {| result_data := data; result_width := width; result_height := height;
          result_channels := channels |}.

(** [readPixelsAsync]: the calls made on the device and the outcome of the
    promise. *)
Definition readPixelsAsync (device : Device) (source : Source) (options : ReadPixelsOptions)
  : list GpuCall * result ReadPixelsResult :=
  match device_type device with
  | webgpu => readPixelsWebGPU device source options []
  | webgl => readPixelsWebGL device source options []
  end.

(** The region lies within the target. *)
Definition region_in_bounds (texture : Texture) (x y width height : Z) : Prop :=
  0 <= x /\ 0 <= y /\ x + width <= texture_width texture
  /\ y + height <= texture_height texture.

(** A device that accepts every call; its mapped ranges and read pixels are
    all zero. *)
Definition accepting_device (type : DeviceType) : Device :=
  {| device_type := type;
     on_createBuffer := fun _ => Ok tt;
     on_copyTextureToBuffer := fun _ _ _ _ _ _ => Ok tt;
     on_submit := Ok tt;
     on_mapAsync := fun size => Ok (replicate (Z.to_nat size) 0);
     on_createFramebuffer := Ok tt;
     on_readPixelsToArrayWebGL := fun _ _ _ _ data => Ok data |}.

(** The texture and the region a call of [readPixelsAsync] reads. *)
Definition source_texture (source : Source) : Texture :=
  match source with
  | SourceFramebuffer colorAttachment0 => colorAttachment0
  | SourceTexture texture => texture
  end.

Definition region_x (options : ReadPixelsOptions) : Z := default 0 (options_x options).
Definition region_y (options : ReadPixelsOptions) : Z := default 0 (options_y options).
Definition region_width (source : Source) (options : ReadPixelsOptions) : Z :=
  default (texture_width (source_texture source)) (options_width options).
Definition region_height (source : Source) (options : ReadPixelsOptions) : Z :=
  default (texture_height (source_texture source)) (options_height options).

(** Size of the transfer buffer of the WebGPU path. *)
Definition transfer_bytesPerRow (source : Source) (options : ReadPixelsOptions) : Z :=
  ceil_div (region_width source options
            * getBytesPerPixel (texture_format (source_texture source))) 256 * 256.

Definition transfer_size (source : Source) (options : ReadPixelsOptions) : Z :=
  transfer_bytesPerRow source options * region_height source options.

(** The array both paths allocate for the result:
    [isFloat ? new Float32Array(width * height * channels)
             : new Uint8Array(width * height * channels)]. *)
Definition result_array (source : Source) (options : ReadPixelsOptions) : result PixelData :=
  let width := region_width source options in
  let height := region_height source options in
  let channels := 4 in
  if includes (texture_format (source_texture source)) "float"
  then Float32Data <$> TypedArray.make (S754_zero false) (width * height * channels)
  else Uint8Data <$> TypedArray.make 0 (width * height * channels).

(** ** hdr-render-loop.ts: [HDRRenderLoop] *)

(** Values of the props of the deck that the render loop reads and writes. *)
Inductive PropValue :=
| undefined
| null
| framebuffer (id : nat)
| callback (id : nat)
(** the one-time [onAfterRender] of [_renderToHDR], which remembers the
    callback it replaces *)
| readback_callback (original : PropValue)
| other_value (v : nat).

(** [deck.props]: a JavaScript object; reading an absent key gives
    [undefined]. *)
Definition prop (props : gmap string PropValue) (key : string) : PropValue :=
  default undefined (props !! key).

(** Modelled from the spec: the [Deck] class ([lib/deck.ts]) is not among the
    sources.  The spec asks of the renderer a way to redirect its output to
    a supplied render target; the render loop does it with
    [deck.setProps(partial)], which overwrites the props named in [partial]
    and keeps the others. *)
Definition merge_props (partial props : gmap string PropValue) : gmap string PropValue :=
  partial ∪ props.

(** The mutable fields of an [HDRRenderLoop] and the props of its deck. *)
Record RenderLoop := {
  deck_props : gmap string PropValue;
  _originalFramebuffer : PropValue;
  _isRendering : bool
}.

(** The read-only fields: the exporter and the EXR options. *)
Record Exporter := {
  exporter_framebuffer : nat;
  exporter_width : Z;
  exporter_height : Z;
  exrOptions : WriteEXROptions
}.

(** What the render loop does to its deck, to itself and to its
    collaborators, in order. *)
Inductive Effect :=
| Eff_setProps (partial : gmap string PropValue)
| Eff_originalFramebuffer (v : PropValue)
| Eff_isRendering (b : bool)
| Eff_onFrameStart (frame : Z)
| Eff_onUpdateFrame (frame : Z)
| Eff_onFrameComplete (frame : Z)
| Eff_redraw
| Eff_readPixels.

(** The outcome of an asynchronous computation: it returns, it throws (or
    its promise is rejected), or it waits for a promise that never settles. *)
Inductive outcome (A : Type) :=
| Returned (a : A)
| Threw (e : exn)
| Waiting.

Arguments Returned {A} a.
Arguments Threw {A} e.
Arguments Waiting {A}.

Definition outcome_of {A : Type} (r : result A) : outcome A :=
  match r with Ok a => Returned a | Throw e => Threw e end.

Section RenderLoop.

(** Everything outside the render loop: the scene, the GPU, the state of the
    caller's callbacks. *)
Context {World : Type}.

(** The caller's callbacks (absent when [None]) and the collaborators.  A
    callback acts on the world; [onUpdateFrame] is handed the deck and may
    set its props.  [redraw] tells whether the deck drew the frame and
    invoked [onAfterRender]; [readPixels] is [exporter.readPixelsAsync()]. *)
Record Env := {
  onFrameStart : option (Z -> World -> World * result unit);
  onFrameComplete : option (Z -> list number -> World -> World * result unit);
  onUpdateFrame :
    option (Z -> gmap string PropValue -> World
            -> World * gmap string PropValue * result unit);
  redraw : gmap string PropValue -> World -> World * bool;
  readPixels : World -> World * result (list number)
}.

Record Machine := {
  loop : RenderLoop;
  world : World;
  effects : list Effect
}.

(** Computations of the render loop; effects are kept when one throws. *)
Definition M (A : Type) : Type := Machine -> Machine * outcome A.

#[global] Instance M_ret : MRet M := fun A a m => (m, Returned a).
#[global] Instance M_bind : MBind M :=
  fun A B f c m =>
    match c m with
    | (m', Returned a) => f a m'
    | (m', Threw e) => (m', Threw e)
    | (m', Waiting) => (m', Waiting)
    end.

(** [throw e] and the wait for a promise that never settles. *)
Definition throw {A : Type} (e : exn) : M A := fun m => (m, Threw e).
Definition wait_forever {A : Type} : M A := fun m => (m, Waiting).

Definition log (e : Effect) (m : Machine) : Machine :=
  {| loop := loop m; world := world m; effects := effects m ++ [e] |}.

Definition with_loop (f : RenderLoop -> RenderLoop) (m : Machine) : Machine :=
  {| loop := f (loop m); world := world m; effects := effects m |}.

(** [this.deck.setProps(partial)]. *)
Definition deck_setProps (partial : gmap string PropValue) : M unit :=
  fun m =>
    (log (Eff_setProps partial)
       (with_loop (fun l => {| deck_props := merge_props partial (deck_props l);
                               _originalFramebuffer := _originalFramebuffer l;
                               _isRendering := _isRendering l |}) m),
     Returned tt).

(** [this.deck.props[key]]. *)
Definition deck_prop (key : string) : M PropValue :=
  fun m => (m, Returned (prop (deck_props (loop m)) key)).

(** [this._originalFramebuffer = v]. *)
Definition set_originalFramebuffer (v : PropValue) : M unit :=
  fun m =>
    (log (Eff_originalFramebuffer v)
       (with_loop (fun l => {| deck_props := deck_props l;
                               _originalFramebuffer := v;
                               _isRendering := _isRendering l |}) m),
     Returned tt).

Definition get_originalFramebuffer : M PropValue :=
  fun m => (m, Returned (_originalFramebuffer (loop m))).

(** [this._isRendering = b]. *)
Definition set_isRendering (b : bool) : M unit :=
  fun m =>
    (log (Eff_isRendering b)
       (with_loop (fun l => {| deck_props := deck_props l;
                               _originalFramebuffer := _originalFramebuffer l;
                               _isRendering := b |}) m),
     Returned tt).

Definition get_isRendering : M bool :=
  fun m => (m, Returned (_isRendering (loop m))).

(** A synchronous computation that touches nothing. *)
Definition pure_result {A : Type} (r : result A) : M A := fun m => (m, outcome_of r).

Variable env : Env.
Variable exporter : Exporter.

(** [this._onFrameStart?.(frame)]. *)
Definition call_onFrameStart (frame : Z) : M unit :=
  match onFrameStart env with
  | None => mret tt
  | Some hook =>
      fun m =>
        let '(w, r) := hook frame (world m) in
        ({| loop := loop m; world := w; effects := effects m ++ [Eff_onFrameStart frame] |},
         outcome_of r)
  end.

(** [if (this._onUpdateFrame) await this._onUpdateFrame(frame, this.deck)]. *)
Definition call_onUpdateFrame (frame : Z) : M unit :=
  match onUpdateFrame env with
  | None => mret tt
  | Some hook =>
      fun m =>
        let '(w, props, r) := hook frame (deck_props (loop m)) (world m) in
        ({| loop := {| deck_props := props;
                       _originalFramebuffer := _originalFramebuffer (loop m);
                       _isRendering := _isRendering (loop m) |};
            world := w;
            effects := effects m ++ [Eff_onUpdateFrame frame] |},
         outcome_of r)
  end.

(** [this._onFrameComplete?.(frame, pixels)]. *)
Definition call_onFrameComplete (frame : Z) (pixels : list number) : M unit :=
  match onFrameComplete env with
  | None => mret tt
  | Some hook =>
      fun m =>
        let '(w, r) := hook frame pixels (world m) in
        ({| loop := loop m; world := w; effects := effects m ++ [Eff_onFrameComplete frame] |},
         outcome_of r)
  end.

(** [this.deck.redraw('HDR export')]: [true] when [onAfterRender] is invoked. *)
Definition deck_redraw : M bool :=
  fun m =>
    let '(w, drawn) := redraw env (deck_props (loop m)) (world m) in
    ({| loop := loop m; world := w; effects := effects m ++ [Eff_redraw] |}, Returned drawn).

(** [await this.exporter.readPixelsAsync()]. *)
Definition exporter_readPixelsAsync : M (list number) :=
  fun m =>
    let '(w, r) := readPixels env (world m) in
    ({| loop := loop m; world := w; effects := effects m ++ [Eff_readPixels] |}, outcome_of r).

(** [_beginExport]. *)
Definition _beginExport : M unit :=
  v ← deck_prop "_framebuffer";
  _ ← set_originalFramebuffer v;
  deck_setProps {[ "_framebuffer" := framebuffer (exporter_framebuffer exporter) ]}.

(** [_endExport]. *)
Definition _endExport : M unit :=
  v ← get_originalFramebuffer;
  _ ← deck_setProps {[ "_framebuffer" := v ]};
  set_originalFramebuffer null.

(** [_renderToHDR]: the promise settles when the one-time [onAfterRender]
    has read the pixels; it never settles when the redraw does not invoke
    the callback. *)
Definition _renderToHDR : M (list number) :=
  originalOnAfterRender ← deck_prop "onAfterRender";
  _ ← deck_setProps
        (<[ "_framebuffer" := framebuffer (exporter_framebuffer exporter) ]>
           {[ "onAfterRender" := readback_callback originalOnAfterRender ]});
  drawn ← deck_redraw;
  if drawn : bool then
    pixels ← exporter_readPixelsAsync;
    _ ← deck_setProps {[ "onAfterRender" := originalOnAfterRender ]};
    mret pixels
  else wait_forever.

(** What a frame yields: [{frame, exrBuffer, pixels}]. *)
Record FrameResult := {
  frame_number : Z;
  frame_exrBuffer : list Z;
  frame_pixels : list number
}.

(** The steps common to [renderFrame] and to the loop body of
    [renderSequence]. *)
Definition render_steps (frame : Z) : M FrameResult :=
  _ ← call_onFrameStart frame;
  _ ← call_onUpdateFrame frame;
  pixels ← _renderToHDR;
  _ ← call_onFrameComplete frame pixels;
  flippedPixels ← pure_result
    (flip_pixels (S754_zero false) pixels (exporter_width exporter)
       (exporter_height exporter) 4);
  exrBuffer ← pure_result
    (writeEXR flippedPixels (exporter_width exporter) (exporter_height exporter)
       (exrOptions exporter));
  mret {| frame_number := frame; frame_exrBuffer := exrBuffer;
          frame_pixels := flippedPixels |}.

(** [renderFrame]. *)
Definition renderFrame (frame : Z) : M (list Z) :=
  r ← render_steps frame;
  mret (frame_exrBuffer r).

(** [renderSequence] is an async generator.  A generator object is either
    not started, suspended at the [yield] of a frame, or finished. *)
Inductive GeneratorState :=
| NotStarted
| SuspendedAtYield (frame : Z)
| Finished.

Record Generator := {
  generator_state : GeneratorState;
  startFrame : Z;
  endFrame : Z
}.

(** [renderLoop.renderSequence({startFrame, endFrame})]: the body does not
    run before the first [next()]. *)
Definition renderSequence (options_startFrame : option Z) (options_endFrame : Z) : Generator :=
  {| generator_state := NotStarted;
     startFrame := default 0 options_startFrame;
     endFrame := options_endFrame |}.

(** What [next()] or [return()] delivers. *)
Inductive IteratorResult :=
| Yield (value : FrameResult)
| Done.

Definition in_state (g : Generator) (s : GeneratorState) : Generator :=
  {| generator_state := s; startFrame := startFrame g; endFrame := endFrame g |}.

(** The [finally] block of [renderSequence]. *)
Definition renderSequence_finally : M unit :=
  _ ← _endExport;
  set_isRendering false.

(** The [for] loop of [renderSequence] from its test for [frame], inside the
    [try]: up to the next [yield], or to the end of the loop. *)
Definition renderSequence_loop (g : Generator) (frame : Z) : M (Generator * IteratorResult) :=
  if frame <=? endFrame g then
    r ← render_steps frame;
    mret (in_state g (SuspendedAtYield frame), Yield r)
  else mret (in_state g Finished, Done).

(** The [try ... finally] of [renderSequence], entered or resumed with
    [body]: leaving the [try] block, by the end of the loop or by an
    exception, runs the [finally] block; a [yield] leaves the generator
    suspended inside the [try]. *)
Definition renderSequence_try (body : M (Generator * IteratorResult))
  : M (Generator * IteratorResult) :=
  fun m =>
    match body m with
    | (m', Returned (g', Yield r)) => (m', Returned (g', Yield r))
    | (m', Waiting) => (m', Waiting)
    | (m', r) =>
        match renderSequence_finally m' with
        | (m'', Returned _) => (m'', r)
        | (m'', Threw e) => (m'', Threw e)
        | (m'', Waiting) => (m'', Waiting)
        end
    end.

(** [generator.next()]. *)
Definition generator_next (g : Generator) : M (Generator * IteratorResult) :=
  match generator_state g with
  | NotStarted =>
      isRendering ← get_isRendering;
      if isRendering : bool then
        throw (Error "HDRRenderLoop: A render sequence is already in progress")
      else
        _ ← set_isRendering true;
        renderSequence_try
          (_ ← _beginExport;
           renderSequence_loop g (startFrame g))
  | SuspendedAtYield frame => renderSequence_try (renderSequence_loop g (frame + 1))
  | Finished => mret (g, Done)
  end.

(** [generator.return()], what leaving a [for await] loop early calls: a
    generator suspended at a [yield] runs its [finally] block. *)
Definition generator_return (g : Generator) : M (Generator * IteratorResult) :=
  match generator_state g with
  | SuspendedAtYield _ =>
      _ ← renderSequence_finally;
      mret (in_state g Finished, Done)
  | _ => mret (in_state g Finished, Done)
  end.

(** How an iteration over the generator ends. *)
Inductive RunEnd :=
| Completed
| Cancelled
| Failed (e : exn)
| NeverSettled
| OutOfFuel.

(** [for await (const r of generator) { ... }]: the consumer sees each frame
    and goes on ([true]) or leaves the loop ([false]).  Returns the frames
    yielded and how the iteration ended; [fuel] bounds the number of
    [next()] calls. *)
Fixpoint iterate (fuel : nat) (consumer : FrameResult -> bool) (g : Generator) (m : Machine)
  : Machine * list FrameResult * RunEnd :=
  match fuel with
  | O => (m, [], OutOfFuel)
  | S fuel' =>
      match generator_next g m with
      | (m', Returned (g', Yield r)) =>
          if consumer r then
            let '(m'', rs, e) := iterate fuel' consumer g' m' in (m'', r :: rs, e)
          else
            match generator_return g' m' with
            | (m'', Returned _) => (m'', [r], Cancelled)
            | (m'', Threw e) => (m'', [r], Failed e)
            | (m'', Waiting) => (m'', [r], NeverSettled)
            end
      | (m', Returned (_, Done)) => (m', [], Completed)
      | (m', Threw e) => (m', [], Failed e)
      | (m', Waiting) => (m', [], NeverSettled)
      end
  end.

End RenderLoop.

(** A computation that leaves the component [proj] of the machine as it
    found it, whatever its outcome. *)
Definition preserves {World A B : Type} (proj : @Machine World -> B) (c : @M World A) : Prop :=
  forall m, proj (fst (c m)) = proj m.

(** The private fields of the render loop. *)
Definition private_fields {World : Type} (m : @Machine World) : PropValue * bool :=
  (_originalFramebuffer (loop m), _isRendering (loop m)).

(** The render loop is exporting, with [v] saved. *)
Definition exporting {World : Type} (v : PropValue) (m : @Machine World) : Prop :=
  _originalFramebuffer (loop m) = v /\ _isRendering (loop m) = true.

(** The render loop has left the export: [_framebuffer] is [v] again, then
    [_isRendering] was reset. *)
Definition restored {World : Type} (v : PropValue) (m : @Machine World) : Prop :=
  prop (deck_props (loop m)) "_framebuffer" = v /\
  _isRendering (loop m) = false /\
  exists earlier,
    effects m
    = earlier ++ [Eff_setProps {[ "_framebuffer" := v ]};
                  Eff_originalFramebuffer null;
                  Eff_isRendering false].

(** The iteration has come to an end and control is back with the caller. *)
Definition exited (ending : RunEnd) : Prop :=
  ending = Completed \/ ending = Cancelled \/ exists e, ending = Failed e.

(** The machine when a fresh generator has entered its [try] block and
    [_beginExport] has returned. *)
Definition after_beginExport {World : Type} (exporter : Exporter) (m : @Machine World)
  : @Machine World :=
  fst (_beginExport exporter (fst (set_isRendering true m))).

(** The [_framebuffer] prop of the deck. *)
Definition deck_framebuffer {World : Type} (m : @Machine World) : PropValue :=
  prop (deck_props (loop m)) "_framebuffer".

(** *** A small scene *)

(** The world counts the calls of [onUpdateFrame], which sets a prop of the
    deck and throws at frame 1; every redraw draws; the readback delivers
    one red pixel. *)
Definition example_env : @Env nat :=
  {| onFrameStart := None;
     onFrameComplete := None;
     onUpdateFrame :=
       Some (fun frame props w =>
               (S w, <[ "viewState" := other_value (Z.to_nat frame) ]> props,
                if frame =? 1 then Throw (Thrown 7) else Ok tt));
     redraw := fun _ w => (w, true);
     readPixels :=
       fun w => (w, Ok [number_of 1 0; S754_zero false; S754_zero false; number_of 1 0]) |}.

Definition example_exporter : Exporter :=
  {| exporter_framebuffer := 1; exporter_width := 1; exporter_height := 1;
     exrOptions := default_options |}.

(** An idle render loop whose deck renders into framebuffer 0. *)
Definition example_machine : @Machine nat :=
  {| loop := {| deck_props := {[ "_framebuffer" := framebuffer 0 ]};
                _originalFramebuffer := null;
                _isRendering := false |};
     world := 0%nat;
     effects := [] |}.

(** A scene whose readback fails. *)
Definition example_env_readback_fails : @Env nat :=
  {| onFrameStart := Some (fun _ w => (w, Ok tt));
     onFrameComplete := Some (fun _ _ w => (w, Ok tt));
     onUpdateFrame := None;
     redraw := fun _ w => (w, true);
     readPixels := fun w => (w, Throw (Error "mapping failed")) |}.

(** The same render loop in the middle of an export. *)
Definition example_busy_machine : @Machine nat :=
  {| loop := {| deck_props := {[ "_framebuffer" := framebuffer 1 ]};
                _originalFramebuffer := framebuffer 0;
                _isRendering := true |};
     world := 1%nat;
     effects := [] |}.
(** ** hdr-render-loop.ts: [capturePixels] *)

(** [capturePixels]: the readback of the current frame, flipped, without
    EXR encoding. *)
Definition capturePixels {World : Type} (env : @Env World) (exporter : Exporter)
  : @M World (list number) :=
  pixels ← _renderToHDR env exporter;
  pure_result
    (flip_pixels (S754_zero false) pixels (exporter_width exporter)
       (exporter_height exporter) 4).

(** The [onAfterRender] prop of the deck. *)
Definition deck_onAfterRender {World : Type} (m : @Machine World) : PropValue :=
  prop (deck_props (loop m)) "onAfterRender".

(** The effect of calling a callback that may be absent. *)
Definition effect_of {A : Type} (callback : option A) (e : Effect) : list Effect :=
  match callback with Some _ => [e] | None => [] end.

(** What [_renderToHDR] does when the frame is drawn and read: it installs
    the HDR framebuffer and its one-time callback, redraws, reads the pixels
    and puts the callback it found back. *)
Definition readback_effects (exporter : Exporter) (original : PropValue) : list Effect :=
  [Eff_setProps (<[ "_framebuffer" := framebuffer (exporter_framebuffer exporter) ]>
                   {[ "onAfterRender" := readback_callback original ]});
   Eff_redraw;
   Eff_readPixels;
   Eff_setProps {[ "onAfterRender" := original ]}].

(** The props of the deck from the first [setProps] of [_renderToHDR] to the
    end of the readback: the HDR framebuffer and the one-time callback over
    the props the deck had. *)
Definition readback_props (exporter : Exporter) (props : gmap string PropValue)
  : gmap string PropValue :=
  merge_props
    (<[ "_framebuffer" := framebuffer (exporter_framebuffer exporter) ]>
       {[ "onAfterRender" := readback_callback (prop props "onAfterRender") ]})
    props.

(** A computation that only adds to the record of what was done. *)
Definition appends_effects {World A : Type} (c : @M World A) : Prop :=
  forall m, exists added, effects (fst (c m)) = effects m ++ added.

(** A scene whose deck never calls [onAfterRender]. *)
Definition example_env_never_drawn : @Env nat :=
  {| onFrameStart := None;
     onFrameComplete := None;
     onUpdateFrame := None;
     redraw := fun _ w => (w, false);
     readPixels := fun w => (w, Ok []) |}.
(** ** hdr-exporter.ts: [HDRExporter] *)

Module HDRExporter.

Record HDRExporterProps := {
  props_width : Z;
  props_height : Z;
  props_format : option string
}.

(** The calls an exporter makes on its device and on the texture and the
    framebuffer the device hands out, in the order they are made.
    [createTexture] always passes the same sampler, and [createFramebuffer]
    the same id, the texture just created and the same depth attachment,
    which the record leaves out; [readback] stands for a call of
    [readPixelsAsync] of gpu-readback.ts and holds the calls that one
    makes. *)
Inductive Call :=
| device_isTextureFormatRenderable (format : string)
| device_createTexture (format : string) (width height : Z) (usage : option Z)
| device_createFramebuffer
| framebuffer_resize (width height : Z)
| readback (calls : list GpuCall)
| device_readPixelsToArrayWebGL (sourceX sourceY sourceWidth sourceHeight : Z)
| framebuffer_destroy
| texture_destroy.

(** The device of an exporter: the device of gpu-readback.ts and its answers
    to the calls of the exporter.  [on_createFramebuffer] and [on_resize]
    tell what [colorAttachments[0]] of the framebuffer is afterwards. *)
Record ExporterDevice := {
  gpu_device : Device;
  on_isTextureFormatRenderable : string -> bool;
  on_createTexture : string -> Z -> Z -> option Z -> result Texture;
  on_createHDRFramebuffer : Texture -> result Texture;
  on_resize : Texture -> Z -> Z -> result Texture
}.

(** The fields of an [HDRExporter]; of [_framebuffer] the exporter and the
    readback use [colorAttachments[0]]. *)
Record HDRExporter := {
  device : ExporterDevice;
  width : Z;
  height : Z;
  format : string;
  _texture : Texture;
  _framebuffer : Texture
}.

(** The outcome of a method: the calls it made, the exporter as the method
    left it, and what it returned or threw. *)
Definition outcome (A : Type) : Type := list Call * HDRExporter * result A.

Definition unsupported_format (format : string) : string :=
  "HDRExporter: Device does not support rendering to " ++ format ++ ". "
  ++ "Float render targets require EXT_color_buffer_float extension (WebGL) "
  ++ "or float32-filterable feature (WebGPU).".

(** [new HDRExporter(device, props)]: the calls made and the exporter, or
    the exception. *)
Definition new (device : ExporterDevice) (props : HDRExporterProps)
  : list Call * result HDRExporter :=
  let width := props_width props in
  let height := props_height props in
  let format := default "rgba16float" (props_format props) in
  let calls := [device_isTextureFormatRenderable format] in
  if negb (on_isTextureFormatRenderable device format)
  then (calls, Throw (Error (unsupported_format format)))
  else
    let usage :=
      match device_type (gpu_device device) with
      | webgpu => Some (JS.or (JS.or 0x01 0x04) 0x10)
      | webgl => None
      end in
    let calls := calls ++ [device_createTexture format width height usage] in
    match on_createTexture device format width height usage with
    | Throw e => (calls, Throw e)
    | Ok texture =>
        let calls := calls ++ [device_createFramebuffer] in
        match on_createHDRFramebuffer device texture with
        | Throw e => (calls, Throw e)
        | Ok attachment =>
            (calls,
             Ok {| device := device; width := width; height := height; format := format;
                   _texture := texture; _framebuffer := attachment |})
        end
    end.

(** [resize(width, height)]: the fields are assigned before the framebuffer
    is resized. *)
Definition resize (this : HDRExporter) (width' height' : Z) : outcome unit :=
  if (width' =? width this) && (height' =? height this) then ([], this, Ok tt)
  else
    let resized attachment :=
      {| device := device this; width := width'; height := height'; format := format this;
         _texture := _texture this; _framebuffer := attachment |} in
    match on_resize (device this) (_framebuffer this) width' height' with
    | Ok attachment => ([framebuffer_resize width' height'], resized attachment, Ok tt)
    | Throw e => ([framebuffer_resize width' height'], resized (_framebuffer this), Throw e)
    end.

(** [readPixelsAsync()]: the data of [readPixelsAsync(this.device,
    this._framebuffer)] of gpu-readback.ts. *)
Definition readPixelsAsync (this : HDRExporter) : outcome PixelData :=
  let '(calls, r) :=
    readPixelsAsync (gpu_device (device this)) (SourceFramebuffer (_framebuffer this))
      {| options_x := None; options_y := None; options_width := None;
         options_height := None |} in
  ([readback calls], this, result_data <$> r).

(** [flipPixelsVertically(pixels, this.width, this.height, 4)] on either
    kind of data. *)
Definition flipped (this : HDRExporter) (pixels : PixelData) : result PixelData :=
  match pixels with
  | Float32Data samples =>
      Float32Data <$> flip_pixels (S754_zero false) samples (width this) (height this) 4
  | Uint8Data samples =>
      Uint8Data <$> flip_pixels 0 samples (width this) (height this) 4
  end.

(** [readPixelsFlippedAsync()]. *)
Definition readPixelsFlippedAsync (this : HDRExporter) : outcome PixelData :=
  let '(calls, this', r) := readPixelsAsync this in
  (calls, this', pixels ← r; flipped this' pixels).

Definition synchronous_readback_unsupported : string :=
  "HDRExporter.readPixels(): Synchronous readback is not supported on WebGPU. "
  ++ "Use readPixelsAsync() instead.".

(** [readPixels()]: the content of [pixelBuffer] after the read. *)
Definition readPixels (this : HDRExporter) : outcome PixelData :=
  match device_type (gpu_device (device this)) with
  | webgpu => ([], this, Throw (Error synchronous_readback_unsupported))
  | webgl =>
      match TypedArray.make (S754_zero false) (width this * height this * 4) with
      | Throw e => ([], this, Throw e)
      | Ok pixelBuffer =>
          ([device_readPixelsToArrayWebGL 0 0 (width this) (height this)], this,
           on_readPixelsToArrayWebGL (gpu_device (device this)) 0 0 (width this)
             (height this) (Float32Data pixelBuffer))
      end
  end.

(** [readPixelsFlipped()]. *)
Definition readPixelsFlipped (this : HDRExporter) : outcome PixelData :=
  let '(calls, this', r) := readPixels this in
  (calls, this', pixels ← r; flipped this' pixels).

(** [destroy()]. *)
Definition destroy (this : HDRExporter) : outcome unit :=
  ([framebuffer_destroy; texture_destroy], this, Ok tt).

End HDRExporter.
(** ** Reading back what the EXR writer wrote *)

(** The null-terminated byte string at the head of [bytes] and what follows
    its terminator. *)
Fixpoint read_cstring (bytes : list Z) : option (list Z * list Z) :=
  match bytes with
  | [] => None
  | b :: rest =>
      if b =? 0 then Some ([], rest)
      else r ← read_cstring rest; Some (b :: r.1, r.2)
  end.

(** The character with code unit [u]. *)
Definition char_of (u : Z) : Ascii.ascii := Ascii.ascii_of_N (Z.to_N u).

(** UTF-8 decoding of one- and two-byte sequences (code points below 2^11). *)
Fixpoint utf8_decode (bytes : list Z) : option string :=
  match bytes with
  | [] => Some EmptyString
  | b0 :: rest =>
      if b0 <? 0x80 then s ← utf8_decode rest; Some (String (char_of b0) s)
      else
        match rest with
        | b1 :: rest' =>
            if (0xC0 <=? b0) && (b0 <? 0xE0) && (0x80 <=? b1) && (b1 <? 0xC0)
            then
              s ← utf8_decode rest';
              Some (String (char_of (Z.lor (Z.shiftl (Z.land b0 0x1F) 6) (Z.land b1 0x3F))) s)
            else None
        | [] => None
        end
  end.

(** A little-endian int32 and a little-endian uint32 at the head of
    [bytes]. *)
Definition read_int32 (bytes : list Z) : Z := JS.ToInt32 (le_value (take 4 bytes)).
Definition read_uint32 (bytes : list Z) : Z := le_value (take 4 bytes).

(** An attribute of an EXR header: name, type tag and value. *)
Record Attribute := {
  attribute_name : list Z;
  attribute_type : list Z;
  attribute_value : list Z
}.

(** The attributes of a header: each is a name, a type tag, the byte length
    of the value and the value; a null byte ends the list.  [fuel] bounds the
    number of attributes read. *)
Fixpoint read_attributes (fuel : nat) (bytes : list Z) : option (list Attribute) :=
  match fuel with
  | O => None
  | S fuel' =>
      match bytes with
      | [] => None
      | b :: _ =>
          if b =? 0 then Some []
          else
            name ← read_cstring bytes;
            type ← read_cstring name.2;
            if (length type.2 <? 4)%nat then None
            else
              let size := Z.to_nat (read_uint32 type.2) in
              let rest := drop 4 type.2 in
              if (length rest <? size)%nat then None
              else
                attributes ← read_attributes fuel' (drop size rest);
                Some ({| attribute_name := name.1; attribute_type := type.1;
                         attribute_value := take size rest |} :: attributes)
      end
  end.

(** An entry of a channel list: name, pixel type, the linearity flag and the
    two sampling rates. *)
Record Channel := {
  channel_name : list Z;
  channel_pixelType : Z;
  channel_pLinear : Z;
  channel_xSampling : Z;
  channel_ySampling : Z
}.

(** The entries of a channel list; a null byte ends the list. *)
Fixpoint read_chlist (fuel : nat) (bytes : list Z) : option (list Channel) :=
  match fuel with
  | O => None
  | S fuel' =>
      match bytes with
      | [] => None
      | b :: _ =>
          if b =? 0 then Some []
          else
            name ← read_cstring bytes;
            if (length name.2 <? 16)%nat then None
            else
              channels ← read_chlist fuel' (drop 16 name.2);
              Some ({| channel_name := name.1;
                       channel_pixelType := read_int32 name.2;
                       channel_pLinear := default 0 (name.2 !! 4%nat);
                       channel_xSampling := read_int32 (drop 8 name.2);
                       channel_ySampling := read_int32 (drop 12 name.2) |} :: channels)
      end
  end.

(** A string without the null character. *)
Definition no_NUL (str : string) : Prop :=
  Forall (fun c => code_unit c <> 0) (String.list_ascii_of_string str).

(** The sum of [f] over a list. *)
Definition total {E : Type} (f : E -> Z) (l : list E) : Z := foldr (fun e sum => f e + sum) 0 l.

(** The attribute [name] of type [type] with the value [value]. *)
Definition attribute_of (name type : string) (value : list Z) : Attribute :=
  {| attribute_name := utf8_encode name; attribute_type := utf8_encode type;
     attribute_value := value |}.

(** The entry a channel list holds for the channel [name]. *)
Definition channel_of (pixelType : EXRChannelType) (name : string) : Channel :=
  {| channel_name := utf8_encode name;
     channel_pixelType := match pixelType with half => PIXEL_TYPE_HALF | float => PIXEL_TYPE_FLOAT end;
     channel_pLinear := 1;
     channel_xSampling := 1;
     channel_ySampling := 1 |}.

(** A channel name a reader can find: not empty and without the null
    character. *)
Definition readable_name (name : string) : Prop := name <> EmptyString /\ no_NUL name.

(** ** Rows of a padded buffer *)

(** The first [rowLength] elements of each of the [height] rows of
    [source], rows lying [stride] elements apart. *)
Definition packed_rows {A : Type} (source : list A) (stride rowLength height : nat) : list A :=
  i ← seq 0 height; take rowLength (drop (i * stride) source).
(** *** Bit-level facts used by [floatToHalf] *)

Lemma ToInt32_range z : - 2 ^ 31 <= JS.ToInt32 z < 2 ^ 31.
Proof. unfold JS.ToInt32. pose proof (Z.mod_pos_bound (z + 2 ^ 31) (2 ^ 32)). lia. Qed.

Lemma ToInt32_small z : - 2 ^ 31 <= z < 2 ^ 31 -> JS.ToInt32 z = z.
Proof. intros H. unfold JS.ToInt32. rewrite Z.mod_small; lia. Qed.

Lemma testbit_sign_15 x : - 2 ^ 15 <= x < 2 ^ 15 -> Z.testbit x 15 = (x <? 0).
Proof.
  intros H. destruct (Z.ltb_spec x 0) as [Hn | Hp].
  - apply Z.testbit_true; [lia |].
    replace (x / 2 ^ 15) with (-1); [reflexivity |].
    apply Z.div_unique with (r := x + 2 ^ 15); lia.
  - apply Z.testbit_false; [lia |]. rewrite Z.div_small; [reflexivity | lia].
Qed.

Lemma land_bit_15 x : - 2 ^ 15 <= x < 2 ^ 15 -> Z.land x 0x8000 = if x <? 0 then 0x8000 else 0.
Proof.
  intros H. apply Z.bits_inj'. intros n Hn.
  rewrite Z.land_spec. change 0x8000 with (2 ^ 15). rewrite Z.pow2_bits_eqb by lia.
  rewrite <- (testbit_sign_15 x H).
  destruct (Z.eqb_spec 15 n) as [<- | Hne].
  - rewrite andb_true_r. destruct (Z.testbit x 15); [| reflexivity].
    rewrite Z.pow2_bits_eqb by lia. reflexivity.
  - rewrite andb_false_r. destruct (Z.testbit x 15); [| symmetry; apply Z.bits_0].
    rewrite Z.pow2_bits_eqb by lia. symmetry. now apply Z.eqb_neq.
Qed.

(** The sign computed by [floatToHalf] is bit 15 exactly when the binary32
    sign bit is set. *)
Lemma floatToHalf_sign f :
  JS.and (JS.sar f 16) 0x8000 = if JS.ToInt32 f <? 0 then 0x8000 else 0.
Proof.
  unfold JS.and, JS.sar. pose proof (ToInt32_range f) as Hf.
  change (JS.ToUint32 16 mod 32) with 16.
  set (g := JS.ToInt32 f) in *.
  assert (Hs : - 2 ^ 15 <= Z.shiftr g 16 < 2 ^ 15).
  { rewrite Z.shiftr_div_pow2 by lia. split.
    - apply Z.div_le_lower_bound; lia.
    - apply Z.div_lt_upper_bound; lia. }
  rewrite (ToInt32_small (Z.shiftr g 16)) by lia.
  rewrite (ToInt32_small 0x8000) by lia.
  rewrite land_bit_15 by exact Hs.
  assert (Hlt : (Z.shiftr g 16 <? 0) = (g <? 0)).
  { rewrite Z.shiftr_div_pow2 by lia.
    destruct (Z.ltb_spec g 0); destruct (Z.ltb_spec (g / 2 ^ 16) 0); try reflexivity.
    - exfalso. assert (g / 2 ^ 16 < 0) by (apply Z.div_lt_upper_bound; lia). lia.
    - exfalso. assert (0 <= g / 2 ^ 16) by (apply Z.div_pos; lia). lia. }
  rewrite Hlt. destruct (g <? 0); reflexivity.
Qed.

Lemma floatToHalf_bits_underflow f :
  rebiased_exponent f < -10 ->
  floatToHalf_bits f = if JS.ToInt32 f <? 0 then 0x8000 else 0.
Proof.
  unfold rebiased_exponent, floatToHalf_bits.
  set (exponent := JS.and (JS.sar f 23) 0xff - 127 + 15). intros He.
  destruct (Z.leb_spec exponent 0); [| lia].
  destruct (Z.ltb_spec exponent (-10)); [| lia].
  apply floatToHalf_sign.
Qed.

Lemma lor_bound n a b : 0 <= n -> 0 <= a < 2 ^ n -> 0 <= b < 2 ^ n -> 0 <= Z.lor a b < 2 ^ n.
Proof.
  intros Hn Ha Hb. assert (H0 : 0 <= Z.lor a b) by (apply Z.lor_nonneg; lia).
  split; [exact H0 |].
  destruct (Z.eq_dec (Z.lor a b) 0) as [-> | Hne]; [apply Z.pow_pos_nonneg; lia |].
  apply Z.log2_lt_pow2; [lia |]. rewrite Z.log2_lor by lia.
  apply Z.max_lub_lt.
  - destruct (Z.eq_dec a 0) as [-> | ?]; [| apply Z.log2_lt_pow2; lia].
    destruct (Z.eq_dec n 0) as [-> | ?]; [| simpl; lia].
    exfalso. apply Hne. change (2 ^ 0) with 1 in Hb. replace b with 0 by lia. reflexivity.
  - destruct (Z.eq_dec b 0) as [-> | ?]; [| apply Z.log2_lt_pow2; lia].
    destruct (Z.eq_dec n 0) as [-> | ?]; [| simpl; lia].
    exfalso. apply Hne. change (2 ^ 0) with 1 in Ha. replace a with 0 by lia. reflexivity.
Qed.

Lemma land_mask_bound n a : 0 <= n -> 0 <= Z.land a (Z.ones n) < 2 ^ n.
Proof. intros Hn. rewrite Z.land_ones by lia. apply Z.mod_pos_bound. apply Z.pow_pos_nonneg; lia. Qed.

Lemma floatToHalf_bits_quiet_nan f :
  quiet_nan32 f ->
  half_exponent (floatToHalf_bits f) = 0x1f /\ half_mantissa (floatToHalf_bits f) <> 0.
Proof.
  intros (Hr & He & Hq).
  unfold floatToHalf_bits. rewrite floatToHalf_sign.
  assert (Hexp : JS.and (JS.sar f 23) 0xff = 0xff).
  { unfold JS.and, JS.sar. change (JS.ToUint32 23 mod 32) with 23.
    rewrite (ToInt32_small f) by lia.
    assert (- 2 ^ 8 <= Z.shiftr f 23 < 2 ^ 8).
    { rewrite Z.shiftr_div_pow2 by lia. split;
        [apply Z.div_le_lower_bound | apply Z.div_lt_upper_bound]; lia. }
    rewrite (ToInt32_small (Z.shiftr f 23)) by lia.
    rewrite (ToInt32_small 0xff) by lia. rewrite He. reflexivity. }
  rewrite Hexp. change (0xff - 127 + 15 <=? 0) with false.
  change (0xff - 127 + 15 =? 0xff - 127 + 15) with true. cbv iota.
  assert (Hm : JS.and f 0x007fffff = Z.land f (Z.ones 23)).
  { unfold JS.and. rewrite (ToInt32_small f) by lia.
    rewrite (ToInt32_small 0x007fffff) by lia. change 0x007fffff with (Z.ones 23).
    apply ToInt32_small. pose proof (land_mask_bound 23 f). lia. }
  rewrite Hm. set (mantissa := Z.land f (Z.ones 23)).
  assert (Hmr : 0 <= mantissa < 2 ^ 23) by (apply land_mask_bound; lia).
  assert (Hm22 : Z.testbit mantissa 22 = true).
  { unfold mantissa. rewrite Z.land_spec, Hq. reflexivity. }
  assert (Hm0 : (mantissa =? 0) = false).
  { apply Z.eqb_neq. intros E. rewrite E, Z.bits_0 in Hm22. discriminate. }
  rewrite Hm0.
  assert (Hsar : JS.sar mantissa 13 = Z.shiftr mantissa 13).
  { unfold JS.sar. change (JS.ToUint32 13 mod 32) with 13. rewrite ToInt32_small by lia.
    reflexivity. }
  rewrite Hsar. set (q := Z.shiftr mantissa 13).
  assert (Hqr : 0 <= q < 2 ^ 10).
  { unfold q. rewrite Z.shiftr_div_pow2 by lia. split;
      [apply Z.div_pos | apply Z.div_lt_upper_bound]; lia. }
  assert (Hq9 : Z.testbit q 9 = true).
  { unfold q. rewrite Z.shiftr_spec by lia. exact Hm22. }
  set (sign := if JS.ToInt32 f <? 0 then 0x8000 else 0).
  assert (Hsr : 0 <= sign < 2 ^ 16) by (unfold sign; destruct (JS.ToInt32 f <? 0); lia).
  assert (Hor1 : JS.or sign 0x7c00 = Z.lor sign 0x7c00).
  { unfold JS.or. rewrite (ToInt32_small sign), (ToInt32_small 0x7c00) by lia.
    apply ToInt32_small. pose proof (lor_bound 16 sign 0x7c00). lia. }
  rewrite Hor1.
  assert (Hb1 : 0 <= Z.lor sign 0x7c00 < 2 ^ 16) by (apply lor_bound; lia).
  assert (Hor2 : JS.or (Z.lor sign 0x7c00) q = Z.lor (Z.lor sign 0x7c00) q).
  { unfold JS.or. rewrite (ToInt32_small (Z.lor sign 0x7c00)), (ToInt32_small q) by lia.
    apply ToInt32_small. pose proof (lor_bound 16 (Z.lor sign 0x7c00) q). lia. }
  rewrite Hor2. split.
  - unfold half_exponent. apply Z.bits_inj'. intros n Hn.
    rewrite Z.land_spec, Z.shiftr_spec, !Z.lor_spec by lia.
    destruct (Z_lt_dec n 5) as [Hlt | Hge].
    + assert (Hcase : n = 0 \/ n = 1 \/ n = 2 \/ n = 3 \/ n = 4) by lia.
      destruct Hcase as [-> | [-> | [-> | [-> | ->]]]]; simpl;
        rewrite orb_true_r; reflexivity.
    + assert (Hf : Z.testbit 0x1f n = false).
      { change 0x1f with (Z.ones 5). apply Z.ones_spec_high. lia. }
      rewrite Hf. apply andb_false_r.
  - unfold half_mantissa. intros E.
    assert (Hbit : Z.testbit (Z.land (Z.lor (Z.lor sign 0x7c00) q) 0x3ff) 9 = true).
    { rewrite Z.land_spec, !Z.lor_spec, Hq9. rewrite orb_true_r. reflexivity. }
    rewrite E, Z.bits_0 in Hbit. discriminate.
Qed.

(** A signalling binary32 NaN whose payload lies in the thirteen low bits
    loses its payload; no store of a [number] into a [Float32Array] delivers
    such a pattern. *)
Remark floatToHalf_bits_low_payload : floatToHalf_bits 0x7F800001 = 0x7C00.
Proof. vm_compute. reflexivity. Qed.

(** *** The result of [floatToHalf] is a 16-bit pattern *)

Lemma JS_or_small n a b :
  0 <= n <= 31 -> 0 <= a < 2 ^ n -> 0 <= b < 2 ^ n ->
  JS.or a b = Z.lor a b /\ 0 <= JS.or a b < 2 ^ n.
Proof.
  intros Hn Ha Hb. unfold JS.or.
  assert (Hp : 2 ^ n <= 2 ^ 31) by (apply Z.pow_le_mono_r; lia).
  rewrite (ToInt32_small a), (ToInt32_small b) by lia.
  pose proof (lor_bound n a b ltac:(lia) Ha Hb) as Hl.
  rewrite ToInt32_small by lia. split; [reflexivity | exact Hl].
Qed.

Lemma JS_sar_small a k :
  0 <= a < 2 ^ 31 -> 0 <= k < 32 ->
  JS.sar a k = Z.shiftr a k /\ 0 <= JS.sar a k <= a.
Proof.
  intros Ha Hk. unfold JS.sar. rewrite (ToInt32_small a) by lia.
  unfold JS.ToUint32. rewrite (Z.mod_small k (2 ^ 32)) by lia.
  rewrite (Z.mod_small k 32) by lia. split; [reflexivity |].
  rewrite Z.shiftr_div_pow2 by lia.
  assert (0 < 2 ^ k) by (apply Z.pow_pos_nonneg; lia).
  split; [apply Z.div_pos; lia |].
  apply Z.div_le_upper_bound; [lia |]. nia.
Qed.

Lemma JS_and_mask a n :
  0 <= n <= 31 -> 0 <= JS.and a (Z.ones n) < 2 ^ n.
Proof.
  intros Hn. unfold JS.and.
  assert (Hp : 2 ^ n <= 2 ^ 31) by (apply Z.pow_le_mono_r; lia).
  assert (Ho : Z.ones n = 2 ^ n - 1) by (rewrite Z.ones_equiv; lia).
  assert (0 < 2 ^ n) by (apply Z.pow_pos_nonneg; lia).
  rewrite (ToInt32_small (Z.ones n)) by lia.
  pose proof (land_mask_bound n (JS.ToInt32 a) ltac:(lia)) as Hl.
  rewrite ToInt32_small by lia. exact Hl.
Qed.

Lemma floatToHalf_bits_range f : 0 <= floatToHalf_bits f < 2 ^ 16.
Proof.
  unfold floatToHalf_bits. rewrite floatToHalf_sign.
  set (sign := if JS.ToInt32 f <? 0 then 0x8000 else 0).
  assert (Hsign : 0 <= sign < 2 ^ 16) by (unfold sign; destruct (JS.ToInt32 f <? 0); lia).
  pose proof (JS_and_mask (JS.sar f 23) 8 ltac:(lia)) as He.
  change (Z.ones 8) with 0xff in He.
  pose proof (JS_and_mask f 23 ltac:(lia)) as Hm.
  change (Z.ones 23) with 0x007fffff in Hm.
  set (biased := JS.and (JS.sar f 23) 0xff) in *.
  set (mantissa := JS.and f 0x007fffff) in *.
  destruct (JS_sar_small mantissa 13 ltac:(lia) ltac:(lia)) as [Hq Hqr].
  assert (Hq10 : 0 <= JS.sar mantissa 13 < 2 ^ 16).
  { rewrite Hq, Z.shiftr_div_pow2 by lia. split;
      [apply Z.div_pos | apply Z.div_lt_upper_bound]; lia. }
  pose proof (JS_or_small 16 sign 0x7c00 ltac:(lia) Hsign ltac:(lia)) as [_ Hinf].
  destruct (Z.leb_spec (biased - 127 + 15) 0) as [Hle | Hgt].
  - destruct (Z.ltb_spec (biased - 127 + 15) (-10)) as [Hlt | Hge]; [exact Hsign |].
    pose proof (JS_or_small 24 mantissa 0x00800000 ltac:(lia) ltac:(lia) ltac:(lia))
      as [_ Hor].
    destruct (JS_sar_small (JS.or mantissa 0x00800000) (1 - (biased - 127 + 15))
                ltac:(lia) ltac:(lia)) as [_ Hm1].
    set (m := JS.sar (JS.or mantissa 0x00800000) (1 - (biased - 127 + 15))) in *.
    destruct (JS_sar_small m 13 ltac:(lia) ltac:(lia)) as [Hm13 Hm13r].
    assert (0 <= JS.sar m 13 < 2 ^ 16).
    { rewrite Hm13, Z.shiftr_div_pow2 by lia. split;
        [apply Z.div_pos | apply Z.div_lt_upper_bound]; lia. }
    apply (JS_or_small 16); [lia | exact Hsign | assumption].
  - destruct (Z.eqb_spec (biased - 127 + 15) (0xff - 127 + 15)) as [Heq | Hne].
    + destruct (mantissa =? 0); [exact Hinf |].
      apply (JS_or_small 16); [lia | exact Hinf | exact Hq10].
    + destruct (Z.ltb_spec 30 (biased - 127 + 15)) as [Hov | Hnorm]; [exact Hinf |].
      assert (Hshl : 0 <= JS.shl (biased - 127 + 15) 10 < 2 ^ 16).
      { unfold JS.shl. rewrite (ToInt32_small (biased - 127 + 15)) by lia.
        change (JS.ToUint32 10 mod 32) with 10. rewrite Z.shiftl_mul_pow2 by lia.
        rewrite ToInt32_small by lia. lia. }
      pose proof (JS_or_small 16 sign _ ltac:(lia) Hsign Hshl) as [_ Hse].
      apply (JS_or_small 16); [lia | exact Hse | exact Hq10].
Qed.

Lemma floatToHalf_range value : 0 <= floatToHalf value < 2 ^ 16.
Proof. apply floatToHalf_bits_range. Qed.

(** ** Buffers filled from left to right *)

Lemma bind_Ok {A B : Type} (a : A) (f : A -> result B) : (Ok a ≫= f) = f a.
Proof. reflexivity. Qed.

Lemma length_le_bytes n v : length (le_bytes n v) = n.
Proof. unfold le_bytes. rewrite length_fmap. apply length_seq. Qed.

Lemma length_range start n : length (range start n) = n.
Proof.
  revert start. induction n as [| n IH]; intros start; simpl; [reflexivity |].
  now rewrite IH.
Qed.

Lemma range_succ start n : range start (S n) = range start n ++ [start + Z.of_nat n].
Proof.
  revert start. induction n as [| n IH]; intros start.
  - simpl. now rewrite Z.add_0_r.
  - change (range start (S (S n))) with (start :: range (start + 1) (S n)).
    rewrite IH. simpl. do 3 f_equal. lia.
Qed.

Lemma elem_of_range y start n :
  y ∈ range start n <-> start <= y < start + Z.of_nat n.
Proof.
  revert start. induction n as [| n IH]; intros start; simpl.
  - rewrite elem_of_nil. lia.
  - rewrite elem_of_cons, IH. lia.
Qed.

Lemma lookup_range start n (i : nat) :
  (i < n)%nat -> range start n !! i = Some (start + Z.of_nat i).
Proof.
  revert start i. induction n as [| n IH]; intros start i Hi; [lia |].
  destruct i as [| i]; simpl.
  - now rewrite Z.add_0_r.
  - rewrite IH by lia. f_equal. lia.
Qed.

Lemma TypedArray_set_middle {A : Type} (pre mid post source : list A) :
  length mid = length source ->
  TypedArray.set (pre ++ mid ++ post) source (Z.of_nat (length pre))
  = Ok (pre ++ source ++ post).
Proof.
  intros Hlen. unfold TypedArray.set.
  rewrite !length_app.
  destruct (Z.ltb_spec (Z.of_nat (length pre)) 0) as [? | _]; [lia |].
  destruct (Z.ltb_spec (Z.of_nat (length pre + (length mid + length post)))
              (Z.of_nat (length pre) + Z.of_nat (length source))) as [? | _]; [lia |].
  simpl. rewrite Nat2Z.id. f_equal.
  rewrite take_app_length. f_equal. f_equal.
  rewrite drop_app_add. now apply drop_app_length'.
Qed.

Lemma TypedArray_set_cursor {A : Type} (pre post source : list A) :
  (length source <= length post)%nat ->
  TypedArray.set (pre ++ post) source (Z.of_nat (length pre))
  = Ok (pre ++ source ++ drop (length source) post).
Proof.
  intros Hlen. rewrite <- (take_drop (length source) post) at 1.
  apply TypedArray_set_middle. rewrite length_take. lia.
Qed.

(** Writing into a fresh array at offset 0. *)
Lemma TypedArray_set_fresh {A : Type} (zero : A) (n : nat) (source : list A) :
  (length source <= n)%nat ->
  TypedArray.set (replicate n zero) source 0
  = Ok (source ++ replicate (n - length source) zero).
Proof.
  intros Hlen. pose proof (TypedArray_set_cursor [] (replicate n zero) source) as H.
  change (Z.of_nat (length [])) with 0 in H. change ([] ++ replicate n zero) with (replicate n zero) in H.
  rewrite H by (rewrite length_replicate; lia).
  now rewrite drop_replicate.
Qed.

Lemma TypedArray_make_Ok {A : Type} (zero : A) (n : Z) :
  0 <= n -> TypedArray.make zero n = Ok (replicate (Z.to_nat n) zero).
Proof. intros H. unfold TypedArray.make. destruct (Z.ltb_spec n 0); [lia | reflexivity]. Qed.

Lemma Uint8Array_put_cursor (pre post : list Z) (x v : Z) :
  Uint8Array_put (pre ++ x :: post) (Z.of_nat (length pre)) v = pre ++ v mod 256 :: post.
Proof.
  unfold Uint8Array_put. destruct (Z.ltb_spec (Z.of_nat (length pre)) 0); [lia |].
  rewrite Nat2Z.id. rewrite insert_app_r_alt by lia.
  now rewrite Nat.sub_diag.
Qed.

Lemma Uint8Array_put_next (pre post : list Z) (x v offset : Z) :
  offset = Z.of_nat (length pre) ->
  Uint8Array_put (pre ++ x :: post) offset v = (pre ++ [v mod 256]) ++ post.
Proof. intros ->. rewrite Uint8Array_put_cursor, <- app_assoc. reflexivity. Qed.

(** *** Steps that append *)

Lemma appends_ext f g chunk :
  (forall st, f st = g st) -> appends f chunk -> appends g chunk.
Proof. intros Hfg Hf pre post H. rewrite <- Hfg. now apply Hf. Qed.

Lemma appends_nil : appends Ok [].
Proof.
  intros pre post _. simpl. rewrite drop_0, app_nil_r. reflexivity.
Qed.

Lemma appends_bind f g c1 c2 :
  appends f c1 -> appends g c2 -> appends (fun st => f st ≫= g) (c1 ++ c2).
Proof.
  intros Hf Hg pre post Hlen. rewrite length_app in Hlen.
  rewrite (Hf pre post) by lia. rewrite bind_Ok.
  rewrite (app_assoc pre c1). rewrite (Hg (pre ++ c1)) by (rewrite length_drop; lia).
  rewrite drop_drop, <- !app_assoc, (length_app c1 c2). reflexivity.
Qed.

Lemma appends_set (source : list Z) :
  appends (fun '(view, offset) =>
             view ← TypedArray.set view source offset;
             Ok (view, offset + Z.of_nat (length source))) source.
Proof.
  intros pre post Hlen. rewrite TypedArray_set_cursor by exact Hlen.
  rewrite bind_Ok, length_app. do 2 f_equal. lia.
Qed.

Lemma appends_for_iter (body : Z -> list Z * Z -> result (list Z * Z)) (chunk : Z -> list Z) :
  (forall y, appends (body y) (chunk y)) ->
  forall n start, appends (for_iter n start body) (y ← range start n; chunk y).
Proof.
  intros Hbody n. induction n as [| n IH]; intros start.
  - apply appends_nil.
  - change (range start (S n)) with (start :: range (start + 1) n). rewrite bind_cons.
    apply (appends_bind (body start) (for_iter n (start + 1) body)); [apply Hbody | apply IH].
Qed.

Lemma appends_for_lt (body : Z -> list Z * Z -> result (list Z * Z)) (chunk : Z -> list Z) stop :
  (forall y, appends (body y) (chunk y)) ->
  appends (for_lt 0 stop body) (y ← range 0 (Z.to_nat stop); chunk y).
Proof. intros H. unfold for_lt. rewrite Z.sub_0_r. now apply appends_for_iter. Qed.

Lemma appends_for_of {E : Type} (body : E -> list Z * Z -> result (list Z * Z))
    (chunk : E -> list Z) (l : list E) :
  (forall e, appends (body e) (chunk e)) ->
  appends (for_of l body) (e ← l; chunk e).
Proof.
  intros Hbody. induction l as [| e l IH].
  - apply appends_nil.
  - rewrite bind_cons. apply (appends_bind (body e) (for_of l body)); [apply Hbody | apply IH].
Qed.

(** A fresh array filled by an appending step holds exactly the chunk. *)
Lemma appends_fresh f chunk :
  appends f chunk ->
  f (replicate (length chunk) 0, 0) = Ok (chunk, Z.of_nat (length chunk)).
Proof.
  intros Hf. pose proof (Hf [] (replicate (length chunk) 0)) as H.
  change (Z.of_nat (length [])) with 0 in H.
  change ([] ++ replicate (length chunk) 0) with (replicate (length chunk) 0) in H.
  rewrite H by (rewrite length_replicate; lia).
  rewrite drop_replicate, Nat.sub_diag. simpl. now rewrite app_nil_r.
Qed.

(** *** The header builders *)

Lemma TypedArray_set_fill (written : list Z) (k : nat) (source : list Z) (offset : Z) :
  offset = Z.of_nat (length written) ->
  (length source <= k)%nat ->
  TypedArray.set (written ++ replicate k 0) source offset
  = Ok ((written ++ source) ++ replicate (k - length source) 0).
Proof.
  intros -> Hlen. rewrite TypedArray_set_cursor by (rewrite length_replicate; lia).
  now rewrite drop_replicate, <- app_assoc.
Qed.

Ltac fresh_buffer :=
  match goal with
  | |- context [TypedArray.set (replicate ?n 0) _ _] =>
      change (replicate n 0) with ([] ++ replicate n 0)
  end.

Ltac fill_step :=
  rewrite TypedArray_set_fill;
  [ rewrite bind_Ok
  | repeat (rewrite ?length_app, ?length_le_bytes; simpl); lia
  | repeat (rewrite ?length_app, ?length_le_bytes; simpl); lia ].

Lemma stringToBytes_eq str : stringToBytes str = Ok (cstring str).
Proof.
  unfold stringToBytes, cstring.
  rewrite TypedArray_make_Ok by lia. rewrite bind_Ok.
  rewrite TypedArray_set_fresh by lia. rewrite bind_Ok.
  replace (Z.to_nat (Z.of_nat (length (utf8_encode str)) + 1) - length (utf8_encode str))%nat
    with 1%nat by lia.
  simpl replicate. now rewrite Uint8Array_put_cursor.
Qed.

Lemma buildBox2i_eq xMin yMin xMax yMax :
  buildBox2i xMin yMin xMax yMax = Ok (box2i_bytes xMin yMin xMax yMax).
Proof.
  unfold buildBox2i, box2i_bytes, ArrayBuffer_new, DataView.setInt32.
  rewrite TypedArray_make_Ok by lia. rewrite bind_Ok.
  fresh_buffer. do 4 fill_step.
  rewrite !length_le_bytes. simpl replicate. rewrite app_nil_r, <- !app_assoc. reflexivity.
Qed.

Lemma length_bind_const {E : Type} (f : E -> list Z) (c : nat) (l : list E) :
  (forall e, length (f e) = c) -> length (l ≫= f) = (c * length l)%nat.
Proof.
  intros Hf. induction l as [| e l IH]; [simpl; lia |].
  rewrite bind_cons, length_app, Hf, IH. simpl. lia.
Qed.

Lemma foldl_total_length (parts : list (list Z)) (acc : Z) :
  foldl (fun sum part => sum + Z.of_nat (length part)) acc parts
  = acc + Z.of_nat (length (part ← parts; part)).
Proof.
  revert acc. induction parts as [| p parts IH]; intros acc.
  - simpl. lia.
  - simpl foldl. rewrite IH, bind_cons, length_app. lia.
Qed.

Lemma concat_parts_eq (parts : list (list Z)) :
  concat_parts parts = Ok (part ← parts; part).
Proof.
  unfold concat_parts. rewrite foldl_total_length, Z.add_0_l.
  rewrite TypedArray_make_Ok by lia. rewrite bind_Ok, Nat2Z.id.
  rewrite (appends_fresh _ (part ← parts; part)); [reflexivity |].
  apply (appends_for_of _ (fun part => part)). intros part. apply appends_set.
Qed.

Lemma writeAttribute_eq name type value :
  writeAttribute name type value = Ok (attribute_bytes name type value).
Proof.
  unfold writeAttribute, attribute_bytes, DataView.setUint32.
  rewrite !stringToBytes_eq, !bind_Ok.
  rewrite (TypedArray_make_Ok 0 4) by lia. rewrite bind_Ok.
  rewrite TypedArray_set_fresh by (rewrite length_le_bytes; simpl; lia). rewrite bind_Ok.
  rewrite length_le_bytes. simpl replicate. rewrite app_nil_r.
  rewrite TypedArray_make_Ok by lia. rewrite bind_Ok.
  fresh_buffer. do 4 fill_step.
  rewrite !length_le_bytes.
  match goal with |- context [replicate ?n 0] => replace n with 0%nat by lia end.
  simpl replicate. rewrite app_nil_r, <- !app_assoc. reflexivity.
Qed.

Lemma channelEntry_eq name pixelType :
  channelEntry name pixelType = Ok (channel_entry_bytes pixelType name).
Proof.
  unfold channelEntry, channel_entry_bytes, DataView.setInt32.
  rewrite stringToBytes_eq, bind_Ok.
  rewrite TypedArray_make_Ok by lia. rewrite bind_Ok.
  fresh_buffer. do 2 fill_step. rewrite length_le_bytes.
  replace (Z.to_nat (Z.of_nat (length (cstring name)) + 16) - length (cstring name) - 4)%nat
    with 12%nat by lia.
  fold (pixel_type_tag pixelType).
  set (written := ([] ++ cstring name) ++ le_bytes 4 (JS.ToInt32 (pixel_type_tag pixelType))).
  assert (Hw : Z.of_nat (length written) = Z.of_nat (length (cstring name)) + 4).
  { unfold written. rewrite !length_app, length_le_bytes. simpl. lia. }
  simpl replicate.
  rewrite (Uint8Array_put_next written) by lia.
  rewrite (Uint8Array_put_next (written ++ [1 mod 256])) by (rewrite length_app; simpl; lia).
  rewrite (Uint8Array_put_next ((written ++ [1 mod 256]) ++ [0 mod 256]))
    by (rewrite !length_app; simpl; lia).
  rewrite (Uint8Array_put_next (((written ++ [1 mod 256]) ++ [0 mod 256]) ++ [0 mod 256]))
    by (rewrite !length_app; simpl; lia).
  change [0; 0; 0; 0; 0; 0; 0; 0] with (replicate 8 0).
  do 2 fill_step. rewrite !length_le_bytes. simpl replicate.
  unfold written. rewrite app_nil_r, <- !app_assoc. reflexivity.
Qed.

Lemma channel_parts_eq pixelType (names : list string) (parts : list (list Z)) :
  for_of names (fun name parts => entry ← channelEntry name pixelType; Ok (parts ++ [entry]))
    parts
  = Ok (parts ++ (channel_entry_bytes pixelType <$> names)).
Proof.
  revert parts. induction names as [| name names IH]; intros parts; simpl.
  - now rewrite app_nil_r.
  - rewrite channelEntry_eq, !bind_Ok, IH, <- app_assoc. reflexivity.
Qed.

Lemma buildChannelList_eq channels pixelType :
  buildChannelList channels pixelType = Ok (chlist_bytes channels pixelType).
Proof.
  unfold buildChannelList, chlist_bytes.
  rewrite channel_parts_eq, bind_Ok, concat_parts_eq. f_equal.
  rewrite bind_app. simpl app. rewrite list_fmap_bind. reflexivity.
Qed.

Lemma float32_buffer_eq values : float32_buffer values = Ok (float32_bytes values).
Proof.
  unfold float32_buffer, float32_bytes, ArrayBuffer_new.
  rewrite TypedArray_make_Ok by lia. rewrite bind_Ok.
  assert (Hlen : length (value ← values; le_bytes 4 (Float32.store value))
                 = Z.to_nat (4 * Z.of_nat (length values))).
  { rewrite (length_bind_const _ 4) by (intros; apply length_le_bytes). lia. }
  rewrite <- Hlen.
  rewrite (appends_fresh _ (value ← values; le_bytes 4 (Float32.store value)));
    [reflexivity |].
  apply (appends_for_of _ (fun value => le_bytes 4 (Float32.store value))). intros value.
  eapply appends_ext; [| apply appends_set].
  intros [buffer offset]. unfold DataView.setFloat32.
  rewrite length_le_bytes. reflexivity.
Qed.

Lemma buildHeader_eq width height channels pixelType :
  buildHeader width height channels pixelType
  = Ok (header_bytes width height channels pixelType).
Proof.
  unfold buildHeader, header_bytes.
  rewrite buildChannelList_eq, !buildBox2i_eq, !float32_buffer_eq.
  repeat (rewrite writeAttribute_eq || rewrite bind_Ok).
  rewrite concat_parts_eq. f_equal.
Qed.

(** *** The scanline loops of [writeEXR] *)

Lemma length_sample_bytes pixelType value :
  length (sample_bytes pixelType value) = Z.to_nat (pixel_size pixelType).
Proof. destruct pixelType; unfold sample_bytes; rewrite length_le_bytes; reflexivity. Qed.

Lemma appends_writeEXR_sample pixels width pixelType y channelIndex x :
  appends (writeEXR_sample pixels width pixelType y channelIndex x)
    (sample_bytes pixelType (pixel_value pixels ((y * width + x) * 4 + channelIndex))).
Proof.
  destruct pixelType; (eapply appends_ext; [| apply appends_set]);
    intros [view offset]; unfold writeEXR_sample, sample_bytes,
      DataView.setUint16, DataView.setFloat32; rewrite length_le_bytes; reflexivity.
Qed.

Lemma channel_row_eq pixels width pixelType y channel :
  channel_row pixels width pixelType y channel
  = (x ← range 0 (Z.to_nat width);
     sample_bytes pixelType (pixel_value pixels ((y * width + x) * 4 + getChannelIndex channel))).
Proof. unfold channel_row, component_row. now rewrite list_fmap_bind. Qed.

Lemma appends_writeEXR_scanline pixels width channels pixelType y :
  appends
    (writeEXR_scanline pixels width channels pixelType
       (scanline_data_size width channels pixelType) y)
    (scanline_record pixels width channels pixelType y).
Proof.
  unfold scanline_record.
  set (sds := scanline_data_size width channels pixelType).
  eapply appends_ext;
    [| apply (appends_bind
               (fun '(view, offset) =>
                  view ← TypedArray.set view (le_bytes 4 (JS.ToInt32 y)) offset;
                  Ok (view, offset + Z.of_nat (length (le_bytes 4 (JS.ToInt32 y)))))
               (fun st =>
                  (let '(view, offset) := st in
                   view ← TypedArray.set view (le_bytes 4 (JS.ToUint32 sds)) offset;
                   Ok (view, offset + Z.of_nat (length (le_bytes 4 (JS.ToUint32 sds)))))
                  ≫= for_of (Array_sort channels)
                       (fun channel st =>
                          for_lt 0 width
                            (writeEXR_sample pixels width pixelType y (getChannelIndex channel))
                            st)));
       [apply appends_set |
        apply (appends_bind _ _ _ _ (appends_set _));
        apply (appends_for_of _ (channel_row pixels width pixelType y)); intros channel;
        rewrite channel_row_eq; apply appends_for_lt; intros x;
        apply appends_writeEXR_sample ] ].
  intros [view offset]. unfold writeEXR_scanline, DataView.setInt32, DataView.setUint32.
  rewrite !length_le_bytes. change (Z.of_nat 4) with 4.
  destruct (TypedArray.set view (le_bytes 4 (JS.ToInt32 y)) offset) as [view1 |]; [| reflexivity].
  rewrite !bind_Ok.
  destruct (TypedArray.set view1 (le_bytes 4 (JS.ToUint32 sds)) (offset + 4)) as [view2 |];
    reflexivity.
Qed.

Lemma TypedArray_set_at {A : Type} (buf pre post source : list A) (offset : Z) :
  buf = pre ++ post ->
  offset = Z.of_nat (length pre) ->
  (length source <= length post)%nat ->
  TypedArray.set buf source offset = Ok (pre ++ source ++ drop (length source) post).
Proof. intros -> -> H. now apply TypedArray_set_cursor. Qed.

(** The offset table loop: with [scanlineOffset = base + y * step] on entry
    to iteration [y], the loop appends the entries of rows [start .. start+n-1]. *)
Lemma offset_table_loop (sds base : Z) (n : nat) :
  forall (start : Z) (pre post : list Z),
    (8 * n <= length post)%nat ->
    for_iter n start (writeEXR_offset_entry 8 sds)
      (pre ++ post, Z.of_nat (length pre), base + start * (8 + sds))
    = Ok (pre ++ (y ← range start n; offset_entry (base + y * (8 + sds)))
              ++ drop (8 * n) post,
          Z.of_nat (length pre) + 8 * Z.of_nat n,
          base + (start + Z.of_nat n) * (8 + sds)).
Proof.
  induction n as [| n IH]; intros start pre post Hlen.
  - simpl. rewrite drop_0, Z.add_0_r, Z.add_0_r. reflexivity.
  - change (range start (S n)) with (start :: range (start + 1) n). rewrite bind_cons.
    simpl for_iter. unfold writeEXR_offset_entry at 1. unfold DataView.setUint32.
    set (so := base + start * (8 + sds)).
    rewrite (TypedArray_set_cursor pre post) by (rewrite length_le_bytes; lia).
    rewrite bind_Ok, length_le_bytes.
    rewrite (TypedArray_set_at _ (pre ++ le_bytes 4 (JS.ToUint32 so)) (drop 4 post));
      [ | now rewrite <- app_assoc
        | rewrite length_app, length_le_bytes; lia
        | rewrite length_le_bytes, length_drop; lia ].
    rewrite !bind_Ok, length_le_bytes, drop_drop.
    replace (so + (8 + sds)) with (base + (start + 1) * (8 + sds)) by (unfold so; lia).
    replace (Z.of_nat (length pre) + 8)
      with (Z.of_nat (length ((pre ++ le_bytes 4 (JS.ToUint32 so)) ++ le_bytes 4 (JS.ToUint32 0))))
      by (rewrite !length_app, !length_le_bytes; lia).
    rewrite (app_assoc (pre ++ le_bytes 4 (JS.ToUint32 so))).
    rewrite IH by (rewrite length_drop; lia).
    rewrite drop_drop. unfold offset_entry at 2. fold so.
    rewrite !length_app, !length_le_bytes, <- !app_assoc.
    replace (4 + 4 + 8 * n)%nat with (8 * S n)%nat by lia.
    replace (Z.of_nat (length pre + 4 + 4) + 8 * Z.of_nat n)
      with (Z.of_nat (length pre) + 8 * Z.of_nat (S n)) by lia.
    replace (start + 1 + Z.of_nat n) with (start + Z.of_nat (S n)) by lia.
    reflexivity.
Qed.

(** *** Sizes *)

Lemma length_sort_insert x l : length (sort_insert x l) = S (length l).
Proof.
  induction l as [| y l IH]; simpl; [reflexivity |].
  destruct (String.leb x y); simpl; [reflexivity | now rewrite IH].
Qed.

Lemma length_Array_sort l : length (Array_sort l) = length l.
Proof.
  induction l as [| x l IH]; simpl; [reflexivity |].
  now rewrite length_sort_insert, IH.
Qed.

Lemma length_channel_row pixels width pixelType y channel :
  length (channel_row pixels width pixelType y channel)
  = (Z.to_nat (pixel_size pixelType) * Z.to_nat width)%nat.
Proof.
  rewrite channel_row_eq.
  rewrite (length_bind_const _ (Z.to_nat (pixel_size pixelType)))
    by (intros; apply length_sample_bytes).
  now rewrite length_range.
Qed.

Lemma length_scanline_payload pixels width channels pixelType y :
  0 <= width ->
  Z.of_nat (length (scanline_payload pixels width channels pixelType y))
  = scanline_data_size width channels pixelType.
Proof.
  intros Hw. unfold scanline_payload, scanline_data_size.
  rewrite (length_bind_const _ (Z.to_nat (pixel_size pixelType) * Z.to_nat width))
    by (intros; apply length_channel_row).
  rewrite length_Array_sort.
  assert (0 <= pixel_size pixelType) by (destruct pixelType; simpl; lia).
  rewrite !Nat2Z.inj_mul, !Z2Nat.id by lia. ring.
Qed.

Lemma length_scanline_record pixels width channels pixelType y :
  0 <= width ->
  Z.of_nat (length (scanline_record pixels width channels pixelType y))
  = 8 + scanline_data_size width channels pixelType.
Proof.
  intros Hw. unfold scanline_record.
  rewrite !length_app, !length_le_bytes, !Nat2Z.inj_add, length_scanline_payload by lia.
  lia.
Qed.

Lemma scanline_data_size_nonneg width channels pixelType :
  0 <= width -> 0 <= scanline_data_size width channels pixelType.
Proof.
  intros Hw. unfold scanline_data_size.
  assert (0 <= pixel_size pixelType) by (destruct pixelType; simpl; lia).
  apply Z.mul_nonneg_nonneg; [apply Z.mul_nonneg_nonneg |]; lia.
Qed.

Lemma length_offset_entry position : length (offset_entry position) = 8%nat.
Proof. unfold offset_entry. now rewrite length_app, !length_le_bytes. Qed.

Lemma length_offset_table headerSize width height channels pixelType :
  length (offset_table headerSize width height channels pixelType)
  = (8 * Z.to_nat height)%nat.
Proof.
  unfold offset_table. rewrite (length_bind_const _ 8) by (intros; apply length_offset_entry).
  now rewrite length_range.
Qed.

Lemma length_bind_Z {E : Type} (f : E -> list Z) (c : Z) (l : list E) :
  (forall e, Z.of_nat (length (f e)) = c) ->
  Z.of_nat (length (l ≫= f)) = c * Z.of_nat (length l).
Proof.
  intros Hf. induction l as [| e l IH]; [simpl; lia |].
  rewrite bind_cons, length_app, Nat2Z.inj_add, Hf, IH. simpl length. lia.
Qed.

Lemma length_scanlines pixels width height channels pixelType :
  0 <= width -> 0 <= height ->
  Z.of_nat (length (y ← range 0 (Z.to_nat height);
                    scanline_record pixels width channels pixelType y))
  = (8 + scanline_data_size width channels pixelType) * height.
Proof.
  intros Hw Hh.
  rewrite (length_bind_Z _ (8 + scanline_data_size width channels pixelType))
    by (intros; now apply length_scanline_record).
  rewrite length_range, Z2Nat.id by lia. reflexivity.
Qed.

Lemma length_exr_file pixels width height channels pixelType header :
  0 <= width -> 0 <= height ->
  Z.of_nat (length (exr_file pixels width height channels pixelType header))
  = writeEXR_totalSize (Z.of_nat (length header)) width height
      (Z.of_nat (length channels)) (pixel_size pixelType).
Proof.
  intros Hw Hh. unfold exr_file, writeEXR_totalSize.
  rewrite !length_app, !length_le_bytes, length_offset_table, !Nat2Z.inj_add.
  rewrite length_scanlines by lia. unfold scanline_data_size. lia.
Qed.

(** *** [writeEXR] produces the layout *)

Lemma writeEXR_fill_eq pixels width height channels pixelType header :
  0 <= width -> 0 <= height ->
  writeEXR_fill pixels width height channels pixelType header
    (replicate (Z.to_nat (writeEXR_totalSize (Z.of_nat (length header)) width height
                            (Z.of_nat (length channels)) (pixel_size pixelType))) 0)
  = Ok (exr_file pixels width height channels pixelType header).
Proof.
  intros Hw Hh.
  pose proof (length_exr_file pixels width height channels pixelType header Hw Hh) as Htotal.
  pose proof (length_scanlines pixels width height channels pixelType Hw Hh) as Hrecords.
  pose proof (scanline_data_size_nonneg width channels pixelType Hw) as Hsds.
  rewrite <- Htotal, Nat2Z.id.
  unfold exr_file in *. unfold writeEXR_fill, DataView.setUint32.
  fold (pixel_size pixelType). fold (scanline_data_size width channels pixelType).
  set (sds := scanline_data_size width channels pixelType) in *.
  set (magic := le_bytes 4 (JS.ToUint32 EXR_MAGIC)) in *.
  set (version := le_bytes 4 (JS.ToUint32 (JS.or EXR_VERSION (JS.shl EXR_VERSION_FLAGS 8)))) in *.
  set (table := offset_table (Z.of_nat (length header)) width height channels pixelType) in *.
  set (records := y ← range 0 (Z.to_nat height);
                  scanline_record pixels width channels pixelType y) in *.
  assert (Hmagic : length magic = 4%nat) by apply length_le_bytes.
  assert (Hversion : length version = 4%nat) by apply length_le_bytes.
  assert (Htable : length table = (8 * Z.to_nat height)%nat) by apply length_offset_table.
  rewrite !length_app, Hmagic, Hversion, Htable.
  fresh_buffer.
  rewrite TypedArray_set_fill; [rewrite bind_Ok | reflexivity | lia].
  rewrite TypedArray_set_fill;
    [rewrite bind_Ok | rewrite length_app, Hmagic; reflexivity | lia].
  rewrite TypedArray_set_fill;
    [rewrite bind_Ok | rewrite !length_app, Hmagic, Hversion; reflexivity | lia].
  rewrite Hmagic, Hversion.
  set (pre := (([] ++ magic) ++ version) ++ header).
  assert (Hpre : Z.of_nat (length pre) = 0 + 4 + 4 + Z.of_nat (length header)).
  { unfold pre. rewrite !length_app, Hmagic, Hversion. simpl. lia. }
  rewrite <- Hpre. unfold for_lt. rewrite !Z.sub_0_r.
  replace (Z.of_nat (length pre) + height * 8)
    with (Z.of_nat (length pre) + height * 8 + 0 * (8 + sds)) by lia.
  rewrite offset_table_loop by (rewrite length_replicate; lia).
  rewrite bind_Ok.
  assert (Htable_eq :
    (y ← range 0 (Z.to_nat height);
     offset_entry (Z.of_nat (length pre) + height * 8 + y * (8 + sds))) = table).
  { unfold table, offset_table. apply list_bind_ext; [| reflexivity].
    intros y. unfold scanline_position. fold sds. f_equal. lia. }
  rewrite Htable_eq, drop_replicate.
  replace (Z.of_nat (length pre) + 8 * Z.of_nat (Z.to_nat height))
    with (Z.of_nat (length (pre ++ table))) by (rewrite length_app, Htable; lia).
  rewrite (app_assoc pre table).
  rewrite (appends_for_iter _ (scanline_record pixels width channels pixelType)
             (fun y => appends_writeEXR_scanline pixels width channels pixelType y)
             (Z.to_nat height) 0 (pre ++ table))
    by (rewrite length_replicate; fold records; lia).
  rewrite bind_Ok. fold records. f_equal.
  rewrite drop_replicate.
  match goal with |- context [replicate ?k 0] => replace k with 0%nat by lia end.
  simpl replicate. unfold pre. rewrite app_nil_r, <- !app_assoc. reflexivity.
Qed.

(** For non-negative sizes [writeEXR] returns the EXR layout of its input. *)
Lemma writeEXR_eq pixels width height options :
  0 <= width -> 0 <= height ->
  let pixelType := default half (options_pixelType options) in
  let channels := default ["R"; "G"; "B"; "A"] (options_channels options) in
  writeEXR pixels width height options
  = Ok (exr_file pixels width height channels pixelType
          (header_bytes width height channels pixelType)).
Proof.
  intros Hw Hh pixelType channels. unfold writeEXR.
  fold pixelType. fold channels. rewrite buildHeader_eq, bind_Ok.
  fold (pixel_size pixelType).
  set (header := header_bytes width height channels pixelType).
  unfold ArrayBuffer_new. rewrite TypedArray_make_Ok.
  - rewrite bind_Ok. now apply writeEXR_fill_eq.
  - rewrite <- (length_exr_file pixels) by lia. lia.
Qed.

(** *** Reading the layout back *)

Lemma slice_app_r (pre rest : list Z) (from len : Z) :
  0 <= from ->
  slice (pre ++ rest) (Z.of_nat (length pre) + from) len = slice rest from len.
Proof.
  intros H. unfold slice. f_equal.
  replace (Z.to_nat (Z.of_nat (length pre) + from)) with (length pre + Z.to_nat from)%nat by lia.
  apply drop_app_add.
Qed.

Lemma slice_app_l (l rest : list Z) (from len : Z) :
  0 <= from -> 0 <= len -> from + len <= Z.of_nat (length l) ->
  slice (l ++ rest) from len = slice l from len.
Proof.
  intros Hf Hl Hb. unfold slice. rewrite drop_app, take_app.
  rewrite length_drop.
  replace (Z.to_nat len - (length l - Z.to_nat from))%nat with 0%nat by lia.
  now rewrite take_0, app_nil_r.
Qed.

Lemma slice_bind_const {E : Type} (f : E -> list Z) (c : Z) (l : list E) (i : nat) (e : E) :
  (forall e, Z.of_nat (length (f e)) = c) ->
  l !! i = Some e ->
  slice (l ≫= f) (Z.of_nat i * c) c = f e.
Proof.
  intros Hf. revert i. induction l as [| x l IH]; intros i Hi; [discriminate |].
  assert (Hc : 0 <= c) by (rewrite <- (Hf x); lia).
  rewrite bind_cons. destruct i as [| i].
  - injection Hi as ->. rewrite slice_app_l by (rewrite ?Hf; lia).
    unfold slice. change (Z.of_nat 0 * c) with 0. change (Z.to_nat 0) with 0%nat.
    rewrite drop_0. apply take_ge. specialize (Hf e). lia.
  - replace (Z.of_nat (S i) * c) with (Z.of_nat (length (f x)) + Z.of_nat i * c)
      by (rewrite Hf; lia).
    rewrite slice_app_r by lia. now apply IH.
Qed.

Lemma le_bytes_S n v :
  le_bytes (S n) v = Z.land v 0xff :: le_bytes n (Z.shiftr v 8).
Proof.
  unfold le_bytes. rewrite <- cons_seq, fmap_cons. f_equal.
  rewrite <- fmap_S_seq, <- list_fmap_compose. apply list_fmap_ext.
  intros _ k _. simpl. rewrite Z.shiftr_shiftr by lia. do 2 f_equal. lia.
Qed.

Lemma le_value_le_bytes n v :
  0 <= v < 2 ^ (8 * Z.of_nat n) -> le_value (le_bytes n v) = v.
Proof.
  revert v. induction n as [| n IH]; intros v Hv.
  - simpl in *. lia.
  - rewrite le_bytes_S. simpl le_value.
    change 0xff with (Z.ones 8). rewrite Z.land_ones, Z.shiftr_div_pow2 by lia.
    rewrite IH.
    + change (2 ^ 8) with 256. pose proof (Z.div_mod v 256). lia.
    + replace (8 * Z.of_nat (S n)) with (8 + 8 * Z.of_nat n) in Hv by lia.
      rewrite Z.pow_add_r in Hv by lia. change (2 ^ 8) with 256 in *.
      split; [apply Z.div_pos; lia | apply Z.div_lt_upper_bound; lia].
Qed.

(** In general the bytes hold the value modulo 2^(8n). *)
Lemma le_value_le_bytes_mod n v :
  le_value (le_bytes n v) = v mod 2 ^ (8 * Z.of_nat n).
Proof.
  revert v. induction n as [| n IH]; intros v.
  - simpl. now rewrite Z.mod_1_r.
  - rewrite le_bytes_S. simpl le_value.
    change 0xff with (Z.ones 8). rewrite Z.land_ones, Z.shiftr_div_pow2 by lia.
    rewrite IH. change (2 ^ 8) with 256.
    replace (8 * Z.of_nat (S n)) with (8 + 8 * Z.of_nat n) by lia.
    rewrite Z.pow_add_r by lia. change (2 ^ 8) with 256.
    rewrite Z.rem_mul_r; [reflexivity | lia |].
    apply Z.pow_pos_nonneg; lia.
Qed.

Lemma le_value_app a b :
  le_value (a ++ b) = le_value a + 256 ^ Z.of_nat (length a) * le_value b.
Proof.
  induction a as [| x a IH]; [simpl; lia |].
  simpl app. simpl le_value. rewrite IH.
  simpl length. rewrite Nat2Z.inj_succ, Z.pow_succ_r by lia. lia.
Qed.

Lemma le_bytes_byte n v b : b ∈ le_bytes n v -> 0 <= b < 256.
Proof.
  unfold le_bytes. rewrite list_elem_of_fmap. intros (k & -> & _).
  change 0xff with (Z.ones 8). rewrite Z.land_ones by lia.
  change (2 ^ 8) with 256. apply Z.mod_pos_bound. lia.
Qed.

Lemma le_value_offset_entry position :
  le_value (offset_entry position) = position mod 2 ^ 32.
Proof.
  unfold offset_entry. rewrite le_value_app, !le_value_le_bytes_mod.
  unfold JS.ToUint32. change (2 ^ (8 * Z.of_nat 4)) with (2 ^ 32).
  rewrite Z.mod_mod by lia. rewrite (Z.mod_0_l (2 ^ 32)) by lia.
  rewrite Z.mod_0_l by lia. lia.
Qed.

Lemma exr_file_offset_entry pixels width height channels pixelType header i :
  0 <= width -> 0 <= i < height ->
  slice (exr_file pixels width height channels pixelType header)
    (8 + Z.of_nat (length header) + 8 * i) 8
  = offset_entry (scanline_position (Z.of_nat (length header)) width height channels pixelType i).
Proof.
  intros Hw Hi. unfold exr_file.
  set (magic := le_bytes 4 _). set (version := le_bytes 4 _).
  set (table := offset_table _ _ _ _ _). set (records := _ ≫= _).
  assert (Hmagic : length magic = 4%nat) by apply length_le_bytes.
  assert (Hversion : length version = 4%nat) by apply length_le_bytes.
  assert (Htable : length table = (8 * Z.to_nat height)%nat) by apply length_offset_table.
  replace (8 + Z.of_nat (length header) + 8 * i)
    with (Z.of_nat (length magic)
          + (Z.of_nat (length version) + (Z.of_nat (length header) + 8 * i))) by lia.
  rewrite !slice_app_r by lia.
  rewrite slice_app_l by lia.
  unfold table, offset_table.
  replace (8 * i) with (Z.of_nat (Z.to_nat i) * 8) by lia.
  rewrite (slice_bind_const _ 8 _ _ i).
  - reflexivity.
  - intros e. now rewrite length_offset_entry.
  - rewrite lookup_range by lia. f_equal. lia.
Qed.

Lemma exr_file_scanline_record pixels width height channels pixelType header i :
  0 <= width -> 0 <= i < height ->
  slice (exr_file pixels width height channels pixelType header)
    (scanline_position (Z.of_nat (length header)) width height channels pixelType i)
    (8 + scanline_data_size width channels pixelType)
  = scanline_record pixels width channels pixelType i.
Proof.
  intros Hw Hi. unfold exr_file, scanline_position.
  pose proof (scanline_data_size_nonneg width channels pixelType Hw) as Hsds.
  set (sds := scanline_data_size width channels pixelType) in *.
  set (magic := le_bytes 4 _). set (version := le_bytes 4 _).
  set (table := offset_table _ _ _ _ _).
  assert (Hmagic : length magic = 4%nat) by apply length_le_bytes.
  assert (Hversion : length version = 4%nat) by apply length_le_bytes.
  assert (Htable : length table = (8 * Z.to_nat height)%nat) by apply length_offset_table.
  replace (8 + Z.of_nat (length header) + 8 * height + i * (8 + sds))
    with (Z.of_nat (length magic)
          + (Z.of_nat (length version)
             + (Z.of_nat (length header)
                + (Z.of_nat (length table) + Z.of_nat (Z.to_nat i) * (8 + sds))))) by lia.
  rewrite !slice_app_r by lia.
  rewrite (slice_bind_const _ (8 + sds) _ _ i).
  - reflexivity.
  - intros e. now apply length_scanline_record.
  - rewrite lookup_range by lia. f_equal. lia.
Qed.

(** *** The order of the channels *)

Lemma sort_insert_Sorted x l :
  Sorted string_le l -> Sorted string_le (sort_insert x l).
Proof.
  induction 1 as [| y l Hs IH Hhd]; simpl.
  - repeat constructor.
  - destruct (String.leb x y) eqn:E.
    + constructor; [constructor; assumption | constructor; exact E].
    + constructor; [exact IH |].
      assert (Hyx : string_le y x).
      { destruct (String.leb_total x y) as [H | H]; [congruence | exact H]. }
      destruct Hhd as [| z l Hyz]; simpl.
      * constructor. exact Hyx.
      * destruct (String.leb x z); constructor; assumption.
Qed.

Lemma Array_sort_Sorted l : Sorted string_le (Array_sort l).
Proof.
  induction l as [| x l IH]; simpl; [constructor | now apply sort_insert_Sorted].
Qed.

Lemma sort_insert_Permutation x l : sort_insert x l ≡ₚ x :: l.
Proof.
  induction l as [| y l IH]; simpl; [reflexivity |].
  destruct (String.leb x y); [reflexivity |].
  rewrite IH. apply Permutation_swap.
Qed.

Lemma Array_sort_Permutation l : Array_sort l ≡ₚ l.
Proof.
  induction l as [| x l IH]; simpl; [reflexivity |].
  now rewrite sort_insert_Permutation, IH.
Qed.

(** *** The only exception of the writer is a [RangeError] *)

Lemma only_RangeError_Ok {A : Type} (a : A) : throws_only_RangeError (Ok a).
Proof. intros e H. discriminate. Qed.

Lemma only_RangeError_bind {A B : Type} (m : result A) (f : A -> result B) :
  throws_only_RangeError m ->
  (forall a, throws_only_RangeError (f a)) ->
  throws_only_RangeError (m ≫= f).
Proof.
  intros Hm Hf e. destruct m as [a | e']; simpl.
  - apply Hf.
  - intros [= <-]. now apply Hm.
Qed.

Lemma only_RangeError_set {A : Type} (target source : list A) offset :
  throws_only_RangeError (TypedArray.set target source offset).
Proof.
  intros e. unfold TypedArray.set.
  destruct (_ || _); [intros [= <-]; reflexivity | discriminate].
Qed.

Lemma only_RangeError_make {A : Type} (zero : A) n :
  throws_only_RangeError (TypedArray.make zero n).
Proof.
  intros e. unfold TypedArray.make.
  destruct (n <? 0); [intros [= <-]; reflexivity | discriminate].
Qed.

Lemma only_RangeError_for_iter {S : Type} (body : Z -> S -> result S) n :
  (forall y s, throws_only_RangeError (body y s)) ->
  forall start s, throws_only_RangeError (for_iter n start body s).
Proof.
  intros Hbody. induction n as [| n IH]; intros start s; simpl.
  - apply only_RangeError_Ok.
  - apply only_RangeError_bind; [apply Hbody | intros s'; apply IH].
Qed.

Lemma only_RangeError_for_of {E S : Type} (body : E -> S -> result S) l :
  (forall e s, throws_only_RangeError (body e s)) ->
  forall s, throws_only_RangeError (for_of l body s).
Proof.
  intros Hbody. induction l as [| x l IH]; intros s; simpl.
  - apply only_RangeError_Ok.
  - apply only_RangeError_bind; [apply Hbody | intros s'; apply IH].
Qed.

Ltac only_RangeError :=
  repeat first
    [ apply only_RangeError_Ok
    | apply only_RangeError_set
    | apply only_RangeError_make
    | apply only_RangeError_bind; [| intros ?] ].

Lemma only_RangeError_writeEXR_sample pixels width pixelType y channelIndex x st :
  throws_only_RangeError (writeEXR_sample pixels width pixelType y channelIndex x st).
Proof.
  destruct st as [view offset].
  destruct pixelType; unfold writeEXR_sample, DataView.setUint16, DataView.setFloat32;
    only_RangeError.
Qed.

Lemma only_RangeError_writeEXR_scanline pixels width channels pixelType sds y st :
  throws_only_RangeError (writeEXR_scanline pixels width channels pixelType sds y st).
Proof.
  destruct st as [view offset].
  unfold writeEXR_scanline, DataView.setInt32, DataView.setUint32.
  only_RangeError.
  apply only_RangeError_for_of. intros channel st. unfold for_lt.
  apply only_RangeError_for_iter. intros x st'. apply only_RangeError_writeEXR_sample.
Qed.

Lemma only_RangeError_writeEXR_offset_entry shs sds y st :
  throws_only_RangeError (writeEXR_offset_entry shs sds y st).
Proof.
  destruct st as [[view offset] scanlineOffset].
  unfold writeEXR_offset_entry, DataView.setUint32. only_RangeError.
Qed.

Lemma only_RangeError_writeEXR pixels width height options :
  throws_only_RangeError (writeEXR pixels width height options).
Proof.
  unfold writeEXR. rewrite buildHeader_eq, bind_Ok.
  apply only_RangeError_bind; [apply only_RangeError_make | intros buffer].
  unfold writeEXR_fill, DataView.setUint32.
  do 3 (apply only_RangeError_bind; [apply only_RangeError_set | intros ?]).
  apply only_RangeError_bind.
  - unfold for_lt. apply only_RangeError_for_iter. intros y st.
    apply only_RangeError_writeEXR_offset_entry.
  - intros [[view offset] scanlineOffset].
    apply only_RangeError_bind.
    + unfold for_lt. apply only_RangeError_for_iter. intros y st.
      apply only_RangeError_writeEXR_scanline.
    + intros [view' offset']. apply only_RangeError_Ok.
Qed.

(** ** [flipPixelsVertically] *)

Section FlipProofs.
Context {A : Type} (zero : A).

Lemma flip_rows_S (b : list A) rowSize k :
  flip_rows b rowSize (S k) = row b rowSize k ++ flip_rows b rowSize k.
Proof.
  unfold flip_rows. rewrite seq_S, reverse_app, bind_app. f_equal.
  change (reverse [(0 + k)%nat]) with [k]. rewrite bind_cons. apply app_nil_r.
Qed.

Lemma length_row (b : list A) rowSize i :
  (S i * rowSize <= length b)%nat -> length (row b rowSize i) = rowSize.
Proof. intros H. unfold row. rewrite length_take, length_drop. lia. Qed.

Lemma length_flip_rows (b : list A) rowSize k :
  (k * rowSize <= length b)%nat -> length (flip_rows b rowSize k) = (k * rowSize)%nat.
Proof.
  induction k as [| k IH]; intros H; [reflexivity |].
  rewrite flip_rows_S, length_app, length_row, IH by lia. lia.
Qed.

Lemma lookup_row (b : list A) rowSize i j :
  (j < rowSize)%nat -> row b rowSize i !! j = b !! (i * rowSize + j)%nat.
Proof. intros H. unfold row. rewrite lookup_take_lt by lia. apply lookup_drop. Qed.

(** Row [i] of the input is row [height - 1 - i] of the output. *)
Lemma lookup_flip_rows (b : list A) rowSize height i j :
  (height * rowSize <= length b)%nat -> (i < height)%nat -> (j < rowSize)%nat ->
  flip_rows b rowSize height !! ((height - 1 - i) * rowSize + j)%nat
  = b !! (i * rowSize + j)%nat.
Proof.
  induction height as [| k IH]; intros Hlen Hi Hj; [lia |].
  rewrite flip_rows_S. destruct (decide (i = k)) as [-> | Hne].
  - replace ((S k - 1 - k) * rowSize + j)%nat with j by lia.
    rewrite lookup_app_l by (rewrite length_row; lia). now apply lookup_row.
  - rewrite lookup_app_r by (rewrite length_row; nia).
    rewrite length_row by lia.
    replace ((S k - 1 - i) * rowSize + j - rowSize)%nat
      with ((k - 1 - i) * rowSize + j)%nat by nia.
    apply IH; lia.
Qed.

Lemma flip_rows_involutive (b : list A) rowSize height :
  length b = (height * rowSize)%nat ->
  flip_rows (flip_rows b rowSize height) rowSize height = b.
Proof.
  intros Hlen.
  assert (Hlen1 : length (flip_rows b rowSize height) = (height * rowSize)%nat)
    by (apply length_flip_rows; lia).
  assert (Hlen2 : length (flip_rows (flip_rows b rowSize height) rowSize height)
                  = (height * rowSize)%nat) by (apply length_flip_rows; lia).
  apply list_eq. intros p.
  destruct (decide (p < height * rowSize)%nat) as [Hp | Hp].
  - assert (Hrs : (0 < rowSize)%nat) by nia.
    pose proof (Nat.div_mod_eq p rowSize) as Hdm.
    pose proof (Nat.mod_upper_bound p rowSize ltac:(lia)) as Hmod.
    set (q := (p / rowSize)%nat) in *. set (j := (p mod rowSize)%nat) in *.
    assert (Hq : (q < height)%nat) by nia.
    replace p with ((height - 1 - (height - 1 - q)) * rowSize + j)%nat by nia.
    rewrite lookup_flip_rows by lia.
    rewrite lookup_flip_rows by lia.
    f_equal. nia.
  - rewrite !lookup_ge_None_2 by lia. reflexivity.
Qed.

Lemma subarray_row (b : list A) rowSize height (y : nat) :
  (y < height)%nat -> length b = (height * rowSize)%nat ->
  TypedArray.subarray b (Z.of_nat y * Z.of_nat rowSize)
    (Z.of_nat y * Z.of_nat rowSize + Z.of_nat rowSize)
  = row b rowSize y.
Proof.
  intros Hy Hlen. unfold TypedArray.subarray, row.
  destruct (Z.ltb_spec (Z.of_nat y * Z.of_nat rowSize) 0); [lia |].
  destruct (Z.ltb_spec (Z.of_nat y * Z.of_nat rowSize + Z.of_nat rowSize) 0); [lia |].
  assert ((S y * rowSize <= height * rowSize)%nat) by (apply Nat.mul_le_mono_r; lia).
  rewrite !Z.min_l by nia.
  f_equal; [lia | f_equal; lia].
Qed.

Lemma flip_row_eq (store : gmap nat (list A)) data flipped rowSize height y source target :
  store !! data = Some source -> store !! flipped = Some target ->
  flip_row data flipped rowSize height y store
  = (target ← TypedArray.set target
                (TypedArray.subarray source (y * rowSize) (y * rowSize + rowSize))
                ((height - 1 - y) * rowSize);
     Ok (<[flipped := target]> store)).
Proof. intros Hs Ht. unfold flip_row. now rewrite Hs, Ht. Qed.

(** The store after [y] iterations: the last [y] rows of the new array hold
    the first [y] rows of the input in reverse order. *)
Lemma flip_loop (store : gmap nat (list A)) (data flipped : nat) (b : list A)
    (rowSize height : nat) (m : nat) :
  store !! data = Some b -> data <> flipped ->
  length b = (height * rowSize)%nat ->
  forall y : nat, (y + m = height)%nat ->
    for_iter m (Z.of_nat y)
      (flip_row data flipped (Z.of_nat rowSize) (Z.of_nat height))
      (<[flipped := replicate ((height - y) * rowSize) zero ++ flip_rows b rowSize y]> store)
    = Ok (<[flipped := flip_rows b rowSize height]> store).
Proof.
  intros Hdata Hne Hlen. induction m as [| m IH]; intros y Hy.
  - simpl. replace y with height by lia. rewrite Nat.sub_diag. reflexivity.
  - simpl for_iter.
    rewrite (flip_row_eq _ _ _ _ _ _ b
               (replicate ((height - y) * rowSize) zero ++ flip_rows b rowSize y))
      by (rewrite ?lookup_insert_eq, ?lookup_insert_ne by congruence; done).
    rewrite (subarray_row b rowSize height y) by lia.
    replace ((height - y) * rowSize)%nat
      with ((height - S y) * rowSize + rowSize)%nat by nia.
    rewrite replicate_add, <- app_assoc.
    replace ((Z.of_nat height - 1 - Z.of_nat y) * Z.of_nat rowSize)
      with (Z.of_nat (length (replicate ((height - S y) * rowSize) zero)))
      by (rewrite length_replicate; nia).
    rewrite TypedArray_set_middle
      by (rewrite length_replicate, length_row; [reflexivity | nia]).
    rewrite bind_Ok, insert_insert_eq, <- flip_rows_S.
    replace (Z.of_nat y + 1) with (Z.of_nat (S y)) by lia.
    apply IH. lia.
Qed.

Lemma flipPixelsVertically_eq (store : gmap nat (list A)) (data : nat) (b : list A)
    (width height channels : Z) :
  store !! data = Some b ->
  0 <= height ->
  Z.of_nat (length b) = width * height * channels ->
  flipPixelsVertically zero store data width height channels
  = Ok (<[fresh (dom store) := flip_rows b (Z.to_nat (width * channels)) (Z.to_nat height)]>
          store,
        fresh (dom store)).
Proof.
  intros Hdata Hh Hlen. unfold flipPixelsVertically. rewrite Hdata.
  rewrite TypedArray_make_Ok by lia. rewrite bind_Ok, Nat2Z.id.
  set (flipped := fresh (dom store)).
  assert (Hfresh : store !! flipped = None).
  { apply not_elem_of_dom. apply is_fresh. }
  assert (Hne : data <> flipped) by (intros ->; congruence).
  unfold for_lt. rewrite Z.sub_0_r.
  destruct (Z.eq_dec height 0) as [-> | Hpos].
  - simpl. assert (length b = 0%nat) by lia.
    replace b with (@nil A) by (symmetry; now apply nil_length_inv). reflexivity.
  - assert (Hrs : 0 <= width * channels) by nia.
    set (rowSize := Z.to_nat (width * channels)).
    set (n := Z.to_nat height).
    assert (Hb : length b = (n * rowSize)%nat) by (unfold n, rowSize; nia).
    pose proof (flip_loop store data flipped b rowSize n n Hdata Hne Hb 0%nat ltac:(lia))
      as Hloop.
    rewrite Nat.sub_0_r in Hloop. change (flip_rows b rowSize 0) with (@nil A) in Hloop.
    rewrite app_nil_r, <- Hb in Hloop.
    replace (Z.of_nat rowSize) with (width * channels) in Hloop by (unfold rowSize; lia).
    replace (Z.of_nat n) with height in Hloop by (unfold n; lia).
    change (Z.of_nat 0) with 0 in Hloop. rewrite Hloop. reflexivity.
Qed.

End FlipProofs.

(** ** The render loop *)

Section RenderLoopProofs.
Context {World : Type} (env : @Env World) (exporter : Exporter).

Lemma preserves_ret {A B : Type} (proj : @Machine World -> B) (a : A) :
  preserves proj (mret a : M A).
Proof. intros m. reflexivity. Qed.

Lemma preserves_bind {A A' B : Type} (proj : @Machine World -> B) (c : M A) (f : A -> M A') :
  preserves proj c -> (forall a, preserves proj (f a)) -> preserves proj (c ≫= f).
Proof.
  intros Hc Hf m. unfold mbind, M_bind. specialize (Hc m).
  destruct (c m) as [m' [a | e |]]; simpl in *; [| exact Hc | exact Hc].
  rewrite (Hf a m'). exact Hc.
Qed.

Lemma preserves_pure_result {A B : Type} (proj : @Machine World -> B) (r : result A) :
  preserves proj (pure_result r).
Proof. intros m. reflexivity. Qed.

Lemma preserves_wait {A B : Type} (proj : @Machine World -> B) :
  preserves proj (wait_forever : M A).
Proof. intros m. reflexivity. Qed.

(** *** Nothing but [_beginExport], [_endExport] and [renderSequence] itself
    writes the private fields *)

Lemma private_deck_setProps partial : preserves (@private_fields World) (deck_setProps partial).
Proof. intros m. reflexivity. Qed.

Lemma private_deck_prop key : preserves (@private_fields World) (deck_prop key).
Proof. intros m. reflexivity. Qed.

Lemma private_call_onFrameStart frame : preserves (@private_fields World) (call_onFrameStart env frame).
Proof.
  intros m. unfold call_onFrameStart. destruct (onFrameStart env) as [hook |]; [| reflexivity].
  destruct (hook frame (world m)) as [w r]. reflexivity.
Qed.

Lemma private_call_onUpdateFrame frame : preserves (@private_fields World) (call_onUpdateFrame env frame).
Proof.
  intros m. unfold call_onUpdateFrame. destruct (onUpdateFrame env) as [hook |]; [| reflexivity].
  destruct (hook frame (deck_props (loop m)) (world m)) as [[w props] r]. reflexivity.
Qed.

Lemma private_call_onFrameComplete frame pixels :
  preserves (@private_fields World) (call_onFrameComplete env frame pixels).
Proof.
  intros m. unfold call_onFrameComplete.
  destruct (onFrameComplete env) as [hook |]; [| reflexivity].
  destruct (hook frame pixels (world m)) as [w r]. reflexivity.
Qed.

Lemma private_deck_redraw : preserves (@private_fields World) (deck_redraw env).
Proof.
  intros m. unfold deck_redraw.
  destruct (redraw env (deck_props (loop m)) (world m)) as [w drawn]. reflexivity.
Qed.

Lemma private_exporter_readPixelsAsync : preserves (@private_fields World) (exporter_readPixelsAsync env).
Proof.
  intros m. unfold exporter_readPixelsAsync.
  destruct (readPixels env (world m)) as [w r]. reflexivity.
Qed.

Lemma private_renderToHDR : preserves (@private_fields World) (_renderToHDR env exporter).
Proof.
  unfold _renderToHDR.
  apply preserves_bind; [apply private_deck_prop | intros original].
  apply preserves_bind; [apply private_deck_setProps | intros _].
  apply preserves_bind; [apply private_deck_redraw | intros [|]].
  - apply preserves_bind; [apply private_exporter_readPixelsAsync | intros pixels].
    apply preserves_bind; [apply private_deck_setProps | intros _]. apply preserves_ret.
  - apply preserves_wait.
Qed.

Lemma private_render_steps frame : preserves (@private_fields World) (render_steps env exporter frame).
Proof.
  unfold render_steps.
  apply preserves_bind; [apply private_call_onFrameStart | intros _].
  apply preserves_bind; [apply private_call_onUpdateFrame | intros _].
  apply preserves_bind; [apply private_renderToHDR | intros pixels].
  apply preserves_bind; [apply private_call_onFrameComplete | intros _].
  apply preserves_bind; [apply preserves_pure_result | intros flipped].
  apply preserves_bind; [apply preserves_pure_result | intros exr].
  apply preserves_ret.
Qed.

Lemma exporting_preserved {A : Type} (c : @M World A) v m :
  preserves (@private_fields World) c -> exporting v m -> exporting v (fst (c m)).
Proof.
  intros Hc [Ho Hr]. specialize (Hc m). unfold private_fields in Hc.
  injection Hc as Ho' Hr'. split; congruence.
Qed.

(** *** The [finally] block *)

Lemma prop_merge_singleton key v (props : gmap string PropValue) :
  prop (merge_props {[ key := v ]} props) key = v.
Proof.
  unfold prop, merge_props. rewrite lookup_union_l' by (rewrite lookup_singleton_eq; eauto).
  now rewrite lookup_singleton_eq.
Qed.

Lemma renderSequence_finally_restores v (m : @Machine World) :
  exporting v m ->
  exists m',
    renderSequence_finally m = (m', Returned tt) /\ restored v m' /\ world m' = world m.
Proof.
  intros [Ho Hr]. eexists. split; [reflexivity |]. split; [| reflexivity].
  unfold restored. simpl. rewrite Ho. split; [apply prop_merge_singleton |].
  split; [reflexivity |]. exists (effects m). rewrite <- !app_assoc. reflexivity.
Qed.

(** *** One [next()] of an exporting generator *)

Lemma renderSequence_try_loop v (g : Generator) frame (m : @Machine World) :
  exporting v m ->
  match renderSequence_try (renderSequence_loop env exporter g frame) m with
  | (m', Returned (g', Yield r)) =>
      exporting v m' /\ g' = in_state g (SuspendedAtYield frame) /\ frame <= endFrame g
  | (m', Returned (g', Done)) => restored v m' /\ endFrame g < frame
  | (m', Threw e) => restored v m'
  | (m', Waiting) => True
  end.
Proof.
  intros Hexp. unfold renderSequence_try, renderSequence_loop.
  destruct (Z.leb_spec frame (endFrame g)) as [Hle | Hgt].
  - unfold mbind, M_bind.
    pose proof (exporting_preserved (render_steps env exporter frame) v m
                  (private_render_steps frame) Hexp) as Hexp'.
    destruct (render_steps env exporter frame m) as [m1 [r | e |]]; simpl in Hexp'.
    + simpl. auto.
    + destruct (renderSequence_finally_restores v m1 Hexp') as (m2 & -> & Hres & _).
      exact Hres.
    + exact I.
  - destruct (renderSequence_finally_restores v m Hexp) as (m2 & Hfin & Hres & _).
    unfold mret, M_ret. cbv beta iota. rewrite Hfin. split; [exact Hres | lia].
Qed.

Lemma generator_return_restores v (g : Generator) frame (m : @Machine World) :
  generator_state g = SuspendedAtYield frame ->
  exporting v m ->
  exists m' g', generator_return g m = (m', Returned (g', Done)) /\ restored v m'.
Proof.
  intros Hg Hexp. unfold generator_return. rewrite Hg.
  destruct (renderSequence_finally_restores v m Hexp) as (m' & Hfin & Hres & _).
  unfold mbind, M_bind. rewrite Hfin. eexists. eexists. split; [reflexivity | exact Hres].
Qed.

(** *** The whole iteration *)

Lemma iterate_suspended v consumer fuel :
  forall (g : Generator) frame (m m' : @Machine World) frames ending,
    generator_state g = SuspendedAtYield frame ->
    exporting v m ->
    iterate env exporter fuel consumer g m = (m', frames, ending) ->
    exited ending ->
    restored v m'.
Proof.
  induction fuel as [| fuel IH]; intros g frame m m' frames ending Hg Hexp Hrun Hexit.
  - simpl in Hrun. injection Hrun as <- <- <-.
    destruct Hexit as [? | [? | [e ?]]]; discriminate.
  - simpl in Hrun. unfold generator_next in Hrun. rewrite Hg in Hrun.
    pose proof (renderSequence_try_loop v g (frame + 1) m Hexp) as Hstep.
    destruct (renderSequence_try (renderSequence_loop env exporter g (frame + 1)) m)
      as [m1 [[g1 [r |]] | e |]].
    + destruct Hstep as (Hexp1 & -> & _).
      destruct (consumer r).
      * destruct (iterate env exporter fuel consumer
                    (in_state g (SuspendedAtYield (frame + 1))) m1)
          as [[m2 frames2] ending2] eqn:Hrest.
        injection Hrun as <- <- <-.
        exact (IH (in_state g (SuspendedAtYield (frame + 1))) (frame + 1) m1 m2 frames2
                 ending2 eq_refl Hexp1 Hrest Hexit).
      * destruct (generator_return_restores v
                    (in_state g (SuspendedAtYield (frame + 1))) (frame + 1) m1
                    eq_refl Hexp1) as (m2 & g2 & Hret & Hres).
        rewrite Hret in Hrun. injection Hrun as <- <- <-. exact Hres.
    + injection Hrun as <- <- <-. apply Hstep.
    + injection Hrun as <- <- <-. exact Hstep.
    + injection Hrun as <- <- <-. destruct Hexit as [? | [? | [e ?]]]; discriminate.
Qed.

Lemma iterate_suspended_fuel consumer fuel :
  forall (g : Generator) frame (m : @Machine World),
    generator_state g = SuspendedAtYield frame ->
    (Z.to_nat (endFrame g - frame) < fuel)%nat ->
    snd (iterate env exporter fuel consumer g m) <> OutOfFuel.
Proof.
  induction fuel as [| fuel IH]; intros g frame m Hg Hfuel; [lia |].
  simpl. unfold generator_next. rewrite Hg.
  unfold renderSequence_try, renderSequence_loop.
  destruct (Z.leb_spec (frame + 1) (endFrame g)) as [Hle | Hgt].
  - unfold mbind, M_bind.
    destruct (render_steps env exporter (frame + 1) m) as [m1 [r | e |]]; simpl.
    + destruct (consumer r).
      * specialize (IH (in_state g (SuspendedAtYield (frame + 1))) (frame + 1) m1 eq_refl).
        destruct (iterate env exporter fuel consumer
                    (in_state g (SuspendedAtYield (frame + 1))) m1) as [[m2 frames2] ending2].
        simpl in *. apply IH. lia.
      * discriminate.
    + discriminate.
    + discriminate.
  - simpl. discriminate.
Qed.

(** The first [next()] of an idle render loop enters the export and then
    behaves as a resumption at [startFrame]. *)
Lemma generator_next_start (g : Generator) (m : @Machine World) :
  generator_state g = NotStarted ->
  _isRendering (loop m) = false ->
  generator_next env exporter g m
  = generator_next env exporter (in_state g (SuspendedAtYield (startFrame g - 1)))
      (after_beginExport exporter m).
Proof.
  intros Hg Hr. unfold generator_next. rewrite Hg.
  change (generator_state (in_state g (SuspendedAtYield (startFrame g - 1))))
    with (SuspendedAtYield (startFrame g - 1)).
  cbv beta iota.
  replace (startFrame g - 1 + 1) with (startFrame g) by lia.
  unfold mbind at 1, M_bind at 1, get_isRendering. rewrite Hr.
  reflexivity.
Qed.

Lemma iterate_start consumer fuel (g : Generator) (m : @Machine World) :
  generator_state g = NotStarted ->
  _isRendering (loop m) = false ->
  iterate env exporter (S fuel) consumer g m
  = iterate env exporter (S fuel) consumer
      (in_state g (SuspendedAtYield (startFrame g - 1))) (after_beginExport exporter m).
Proof.
  intros Hg Hr. simpl iterate. now rewrite generator_next_start.
Qed.

Lemma exporting_after_beginExport (m : @Machine World) :
  exporting (prop (deck_props (loop m)) "_framebuffer") (after_beginExport exporter m).
Proof. split; reflexivity. Qed.

End RenderLoopProofs.

(** *** [_renderToHDR] redirects the deck and nothing redirects it back *)

Section RenderFrameProofs.
Context {World : Type} (env : @Env World) (exporter : Exporter).

Lemma renderToHDR_framebuffer (m m' : @Machine World) pixels :
  _renderToHDR env exporter m = (m', Returned pixels) ->
  deck_framebuffer m' = framebuffer (exporter_framebuffer exporter).
Proof.
  unfold _renderToHDR, mbind, M_bind, deck_prop, deck_setProps, deck_redraw,
    exporter_readPixelsAsync, wait_forever, mret, M_ret.
  cbn [loop world effects log with_loop deck_props].
  destruct (redraw env _ (world m)) as [w [|]]; [| discriminate].
  cbn [loop world effects].
  destruct (readPixels env w) as [w' [p | e]]; cbn [outcome_of]; [| discriminate].
  intros [= <- _]. unfold deck_framebuffer, prop, merge_props, log, with_loop.
  cbn [loop deck_props].
  rewrite lookup_union_r by (now apply lookup_singleton_ne).
  rewrite lookup_union_l' by (rewrite lookup_insert_eq; eauto).
  now rewrite lookup_insert_eq.
Qed.

Lemma framebuffer_call_onFrameComplete frame pixels :
  preserves (@deck_framebuffer World) (call_onFrameComplete env frame pixels).
Proof.
  intros m. unfold call_onFrameComplete.
  destruct (onFrameComplete env) as [hook |]; [| reflexivity].
  destruct (hook frame pixels (world m)) as [w r]. reflexivity.
Qed.

Lemma render_steps_framebuffer frame (m m' : @Machine World) r :
  render_steps env exporter frame m = (m', Returned r) ->
  deck_framebuffer m' = framebuffer (exporter_framebuffer exporter).
Proof.
  unfold render_steps. unfold mbind at 1, M_bind at 1.
  destruct (call_onFrameStart env frame m) as [m1 [[] | e |]]; [| discriminate | discriminate].
  unfold mbind at 1, M_bind at 1.
  destruct (call_onUpdateFrame env frame m1) as [m2 [[] | e |]]; [| discriminate | discriminate].
  unfold mbind at 1, M_bind at 1.
  destruct (_renderToHDR env exporter m2) as [m3 [pixels | e |]] eqn:Hrender;
    [| discriminate | discriminate].
  apply renderToHDR_framebuffer in Hrender.
  unfold mbind at 1, M_bind at 1.
  pose proof (framebuffer_call_onFrameComplete frame pixels m3) as Hcomplete.
  destruct (call_onFrameComplete env frame pixels m3) as [m4 [[] | e |]];
    [| discriminate | discriminate].
  simpl in Hcomplete.
  unfold mbind, M_bind, pure_result, mret, M_ret.
  destruct (flip_pixels _ _ _ _ _) as [flipped | e]; cbn [outcome_of]; [| discriminate].
  destruct (writeEXR _ _ _ _) as [exr | e]; cbn [outcome_of]; [| discriminate].
  intros [= <- _]. congruence.
Qed.

End RenderFrameProofs.
(** *** [floatToHalf] in arithmetic: truncation to the binary16 grid *)

Lemma lor_disjoint c b k :
  0 <= k -> 0 <= b < 2 ^ k -> Z.lor (c * 2 ^ k) b = c * 2 ^ k + b.
Proof.
  intros Hk Hb.
  assert (Hland : Z.land (c * 2 ^ k) b = 0).
  { apply Z.bits_inj'. intros n Hn. rewrite Z.land_spec, Z.bits_0.
    destruct (Z_lt_dec n k) as [Hlt | Hge].
    - rewrite Z.mul_pow2_bits_low by lia. reflexivity.
    - replace b with (b mod 2 ^ k) by (apply Z.mod_small; lia).
      rewrite Z.testbit_mod_pow2 by lia.
      destruct (Z.ltb_spec n k); [lia |]. apply andb_false_r. }
  rewrite <- (Z.lxor_lor _ _ Hland). symmetry. now apply Z.add_nocarry_lxor.
Qed.

Lemma JS_or_disjoint c b k :
  0 <= k -> 0 <= b < 2 ^ k -> 0 <= c -> c * 2 ^ k + b < 2 ^ 31 ->
  JS.or (c * 2 ^ k) b = c * 2 ^ k + b.
Proof.
  intros Hk Hb Hc Hlt. unfold JS.or.
  assert (0 < 2 ^ k) by (apply Z.pow_pos_nonneg; lia).
  rewrite (ToInt32_small (c * 2 ^ k)), (ToInt32_small b) by nia.
  rewrite lor_disjoint by lia. apply ToInt32_small. nia.
Qed.

Lemma JS_and_float_exponent f :
  - 2 ^ 31 <= f < 2 ^ 31 -> JS.and (JS.sar f 23) 0xff = float_exponent f.
Proof.
  intros Hr. unfold JS.and, JS.sar, float_exponent.
  change (JS.ToUint32 23 mod 32) with 23. rewrite (ToInt32_small f) by lia.
  assert (- 2 ^ 8 <= Z.shiftr f 23 < 2 ^ 8).
  { rewrite Z.shiftr_div_pow2 by lia. split;
      [apply Z.div_le_lower_bound | apply Z.div_lt_upper_bound]; lia. }
  rewrite (ToInt32_small (Z.shiftr f 23)), (ToInt32_small 0xff) by lia.
  apply ToInt32_small. change 0xff with (Z.ones 8).
  pose proof (land_mask_bound 8 (Z.shiftr f 23)). lia.
Qed.

Lemma JS_and_float_mantissa f :
  - 2 ^ 31 <= f < 2 ^ 31 -> JS.and f 0x007fffff = float_mantissa f.
Proof.
  intros Hr. unfold JS.and, float_mantissa.
  rewrite (ToInt32_small f), (ToInt32_small 0x007fffff) by lia.
  apply ToInt32_small. change 0x007fffff with (Z.ones 23).
  pose proof (land_mask_bound 23 f). lia.
Qed.

Lemma float_exponent_range f : 0 <= float_exponent f < 2 ^ 8.
Proof. unfold float_exponent. change 0xff with (Z.ones 8). apply land_mask_bound. lia. Qed.

Lemma float_mantissa_range f : 0 <= float_mantissa f < 2 ^ 23.
Proof. unfold float_mantissa. change 0x7fffff with (Z.ones 23). apply land_mask_bound. lia. Qed.

Lemma JS_sar_div a k :
  0 <= a < 2 ^ 31 -> 0 <= k < 32 -> JS.sar a k = a / 2 ^ k.
Proof.
  intros Ha Hk. destruct (JS_sar_small a k Ha Hk) as [-> _].
  apply Z.shiftr_div_pow2. lia.
Qed.

(** The result of [floatToHalf] by cases on the binary32 exponent field [E]
    and mantissa field [M], with sign bit [s]. *)
Lemma floatToHalf_bits_arith f :
  - 2 ^ 31 <= f < 2 ^ 31 ->
  floatToHalf_bits f =
    (if f <? 0 then 1 else 0) * 2 ^ 15 +
    (if float_exponent f <=? 101 then 0
     else if float_exponent f <=? 112
          then (2 ^ 23 + float_mantissa f) / 2 ^ (126 - float_exponent f)
     else if float_exponent f =? 255 then 31 * 2 ^ 10 + float_mantissa f / 2 ^ 13
     else if 142 <? float_exponent f then 31 * 2 ^ 10
     else (float_exponent f - 112) * 2 ^ 10 + float_mantissa f / 2 ^ 13).
Proof.
  intros Hr. unfold floatToHalf_bits.
  rewrite floatToHalf_sign, JS_and_float_exponent, JS_and_float_mantissa by exact Hr.
  rewrite (ToInt32_small f) by exact Hr.
  pose proof (float_exponent_range f) as HE. pose proof (float_mantissa_range f) as HM.
  set (E := float_exponent f) in *. set (M := float_mantissa f) in *.
  set (s := if f <? 0 then 1 else 0).
  assert (Hs : 0 <= s <= 1) by (unfold s; destruct (f <? 0); lia).
  replace (if f <? 0 then 32768 else 0) with (s * 2 ^ 15)
    by (unfold s; destruct (f <? 0); reflexivity).
  assert (Hq : 0 <= M / 2 ^ 13 < 2 ^ 10).
  { split; [apply Z.div_pos | apply Z.div_lt_upper_bound]; lia. }
  assert (Hsar : JS.sar M 13 = M / 2 ^ 13) by (apply JS_sar_div; lia).
  assert (Hinf : JS.or (s * 2 ^ 15) 0x7c00 = (s * 32 + 31) * 2 ^ 10).
  { rewrite JS_or_disjoint by lia. lia. }
  destruct (Z.leb_spec (E - 127 + 15) 0) as [Hle | Hgt].
  - destruct (Z.ltb_spec (E - 127 + 15) (-10)) as [Hlt | Hge].
    + destruct (Z.leb_spec E 101); [lia | lia].
    + destruct (Z.leb_spec E 101); [lia |]. destruct (Z.leb_spec E 112); [| lia].
      assert (Hor : JS.or M 0x00800000 = 2 ^ 23 + M).
      { unfold JS.or. rewrite (ToInt32_small M), (ToInt32_small 0x00800000) by lia.
        rewrite Z.lor_comm. change 0x00800000 with (1 * 2 ^ 23).
        rewrite lor_disjoint by lia. apply ToInt32_small. lia. }
      rewrite Hor. rewrite (JS_sar_div (2 ^ 23 + M)) by lia.
      assert (Hp1 : 0 < 2 ^ (1 - (E - 127 + 15))) by (apply Z.pow_pos_nonneg; lia).
      assert (Hm1 : 0 <= (2 ^ 23 + M) / 2 ^ (1 - (E - 127 + 15)) < 2 ^ 24).
      { split; [apply Z.div_pos; lia |]. apply Z.div_lt_upper_bound; [lia |]. nia. }
      rewrite JS_sar_div by lia.
      rewrite Z.div_div by lia. rewrite <- Z.pow_add_r by lia.
      replace (1 - (E - 127 + 15) + 13) with (126 - E) by lia.
      assert (Hp : 2 ^ 14 <= 2 ^ (126 - E)) by (apply Z.pow_le_mono_r; lia).
      assert (Hsub : 0 <= (2 ^ 23 + M) / 2 ^ (126 - E) < 2 ^ 10).
      { split; [apply Z.div_pos; lia |]. apply Z.div_lt_upper_bound; [lia |]. nia. }
      apply JS_or_disjoint; lia.
  - destruct (Z.leb_spec E 101); [lia |]. destruct (Z.leb_spec E 112); [lia |].
    destruct (Z.eqb_spec (E - 127 + 15) (0xff - 127 + 15)) as [Heq | Hne].
    + destruct (Z.eqb_spec E 255); [| lia]. rewrite Hinf, Hsar.
      destruct (Z.eqb_spec M 0) as [-> | HM0].
      * change (0 / 2 ^ 13) with 0. lia.
      * rewrite JS_or_disjoint by lia. lia.
    + destruct (Z.eqb_spec E 255); [lia |].
      destruct (Z.ltb_spec 30 (E - 127 + 15)) as [Hov | Hnorm].
      * destruct (Z.ltb_spec 142 E); [| lia]. rewrite Hinf. lia.
      * destruct (Z.ltb_spec 142 E); [lia |].
        assert (Hshl : JS.shl (E - 127 + 15) 10 = (E - 112) * 2 ^ 10).
        { unfold JS.shl. rewrite (ToInt32_small (E - 127 + 15)) by lia.
          change (JS.ToUint32 10 mod 32) with 10. rewrite Z.shiftl_mul_pow2 by lia.
          rewrite ToInt32_small by lia. lia. }
        rewrite Hshl, Hsar. rewrite (JS_or_disjoint s) by lia.
        replace (s * 2 ^ 15 + (E - 112) * 2 ^ 10) with ((s * 32 + (E - 112)) * 2 ^ 10) by lia.
        rewrite JS_or_disjoint by lia. lia.
Qed.

(** The fields of a binary16 pattern assembled from sign, exponent and
    mantissa. *)
Lemma half_fields s e q :
  0 <= s <= 1 -> 0 <= e < 32 -> 0 <= q < 2 ^ 10 ->
  half_sign (s * 2 ^ 15 + (e * 2 ^ 10 + q)) = s /\
  half_exponent (s * 2 ^ 15 + (e * 2 ^ 10 + q)) = e /\
  half_mantissa (s * 2 ^ 15 + (e * 2 ^ 10 + q)) = q.
Proof.
  intros Hs He Hq. unfold half_sign, half_exponent, half_mantissa.
  change 1 with (Z.ones 1) at 1. change 0x1f with (Z.ones 5). change 0x3ff with (Z.ones 10).
  rewrite !Z.land_ones, !Z.shiftr_div_pow2 by lia.
  assert (H15 : (s * 2 ^ 15 + (e * 2 ^ 10 + q)) / 2 ^ 15 = s).
  { symmetry. apply Z.div_unique with (r := e * 2 ^ 10 + q); lia. }
  assert (H10 : (s * 2 ^ 15 + (e * 2 ^ 10 + q)) / 2 ^ 10 = s * 32 + e).
  { symmetry. apply Z.div_unique with (r := q); lia. }
  rewrite H15, H10. split; [apply Z.mod_small; lia |]. split.
  - symmetry. apply Z.mod_unique with (q := s); lia.
  - symmetry. apply Z.mod_unique with (q := s * 32 + e); lia.
Qed.

Lemma float_magnitude_tiny f :
  float_exponent f <= 101 -> float_magnitude f / 2 ^ 125 = 0.
Proof.
  intros HE. pose proof (float_exponent_range f) as Hr.
  pose proof (float_mantissa_range f) as HM. unfold float_magnitude.
  apply Z.div_small. destruct (Z.eqb_spec (float_exponent f) 0) as [H0 | Hn0]; [lia |].
  assert (Hp : 0 < 2 ^ (float_exponent f - 1) <= 2 ^ 100).
  { split; [apply Z.pow_pos_nonneg; lia | apply Z.pow_le_mono_r; lia]. }
  split; [nia |].
  apply Z.lt_le_trans with (2 ^ 24 * 2 ^ (float_exponent f - 1)); [nia |].
  apply Z.le_trans with (2 ^ 24 * 2 ^ 100); [nia | lia].
Qed.

(** [floatToHalf] truncates.  The binary16 result has the sign of the
    binary32 datum; its magnitude is the binary32 magnitude rounded toward
    zero onto the binary16 grid (spacing 2^-24 up to the first normal binade,
    2^(E-127-10) in the binade of exponent field [E]); magnitudes of 2^16 and
    more become infinity; infinities and NaNs keep all exponent bits set and
    the ten high bits of their mantissa. *)
Lemma floatToHalf_bits_truncates f :
  - 2 ^ 31 <= f < 2 ^ 31 ->
  half_sign (floatToHalf_bits f) = (if f <? 0 then 1 else 0) /\
  (float_exponent f <= 112 ->
   half_exponent (floatToHalf_bits f) = 0 /\
   half_magnitude (floatToHalf_bits f) = float_magnitude f / 2 ^ 125) /\
  (113 <= float_exponent f <= 142 ->
   half_exponent (floatToHalf_bits f) = float_exponent f - 112 /\
   half_magnitude (floatToHalf_bits f)
   = float_magnitude f / 2 ^ (float_exponent f + 12) * 2 ^ (float_exponent f - 113)) /\
  (143 <= float_exponent f <= 254 ->
   half_exponent (floatToHalf_bits f) = 31 /\ half_mantissa (floatToHalf_bits f) = 0) /\
  (float_exponent f = 255 ->
   half_exponent (floatToHalf_bits f) = 31 /\
   half_mantissa (floatToHalf_bits f) = float_mantissa f / 2 ^ 13).
Proof.
  intros Hr. rewrite (floatToHalf_bits_arith f Hr).
  pose proof (float_exponent_range f) as HE. pose proof (float_mantissa_range f) as HM.
  pose proof (float_magnitude_tiny f) as Htiny. unfold float_magnitude in *.
  set (E := float_exponent f) in *. set (M := float_mantissa f) in *.
  set (s := if f <? 0 then 1 else 0).
  assert (Hs : 0 <= s <= 1) by (unfold s; destruct (f <? 0); lia).
  assert (Hq : 0 <= M / 2 ^ 13 < 2 ^ 10).
  { split; [apply Z.div_pos | apply Z.div_lt_upper_bound]; lia. }
  destruct (Z.leb_spec E 101) as [H101 | H101].
  { destruct (half_fields s 0 0 Hs ltac:(lia) ltac:(lia)) as (Hhs & Hhe & Hhm).
    change (0 * 2 ^ 10 + 0) with 0 in *. unfold half_magnitude. rewrite Hhe, Hhm.
    split; [exact Hhs |]. split; [| lia].
    intros _. split; [reflexivity |]. rewrite Htiny by lia. reflexivity. }
  destruct (Z.leb_spec E 112) as [H112 | H112].
  { assert (Hp : 2 ^ 14 <= 2 ^ (126 - E)) by (apply Z.pow_le_mono_r; lia).
    assert (Hsub : 0 <= (2 ^ 23 + M) / 2 ^ (126 - E) < 2 ^ 10).
    { split; [apply Z.div_pos; lia |]. apply Z.div_lt_upper_bound; [lia |]. nia. }
    destruct (half_fields s 0 _ Hs ltac:(lia) Hsub) as (Hhs & Hhe & Hhm).
    change (0 * 2 ^ 10 + ?x) with x in *. unfold half_magnitude. rewrite Hhe, Hhm.
    split; [exact Hhs |]. split; [| lia].
    intros _. split; [reflexivity |]. change (0 =? 0) with true. cbv iota.
    destruct (Z.eqb_spec E 0); [lia |].
    replace (2 ^ 125) with (2 ^ (126 - E) * 2 ^ (E - 1))
      by (rewrite <- Z.pow_add_r by lia; f_equal; lia).
    assert (0 < 2 ^ (E - 1)) by (apply Z.pow_pos_nonneg; lia).
    rewrite Z.div_mul_cancel_r by lia. reflexivity. }
  destruct (Z.eqb_spec E 255) as [H255 | H255].
  { destruct (half_fields s 31 _ Hs ltac:(lia) Hq) as (Hhs & Hhe & Hhm).
    rewrite Hhe, Hhm. split; [exact Hhs |]. repeat split; lia. }
  destruct (Z.ltb_spec 142 E) as [H142 | H142].
  { destruct (half_fields s 31 0 Hs ltac:(lia) ltac:(lia)) as (Hhs & Hhe & Hhm).
    rewrite Z.add_0_r in Hhs, Hhe, Hhm. rewrite Hhe, Hhm.
    split; [exact Hhs |]. repeat split; lia. }
  destruct (half_fields s (E - 112) _ Hs ltac:(lia) Hq) as (Hhs & Hhe & Hhm).
  unfold half_magnitude. rewrite Hhe, Hhm. split; [exact Hhs |]. split; [lia |].
  split; [| lia]. intros _. split; [reflexivity |].
  destruct (Z.eqb_spec (E - 112) 0); [lia |]. destruct (Z.eqb_spec E 0); [lia |].
  replace (2 ^ (E + 12)) with (2 ^ 13 * 2 ^ (E - 1))
    by (rewrite <- Z.pow_add_r by lia; f_equal; lia).
  assert (0 < 2 ^ (E - 1)) by (apply Z.pow_pos_nonneg; lia).
  rewrite Z.div_mul_cancel_r by lia.
  change (2 ^ 23) with (2 ^ 10 * 2 ^ 13). rewrite Z.div_add_l by lia.
  f_equal. f_equal. lia.
Qed.

(** A binary32 value that lies on the binary16 grid, below 2^16 in
    magnitude, is converted without error: the binary16 result denotes the
    same value (2^125 units of binary32 make one unit of binary16). *)
Lemma floatToHalf_bits_exact f :
  - 2 ^ 31 <= f < 2 ^ 31 ->
  float_exponent f <= 142 ->
  (2 ^ Z.max 125 (float_exponent f + 12) | float_magnitude f) ->
  half_magnitude (floatToHalf_bits f) * 2 ^ 125 = float_magnitude f.
Proof.
  intros Hr HE [z Hz].
  destruct (floatToHalf_bits_truncates f Hr) as (_ & Hsub & Hnorm & _).
  pose proof (float_exponent_range f) as HEr.
  destruct (Z_le_dec (float_exponent f) 112) as [Hle | Hgt].
  - destruct (Hsub Hle) as [_ ->]. rewrite Z.max_l in Hz by lia.
    rewrite Hz, Z.div_mul by lia. reflexivity.
  - destruct (Hnorm ltac:(lia)) as [_ ->]. rewrite Z.max_r in Hz by lia.
    assert (0 < 2 ^ (float_exponent f + 12)) by (apply Z.pow_pos_nonneg; lia).
    rewrite Hz at 1. rewrite Z.div_mul by lia. rewrite Hz.
    rewrite <- Z.mul_assoc, <- Z.pow_add_r by lia. f_equal. f_equal. lia.
Qed.

(** *** The binary32 encoding against the value it encodes *)

Lemma float_fields s E M :
  0 <= s <= 1 -> 0 <= E < 2 ^ 8 -> 0 <= M < 2 ^ 23 ->
  let f := JS.ToInt32 (s * 2 ^ 31 + E * 2 ^ 23 + M) in
  (f <? 0) = (s =? 1) /\ float_exponent f = E /\ float_mantissa f = M.
Proof.
  intros Hs HE HM f.
  assert (Hf : f = - s * 2 ^ 31 + E * 2 ^ 23 + M).
  { unfold f, JS.ToInt32. assert (Hc : s = 0 \/ s = 1) by lia.
    destruct Hc as [-> | ->].
    - rewrite Z.mod_small by lia. lia.
    - replace (1 * 2 ^ 31 + E * 2 ^ 23 + M + 2 ^ 31)
        with (E * 2 ^ 23 + M + 1 * 2 ^ 32) by lia.
      rewrite Z.mod_add by lia. rewrite Z.mod_small by lia. lia. }
  clearbody f. subst f. unfold float_exponent, float_mantissa.
  change 0xff with (Z.ones 8). change 0x7fffff with (Z.ones 23).
  rewrite !Z.land_ones, Z.shiftr_div_pow2 by lia.
  assert (Hdiv : (- s * 2 ^ 31 + E * 2 ^ 23 + M) / 2 ^ 23 = - s * 2 ^ 8 + E).
  { symmetry. apply Z.div_unique with (r := M); lia. }
  rewrite Hdiv. split; [| split].
  - destruct (Z.ltb_spec (- s * 2 ^ 31 + E * 2 ^ 23 + M) 0);
      destruct (Z.eqb_spec s 1); lia.
  - symmetry. apply Z.mod_unique with (q := - s); lia.
  - symmetry. apply Z.mod_unique with (q := - s * 2 ^ 8 + E); lia.
Qed.

Lemma digits2_pos_bounds m :
  Z.pos m < 2 ^ Z.pos (digits2_pos m) <= 2 * Z.pos m.
Proof.
  change (digits2_pos m) with (Pos.size m).
  pose proof (Pos.size_gt m) as Hgt. pose proof (Pos.size_le m) as Hle.
  apply Pos2Z.pos_lt_pos in Hgt. apply Pos2Z.pos_le_pos in Hle.
  rewrite Pos2Z.inj_pow in Hgt, Hle. change (Z.pos m~0) with (2 * Z.pos m) in Hle. lia.
Qed.

(** The pattern written for a finite binary32 datum [m * 2^e] (canonical:
    [bounded 24 128 m e]) has the sign [s] and the magnitude [m * 2^(e+149)]
    in units of 2^-149, and its exponent field is not all ones. *)
Lemma float32_bits_magnitude s m e :
  bounded 24 128 m e = true ->
  let f := JS.ToInt32 (Float32.bits (S754_finite s m e)) in
  (f <? 0) = s /\ float_exponent f <= 254 /\ float_magnitude f = Z.pos m * 2 ^ (e + 149).
Proof.
  intros Hb f. subst f. unfold bounded, canonical_mantissa, fexp, emin in Hb.
  apply andb_true_iff in Hb as [Hc He].
  apply Z.eqb_eq in Hc. apply Z.leb_le in He.
  pose proof (digits2_pos_bounds m) as Hd.
  set (d := Z.pos (digits2_pos m)) in *.
  assert (Hd0 : 0 < d) by (unfold d; lia).
  set (sb := if s then 1 else 0).
  assert (Hsb : 0 <= sb <= 1) by (unfold sb; destruct s; lia).
  assert (Hsign : Float32.sign_bit s = sb * 2 ^ 31) by (unfold sb; destruct s; reflexivity).
  assert (Hs1 : (sb =? 1) = s) by (unfold sb; destruct s; reflexivity).
  unfold Float32.bits. rewrite Hsign.
  destruct (Z.ltb_spec (Z.pos m) (2 ^ 23)) as [Hsmall | Hbig].
  - assert (Hd23 : d <= 23).
    { destruct (Z_le_dec d 23); [assumption |].
      assert (2 ^ 24 <= 2 ^ d) by (apply Z.pow_le_mono_r; lia). lia. }
    assert (Hee : e = -149) by lia.
    replace (sb * 2 ^ 31 + Z.pos m) with (sb * 2 ^ 31 + 0 * 2 ^ 23 + Z.pos m) by lia.
    destruct (float_fields sb 0 (Z.pos m) Hsb ltac:(lia) ltac:(lia)) as (Hlt & HE & HM).
    rewrite Hlt, Hs1. unfold float_magnitude. rewrite HE, HM. subst e.
    split; [reflexivity |]. split; [lia |]. change (0 =? 0) with true. cbv iota.
    change (2 ^ (-149 + 149)) with 1. lia.
  - assert (Hd24 : d = 24).
    { assert (d <= 24) by lia.
      destruct (Z_le_dec d 23) as [Hle |]; [| lia].
      assert (2 ^ d <= 2 ^ 23) by (apply Z.pow_le_mono_r; lia). lia. }
    rewrite Hd24 in Hd. assert (Hlo : -149 <= e) by lia.
    destruct (float_fields sb (e + 150) (Z.pos m - 2 ^ 23) Hsb ltac:(lia) ltac:(lia))
      as (Hlt & HE & HM).
    rewrite Hlt, Hs1. unfold float_magnitude. rewrite HE, HM.
    split; [reflexivity |]. split; [lia |].
    destruct (Z.eqb_spec (e + 150) 0); [lia |].
    replace (2 ^ 23 + (Z.pos m - 2 ^ 23)) with (Z.pos m) by lia.
    replace (e + 150 - 1) with (e + 149) by lia. reflexivity.
Qed.
(** ** gpu-readback.ts: the transfer buffer and the result array *)

Lemma getBytesPerPixel_cases format :
  getBytesPerPixel format = 4 \/ getBytesPerPixel format = 8 \/ getBytesPerPixel format = 16.
Proof.
  unfold getBytesPerPixel.
  destruct (includes format "32float"); [auto |].
  destruct (includes format "16float"); [auto |].
  destruct (includes format "8unorm"); auto.
Qed.

Lemma ceil_div_256 a :
  (ceil_div a 256 * 256) mod 256 = 0 /\ a <= ceil_div a 256 * 256 < a + 256.
Proof.
  split; [apply Z.mod_mul; lia |]. unfold ceil_div.
  pose proof (Z.div_mod (- a) 256 ltac:(lia)). pose proof (Z.mod_pos_bound (- a) 256 ltac:(lia)).
  lia.
Qed.

Lemma length_subarray_le {A : Type} (a : list A) (begin len : Z) :
  0 <= begin -> 0 <= len ->
  Z.of_nat (length (TypedArray.subarray a begin (begin + len))) <= len.
Proof.
  intros Hbegin Hlen. unfold TypedArray.subarray.
  destruct (Z.ltb_spec begin 0); [lia |]. destruct (Z.ltb_spec (begin + len) 0); [lia |].
  rewrite length_take. lia.
Qed.

Lemma length_TypedArray_set {A : Type} (target source target' : list A) offset :
  TypedArray.set target source offset = Ok target' -> length target' = length target.
Proof.
  unfold TypedArray.set.
  destruct (Z.ltb_spec offset 0); [discriminate |].
  destruct (Z.ltb_spec (Z.of_nat (length target)) (offset + Z.of_nat (length source)));
    [discriminate |].
  cbn [orb]. intros [= <-]. rewrite !length_app, length_take, length_drop. lia.
Qed.

(** The row copy of [readPixelsWebGPU] never throws: a row read from the
    mapped buffer is never longer than its place in the result array. *)
Lemma copy_rows_granted {A : Type} (data sourceArray : list A) (stride width height : Z) :
  (0 < height -> 0 <= stride) ->
  Z.of_nat (length data) = width * height * 4 ->
  exists data', copy_rows data sourceArray stride (width * 4) height = Ok data'.
Proof.
  intros Hstride Hlength. unfold copy_rows, for_lt. rewrite Z.sub_0_r.
  destruct (Z_le_gt_dec height 0) as [Hh | Hh].
  { replace (Z.to_nat height) with 0%nat by lia. eexists. reflexivity. }
  assert (Hw : 0 <= width) by nia. specialize (Hstride ltac:(lia)).
  assert (Hloop : forall n start (data : list A),
             0 <= start -> start + Z.of_nat n <= height ->
             Z.of_nat (length data) = width * height * 4 ->
             exists data',
               for_iter n start
                 (fun row data =>
                    TypedArray.set data
                      (TypedArray.subarray sourceArray (row * stride)
                         (row * stride + width * 4)) (row * (width * 4)))
                 data = Ok data').
  { clear data Hlength. induction n as [| n IH]; intros start data Hstart Hend Hlength.
    - eexists. reflexivity.
    - cbn [for_iter].
      pose proof (length_subarray_le sourceArray (start * stride) (width * 4)
                    ltac:(nia) ltac:(lia)) as Hrow.
      destruct (TypedArray.set data _ (start * (width * 4))) as [data1 | e] eqn:Hset.
      + rewrite bind_Ok. apply length_TypedArray_set in Hset.
        apply IH; [lia | lia | now rewrite Hset].
      + exfalso. unfold TypedArray.set in Hset.
        destruct (Z.ltb_spec (start * (width * 4)) 0); [nia |].
        destruct (Z.ltb_spec (Z.of_nat (length data))
                    (start * (width * 4)
                     + Z.of_nat (length (TypedArray.subarray sourceArray (start * stride)
                                           (start * stride + width * 4)))));
          [nia | discriminate]. }
  apply Hloop; [lia | lia | exact Hlength].
Qed.

Lemma length_TypedArray_make {A : Type} (zero : A) (n : Z) (a : list A) :
  TypedArray.make zero n = Ok a -> Z.of_nat (length a) = n.
Proof.
  unfold TypedArray.make. destruct (Z.ltb_spec n 0); [discriminate |].
  intros [= <-]. rewrite length_replicate. lia.
Qed.

(** The row pitch of the transfer buffer is not negative when the width is
    not. *)
Lemma transfer_bytesPerRow_nonneg width format :
  0 <= width -> 0 <= ceil_div (width * getBytesPerPixel format) 256 * 256.
Proof.
  intros Hw. destruct (ceil_div_256 (width * getBytesPerPixel format)) as [_ [Hle _]].
  pose proof (getBytesPerPixel_cases format). nia.
Qed.

(** What [readPixelsWebGPU] computes from the mapped range: it fails exactly
    when the result array is not allocated. *)
Lemma readPixelsWebGPU_data source options (mapped : list Z) :
  let texture := source_texture source in
  let width := region_width source options in
  let height := region_height source options in
  let bytesPerRow := transfer_bytesPerRow source options in
  match result_array source options with
  | Ok _ =>
      exists data,
        (if includes (texture_format texture) "float"
         then
           data ← TypedArray.make (S754_zero false) (width * height * 4);
           data ← copy_rows data (Float32Array_view mapped) (bytesPerRow / 4) (width * 4) height;
           Ok (Float32Data data)
         else
           data ← TypedArray.make 0 (width * height * 4);
           data ← copy_rows data mapped (bytesPerRow / 1) (width * 4) height;
           Ok (Uint8Data data)) = Ok data
  | Throw e =>
      (if includes (texture_format texture) "float"
       then
         data ← TypedArray.make (S754_zero false) (width * height * 4);
         data ← copy_rows data (Float32Array_view mapped) (bytesPerRow / 4) (width * 4) height;
         Ok (Float32Data data)
       else
         data ← TypedArray.make 0 (width * height * 4);
         data ← copy_rows data mapped (bytesPerRow / 1) (width * 4) height;
         Ok (Uint8Data data)) = Throw e
  end.
Proof.
  intros texture width height bytesPerRow. unfold result_array.
  fold texture. fold width. fold height.
  assert (Hstride : forall d, 0 < d -> 0 < height -> 0 <= width * height * 4 ->
                              0 <= bytesPerRow / d).
  { intros d Hd Hh Hsize. apply Z.div_pos; [| exact Hd].
    apply transfer_bytesPerRow_nonneg. nia. }
  destruct (includes (texture_format texture) "float").
  - destruct (TypedArray.make (S754_zero false) (width * height * 4)) as [data | e] eqn:Hmake;
      [| reflexivity].
    cbn [fmap result_fmap]. rewrite bind_Ok.
    pose proof (length_TypedArray_make _ _ _ Hmake) as Hlength.
    destruct (copy_rows_granted data (Float32Array_view mapped) (bytesPerRow / 4) width height)
      as [data' ->]; [intros; apply Hstride; lia | exact Hlength |].
    eexists. reflexivity.
  - destruct (TypedArray.make 0 (width * height * 4)) as [data | e] eqn:Hmake;
      [| reflexivity].
    cbn [fmap result_fmap]. rewrite bind_Ok.
    pose proof (length_TypedArray_make _ _ _ Hmake) as Hlength.
    destruct (copy_rows_granted data mapped (bytesPerRow / 1) width height)
      as [data' ->]; [intros; apply Hstride; lia | exact Hlength |].
    eexists. reflexivity.
Qed.
(** ** Claims on [floatToHalf] *)

(** C1.  [floatToHalf] narrows binary32 to binary16 bit-exactly and
    reproduces the listed boundary values: 0.0 gives 0x0000, -0.0 gives
    0x8000, 1.0 gives 0x3C00, 65504.0 gives 0x7BFF, 70000.0 and positive
    infinity give 0x7C00, NaN (and every binary32 NaN pattern with the quiet
    bit set) gives a pattern with all exponent bits set and a nonzero
    mantissa, 2^-24 gives 0x0001, and every value whose rebiased exponent is
    below -10 gives the zero of its sign.  Every value that binary16 can
    represent (on the binary16 grid, below 2^16 in magnitude) is returned
    with its sign and exactly its magnitude. *)
Theorem floatToHalf_boundary_values :
  floatToHalf (S754_zero false) = 0x0000 /\
  floatToHalf (S754_zero true) = 0x8000 /\
  floatToHalf (number_of 1 0) = 0x3C00 /\
  floatToHalf (number_of 65504 0) = 0x7BFF /\
  floatToHalf (number_of 70000 0) = 0x7C00 /\
  floatToHalf (S754_infinity false) = 0x7C00 /\
  (half_exponent (floatToHalf NaN) = 0x1f /\ half_mantissa (floatToHalf NaN) <> 0) /\
  (forall f : Z,
      quiet_nan32 f ->
      half_exponent (floatToHalf_bits f) = 0x1f /\ half_mantissa (floatToHalf_bits f) <> 0) /\
  floatToHalf (number_of 1 (-24)) = 0x0001 /\
  (forall value : number,
      rebiased_exponent (float32_int32 value) < -10 ->
      floatToHalf value = if float32_int32 value <? 0 then 0x8000 else 0x0000) /\
  (forall value : number,
      float_exponent (float32_int32 value) <= 142 ->
      (2 ^ Z.max 125 (float_exponent (float32_int32 value) + 12)
       | float_magnitude (float32_int32 value)) ->
      half_sign (floatToHalf value) = (if float32_int32 value <? 0 then 1 else 0) /\
      half_exponent (floatToHalf value) <> 0x1f /\
      half_magnitude (floatToHalf value) * 2 ^ 125 = float_magnitude (float32_int32 value)).
Proof.
  do 6 (split; [vm_compute; reflexivity |]).
  split; [split; [vm_compute; reflexivity | vm_compute; discriminate] |].
  split; [exact floatToHalf_bits_quiet_nan |].
  split; [vm_compute; reflexivity |].
  split.
  - intros value He. unfold floatToHalf.
    rewrite (floatToHalf_bits_underflow _ He).
    unfold float32_int32 at 1. rewrite ToInt32_small by apply ToInt32_range.
    reflexivity.
  - intros value HE Hgrid. unfold floatToHalf.
    assert (Hr : - 2 ^ 31 <= float32_int32 value < 2 ^ 31) by apply ToInt32_range.
    destruct (floatToHalf_bits_truncates _ Hr) as (Hsign & Hsub & Hnorm & _).
    split; [exact Hsign |]. split; [| exact (floatToHalf_bits_exact _ Hr HE Hgrid)].
    destruct (Z_le_dec (float_exponent (float32_int32 value)) 112) as [Hle | Hgt].
    + destruct (Hsub Hle) as [-> _]. discriminate.
    + destruct (Hnorm ltac:(lia)) as [-> _]. lia.
Qed.

(** [floatToHalf_boundary_values] at the negative quiet NaN 0xFFC00000, at
    2^-30 and -2^-30, and at -1.5 (pattern 0xBE00) and 3 * 2^-24 (the
    subnormal 0x0003). *)
Lemma floatToHalf_boundary_values_witness :
  (half_exponent (floatToHalf_bits (-0x400000)) = 0x1f
   /\ half_mantissa (floatToHalf_bits (-0x400000)) <> 0) /\
  (rebiased_exponent (float32_int32 (number_of 1 (-30))) < -10
   /\ floatToHalf (number_of 1 (-30)) = 0x0000) /\
  (rebiased_exponent (float32_int32 (number_of (-1) (-30))) < -10
   /\ floatToHalf (number_of (-1) (-30)) = 0x8000) /\
  (floatToHalf (number_of (-3) (-1)) = 0xBE00
   /\ half_sign (floatToHalf (number_of (-3) (-1))) = 1
   /\ half_magnitude (floatToHalf (number_of (-3) (-1))) * 2 ^ 125
      = float_magnitude (float32_int32 (number_of (-3) (-1)))) /\
  (floatToHalf (number_of 3 (-24)) = 0x0003
   /\ half_magnitude (floatToHalf (number_of 3 (-24))) * 2 ^ 125
      = float_magnitude (float32_int32 (number_of 3 (-24)))).
Proof.
  pose proof floatToHalf_boundary_values
    as (_ & _ & _ & _ & _ & _ & _ & Hnan & _ & H & Hexact).
  split; [| split; [| split; [| split]]].
  - apply Hnan. unfold quiet_nan32. vm_compute. intuition congruence.
  - assert (He : rebiased_exponent (float32_int32 (number_of 1 (-30))) < -10)
      by (vm_compute; reflexivity).
    split; [exact He | exact (H _ He)].
  - assert (He : rebiased_exponent (float32_int32 (number_of (-1) (-30))) < -10)
      by (vm_compute; reflexivity).
    split; [exact He | exact (H _ He)].
  - assert (HE : float_exponent (float32_int32 (number_of (-3) (-1))) <= 142)
      by (vm_compute; discriminate).
    assert (Hgrid : (2 ^ Z.max 125 (float_exponent (float32_int32 (number_of (-3) (-1))) + 12)
                     | float_magnitude (float32_int32 (number_of (-3) (-1)))))
      by (exists 1536; vm_compute; reflexivity).
    destruct (Hexact _ HE Hgrid) as (Hs & _ & Hm).
    split; [vm_compute; reflexivity |]. split; [exact Hs | exact Hm].
  - assert (HE : float_exponent (float32_int32 (number_of 3 (-24))) <= 142)
      by (vm_compute; discriminate).
    assert (Hgrid : (2 ^ Z.max 125 (float_exponent (float32_int32 (number_of 3 (-24))) + 12)
                     | float_magnitude (float32_int32 (number_of 3 (-24)))))
      by (exists 3; vm_compute; reflexivity).
    destruct (Hexact _ HE Hgrid) as (_ & _ & Hm).
    split; [vm_compute; reflexivity | exact Hm].
Defined.


(** ** Claims about the EXR writer *)

Lemma writeEXR_layout pixels width height options :
  0 <= width -> 0 <= height ->
  writeEXR pixels width height options
  = Ok (exr_file pixels width height (channels_of options) (pixelType_of options)
          (header_bytes width height (channels_of options) (pixelType_of options))).
Proof. intros Hw Hh. now apply writeEXR_eq. Qed.

Lemma buildHeader_inv width height channels pixelType header :
  buildHeader width height channels pixelType = Ok header ->
  header = header_bytes width height channels pixelType.
Proof. rewrite buildHeader_eq. now intros [= <-]. Qed.

(** [writeEXR] accepts a zero width, a zero height, an empty channel list
    and even a negative width together with a negative height. *)
Lemma writeEXR_accepts_invalid_arguments :
  (exists buffer, writeEXR [] 0 1 default_options = Ok buffer) /\
  (exists buffer, writeEXR [] 1 0 default_options = Ok buffer) /\
  (exists buffer,
      writeEXR [] 1 1 {| options_pixelType := None; options_channels := Some [] |}
      = Ok buffer) /\
  (exists buffer, writeEXR [] (-10) (-1) default_options = Ok buffer).
Proof.
  repeat split.
  - eexists. apply writeEXR_layout; lia.
  - eexists. apply writeEXR_layout; lia.
  - eexists. apply writeEXR_layout; lia.
  - eexists. vm_compute. reflexivity.
Qed.

(** What [new ArrayBuffer] returns when it returns. *)
Lemma ArrayBuffer_new_inv size buffer :
  ArrayBuffer_new size = Ok buffer -> 0 <= size /\ buffer = replicate (Z.to_nat size) 0.
Proof.
  unfold ArrayBuffer_new, TypedArray.make.
  destruct (Z.ltb_spec size 0); [discriminate |]. intros [= <-]. split; [lia | reflexivity].
Qed.

(** C4, as the code has it.  [writeEXR] validates none of its arguments.
    It builds the header, asks for an [ArrayBuffer] of
    totalSize = 8 + headerSize + 8 * height
                + height * (8 + width * numChannels * pixelSize)
    bytes and fills it.  For an integer width and height that are not
    negative and every channel list, the empty one included, it returns a
    buffer of totalSize bytes whenever that allocation is granted, and an
    allocation that throws makes it throw the same.  Whatever it throws is a
    [RangeError], of an allocation or of a write past the end of the buffer;
    once the buffer is allocated, it throws only for a negative width or
    height, and it does so after the allocation (width -1, height 1). *)
Theorem writeEXR_no_validation :
  (forall pixels width height options header buffer,
      let totalSize :=
        8 + Z.of_nat (length header) + 8 * height
        + height * (8 + width * Z.of_nat (length (channels_of options))
                        * pixel_size (pixelType_of options)) in
      buildHeader width height (channels_of options) (pixelType_of options) = Ok header ->
      ArrayBuffer_new totalSize = Ok buffer ->
      (0 <= width -> 0 <= height ->
       exists file,
         writeEXR pixels width height options = Ok file /\
         Z.of_nat (length file) = totalSize) /\
      (forall e,
          writeEXR pixels width height options = Throw e -> width < 0 \/ height < 0)) /\
  (forall pixels width height options header e,
      buildHeader width height (channels_of options) (pixelType_of options) = Ok header ->
      ArrayBuffer_new
        (8 + Z.of_nat (length header) + 8 * height
         + height * (8 + width * Z.of_nat (length (channels_of options))
                         * pixel_size (pixelType_of options))) = Throw e ->
      writeEXR pixels width height options = Throw e) /\
  (forall pixels width height options e,
      writeEXR pixels width height options = Throw e -> e = RangeError) /\
  (exists header buffer,
      buildHeader (-1) 1 (channels_of default_options) (pixelType_of default_options)
      = Ok header /\
      ArrayBuffer_new (writeEXR_totalSize (Z.of_nat (length header)) (-1) 1 4 2) = Ok buffer /\
      writeEXR [] (-1) 1 default_options = Throw RangeError).
Proof.
  assert (Hsize : forall (header : list Z) width height options,
             writeEXR_totalSize (Z.of_nat (length header)) width height
               (Z.of_nat (length (channels_of options))) (pixel_size (pixelType_of options))
             = 8 + Z.of_nat (length header) + 8 * height
               + height * (8 + width * Z.of_nat (length (channels_of options))
                               * pixel_size (pixelType_of options)))
    by (intros; unfold writeEXR_totalSize; lia).
  assert (Hgranted : forall pixels width height options header buffer,
             0 <= width -> 0 <= height ->
             buildHeader width height (channels_of options) (pixelType_of options)
             = Ok header ->
             ArrayBuffer_new
               (8 + Z.of_nat (length header) + 8 * height
                + height * (8 + width * Z.of_nat (length (channels_of options))
                                * pixel_size (pixelType_of options))) = Ok buffer ->
             writeEXR pixels width height options
             = Ok (exr_file pixels width height (channels_of options) (pixelType_of options)
                     header)).
  { intros pixels width height options header buffer Hw Hh Hheader Hbuffer.
    unfold writeEXR. fold (channels_of options). fold (pixelType_of options).
    rewrite Hheader, bind_Ok. fold (pixel_size (pixelType_of options)).
    rewrite Hsize, Hbuffer, bind_Ok.
    apply ArrayBuffer_new_inv in Hbuffer as [_ ->]. rewrite <- Hsize.
    now apply writeEXR_fill_eq. }
  split; [| split; [| split]].
  - intros pixels width height options header buffer totalSize Hheader Hbuffer. split.
    + intros Hw Hh.
      exists (exr_file pixels width height (channels_of options) (pixelType_of options) header).
      split; [now apply (Hgranted pixels width height options header buffer) |].
      rewrite length_exr_file by lia. apply Hsize.
    + intros e He.
      destruct (Z_lt_dec width 0) as [? | Hw]; [now left |].
      destruct (Z_lt_dec height 0) as [? | Hh]; [now right |].
      rewrite (Hgranted pixels width height options header buffer) in He
        by (lia || assumption).
      discriminate.
  - intros pixels width height options header e Hheader Hbuffer.
    unfold writeEXR. fold (channels_of options). fold (pixelType_of options).
    rewrite Hheader, bind_Ok. fold (pixel_size (pixelType_of options)).
    rewrite Hsize, Hbuffer. reflexivity.
  - intros pixels width height options e He.
    now apply (only_RangeError_writeEXR pixels width height options).
  - eexists. eexists. split; [apply buildHeader_eq |].
    split; vm_compute; reflexivity.
Qed.

(** [writeEXR_no_validation] at a 0 x 0 image without channels, whose file
    is the magic number, the version and the header. *)
Lemma writeEXR_no_validation_witness :
  exists header file,
    buildHeader 0 0 [] half = Ok header /\
    writeEXR [] 0 0 {| options_pixelType := None; options_channels := Some [] |} = Ok file /\
    Z.of_nat (length file) = 8 + Z.of_nat (length header) + 8 * 0 + 0 * (8 + 0 * 0 * 2).
Proof.
  destruct writeEXR_no_validation as [H _].
  destruct (buildHeader 0 0 [] half) as [header | e] eqn:Hheader;
    [| vm_compute in Hheader; discriminate].
  destruct (H [] 0 0 {| options_pixelType := None; options_channels := Some [] |} header
              (replicate (Z.to_nat (8 + Z.of_nat (length header))) 0) Hheader)
    as [Hfile _].
  - unfold ArrayBuffer_new. cbn [channels_of pixelType_of options_channels options_pixelType
      default length].
    rewrite TypedArray_make_Ok by lia. do 2 f_equal. lia.
  - destruct Hfile as (file & Hfile & Hlength); [lia | lia |].
    exists header, file. split; [reflexivity |]. split; [exact Hfile | exact Hlength].
Defined.

Lemma scanline_position_bound headerSize width height channels pixelType i :
  0 <= width -> 0 <= i < height -> 0 <= headerSize ->
  0 <= scanline_position headerSize width height channels pixelType i /\
  scanline_position headerSize width height channels pixelType i
  + 8 + scanline_data_size width channels pixelType
  <= writeEXR_totalSize headerSize width height (Z.of_nat (length channels))
       (pixel_size pixelType).
Proof.
  intros Hw Hi Hh. unfold scanline_position, writeEXR_totalSize.
  pose proof (scanline_data_size_nonneg width channels pixelType Hw) as Hsds.
  unfold scanline_data_size in *.
  set (sds := width * Z.of_nat (length channels) * pixel_size pixelType) in *.
  split; nia.
Qed.

(** The claim of C7 fails past 4 GiB: in the buffer [writeEXR] produces
    for a 16384 x 16384 image of float samples, the entry of the last row is
    not the position of its record. *)
Lemma writeEXR_offset_wraps_past_4GiB :
  let options := {| options_pixelType := Some float; options_channels := None |} in
  exists header buffer,
    buildHeader 16384 16384 (channels_of options) (pixelType_of options) = Ok header /\
    writeEXR [] 16384 16384 options = Ok buffer /\
    let position :=
      8 + Z.of_nat (length header) + 8 * 16384 + 16383 * (8 + 16384 * 4 * 4) in
    le_value (slice buffer (8 + Z.of_nat (length header) + 8 * 16383) 8) <> position.
Proof.
  intros options. eexists. eexists.
  split; [apply buildHeader_eq |]. split; [apply writeEXR_layout; lia |].
  rewrite exr_file_offset_entry by lia. rewrite le_value_offset_entry.
  vm_compute. discriminate.
Qed.

(** C7, as the code has it.  In a buffer produced by [writeEXR] for a
    positive width and height, entry [i] of the offset table, the eight bytes
    at [8 + headerSize + 8 * i], has four zero high bytes and holds in its
    four low bytes, little-endian, the position
    [8 + headerSize + 8 * height + i * (8 + width * numChannels * pixelSize)]
    of the record of scanline [i] modulo 2^32; the entry equals the position
    whenever the position is below 2^32, as it is throughout a file under
    4 GiB; the record of scanline [i] is found at the position. *)
Theorem writeEXR_offset_table pixels width height options header buffer i :
  let headerSize := Z.of_nat (length header) in
  let numChannels := Z.of_nat (length (channels_of options)) in
  let pixelSize := pixel_size (pixelType_of options) in
  let position :=
    8 + headerSize + 8 * height + i * (8 + width * numChannels * pixelSize) in
  let entry := slice buffer (8 + headerSize + 8 * i) 8 in
  0 < width -> 0 < height ->
  buildHeader width height (channels_of options) (pixelType_of options) = Ok header ->
  writeEXR pixels width height options = Ok buffer ->
  0 <= i < height ->
  length entry = 8%nat /\
  (forall b, b ∈ entry -> 0 <= b < 256) /\
  drop 4 entry = [0; 0; 0; 0] /\
  le_value entry = position mod 2 ^ 32 /\
  (position < 2 ^ 32 -> le_value entry = position) /\
  (Z.of_nat (length buffer) < 2 ^ 32 -> position < 2 ^ 32) /\
  slice buffer position (8 + width * numChannels * pixelSize)
  = scanline_record pixels width (channels_of options) (pixelType_of options) i.
Proof.
  intros headerSize numChannels pixelSize position entry Hw Hh Hheader Hbuffer Hi.
  apply buildHeader_inv in Hheader.
  rewrite writeEXR_layout in Hbuffer by lia. injection Hbuffer as Hbuffer.
  rewrite <- Hheader in Hbuffer. subst buffer.
  assert (Hpos : position
                 = scanline_position headerSize width height (channels_of options)
                     (pixelType_of options) i) by reflexivity.
  destruct (scanline_position_bound headerSize width height (channels_of options)
              (pixelType_of options) i) as [Hp0 Hp1]; [lia | lia | unfold headerSize; lia |].
  pose proof (scanline_data_size_nonneg width (channels_of options) (pixelType_of options)
                ltac:(lia)) as Hsds.
  assert (Hentry : entry = offset_entry position).
  { unfold entry. rewrite Hpos. apply exr_file_offset_entry; lia. }
  rewrite Hentry. split; [| split; [| split; [| split; [| split; [| split]]]]].
  - apply length_offset_entry.
  - intros b. unfold offset_entry. rewrite elem_of_app.
    intros [Hb | Hb]; eapply le_bytes_byte; exact Hb.
  - unfold offset_entry. rewrite drop_app_length' by (now rewrite length_le_bytes). reflexivity.
  - apply le_value_offset_entry.
  - intros Hsmall. rewrite le_value_offset_entry. apply Z.mod_small. lia.
  - rewrite length_exr_file by lia. fold headerSize. lia.
  - rewrite Hpos. apply exr_file_scanline_record; lia.
Qed.

(** [writeEXR_offset_table] on a 2 x 2 image with the default options and
    [i = 1]. *)
Lemma writeEXR_offset_table_witness :
  let pixels := (fun z => number_of z 0) <$> [1; 0; 0; 1; 0; 1; 0; 1; 0; 0; 1; 1; 1; 1; 1; 1] in
  let channels := channels_of default_options in
  let pixelType := pixelType_of default_options in
  let header := header_bytes 2 2 channels pixelType in
  let buffer := exr_file pixels 2 2 channels pixelType header in
  let position :=
    8 + Z.of_nat (length header) + 8 * 2
    + 1 * (8 + 2 * Z.of_nat (length channels) * pixel_size pixelType) in
  writeEXR pixels 2 2 default_options = Ok buffer /\
  le_value (slice buffer (8 + Z.of_nat (length header) + 8 * 1) 8) = position /\
  slice buffer position (8 + 2 * Z.of_nat (length channels) * pixel_size pixelType)
  = scanline_record pixels 2 channels pixelType 1.
Proof.
  intros pixels channels pixelType header buffer position.
  assert (Hbuffer : writeEXR pixels 2 2 default_options = Ok buffer)
    by (apply writeEXR_layout; lia).
  split; [exact Hbuffer |].
  destruct (writeEXR_offset_table pixels 2 2 default_options header buffer 1)
    as (_ & _ & _ & _ & Hvalue & _ & Hrecord).
  - lia.
  - lia.
  - apply buildHeader_eq.
  - exact Hbuffer.
  - lia.
  - split; [apply Hvalue; vm_compute; reflexivity | exact Hrecord].
Defined.

Lemma sample_bytes_value pixelType value :
  length (sample_bytes pixelType value) = Z.to_nat (pixel_size pixelType) /\
  (forall b, b ∈ sample_bytes pixelType value -> 0 <= b < 256) /\
  le_value (sample_bytes pixelType value)
  = match pixelType with
    | half => floatToHalf value
    | float => Float32.store value
    end.
Proof.
  split; [apply length_sample_bytes |]. split.
  - intros b. destruct pixelType; apply le_bytes_byte.
  - destruct pixelType; unfold sample_bytes.
    + pose proof (floatToHalf_range value) as Hr.
      unfold JS.ToUint16. rewrite Z.mod_small by lia.
      apply le_value_le_bytes. simpl. lia.
    + apply le_value_le_bytes. unfold Float32.store, JS.ToUint32.
      change (2 ^ (8 * Z.of_nat 4)) with (2 ^ 32). apply Z.mod_pos_bound. lia.
Qed.

Lemma scanline_payload_eq pixels width channels pixelType y :
  scanline_payload pixels width channels pixelType y
  = (channel ← Array_sort channels;
     x ← range 0 (Z.to_nat width);
     sample_bytes pixelType
       (pixel_value pixels ((y * width + x) * 4 + getChannelIndex channel))).
Proof.
  unfold scanline_payload. apply list_bind_ext; [| reflexivity].
  intros channel. apply channel_row_eq.
Qed.

(** The claim of C8 fails when a field is too narrow for its value: for an
    image of 2^28 pixels per row with float samples, the payload of a
    scanline has 2^32 bytes and the length field of its record holds 0. *)
Lemma writeEXR_payload_length_wraps :
  let options := {| options_pixelType := Some float; options_channels := None |} in
  let width := 2 ^ 28 in
  let payloadSize := width * 4 * 4 in
  exists header buffer,
    buildHeader width 1 (channels_of options) (pixelType_of options) = Ok header /\
    writeEXR [] width 1 options = Ok buffer /\
    let record :=
      slice buffer (8 + Z.of_nat (length header) + 8 * 1 + 0 * (8 + payloadSize))
        (8 + payloadSize) in
    le_value (take 4 (drop 4 record)) = 0 /\
    le_value (take 4 (drop 4 record)) <> payloadSize.
Proof.
  intros options width payloadSize. eexists. eexists.
  split; [apply buildHeader_eq |]. split; [apply writeEXR_layout; unfold width; lia |].
  pose proof (exr_file_scanline_record [] width 1 (channels_of options) (pixelType_of options)
                (header_bytes width 1 (channels_of options) (pixelType_of options)) 0)
    as Hrecord.
  unfold scanline_position in Hrecord.
  change (scanline_data_size width (channels_of options) (pixelType_of options))
    with payloadSize in Hrecord.
  rewrite Hrecord by (unfold width; lia). unfold scanline_record.
  rewrite drop_app_length' by (now rewrite length_le_bytes).
  rewrite take_app_length' by (now rewrite length_le_bytes).
  rewrite le_value_le_bytes_mod.
  change (scanline_data_size width (channels_of options) (pixelType_of options))
    with payloadSize.
  split; vm_compute; [reflexivity | discriminate].
Qed.

(** C8, as the code has it.  In a buffer produced by [writeEXR] for a
    positive width and height, the record of scanline [y] starts with the row
    number [y] as a little-endian int32 and the payload length
    [width * numChannels * pixelSize] as a little-endian uint32, each reduced
    to the 32 bits of its field and hence exact for rows below 2^31 and
    payloads below 2^32 bytes; its payload lists the channels in increasing
    order of their names (A, B, G, R by default), each channel with its whole
    row of samples, each sample the little-endian binary16 (2 bytes) or
    binary32 (4 bytes) of the pixel component. *)
Theorem writeEXR_scanline_record pixels width height options header buffer y :
  let channels := channels_of options in
  let pixelType := pixelType_of options in
  let pixelSize := match pixelType with half => 2 | float => 4 end in
  let payloadSize := width * Z.of_nat (length channels) * pixelSize in
  let position := 8 + Z.of_nat (length header) + 8 * height + y * (8 + payloadSize) in
  let record := slice buffer position (8 + payloadSize) in
  let sortedChannels := Array_sort channels in
  0 < width -> 0 < height ->
  buildHeader width height channels pixelType = Ok header ->
  writeEXR pixels width height options = Ok buffer ->
  0 <= y < height ->
  JS.ToInt32 (le_value (take 4 record)) = JS.ToInt32 y /\
  (y < 2 ^ 31 -> le_value (take 4 record) = y) /\
  le_value (take 4 (drop 4 record)) = JS.ToUint32 payloadSize /\
  (payloadSize < 2 ^ 32 -> le_value (take 4 (drop 4 record)) = payloadSize) /\
  (Z.of_nat (length buffer) < 2 ^ 32 -> y < 2 ^ 31 /\ payloadSize < 2 ^ 32) /\
  drop 8 record
  = (channel ← sortedChannels;
     x ← range 0 (Z.to_nat width);
     sample_bytes pixelType
       (pixel_value pixels ((y * width + x) * 4 + getChannelIndex channel))) /\
  Sorted string_le sortedChannels /\
  sortedChannels ≡ₚ channels /\
  (options_channels options = None -> sortedChannels = ["A"; "B"; "G"; "R"]) /\
  (forall value,
      length (sample_bytes pixelType value) = Z.to_nat pixelSize /\
      (forall b, b ∈ sample_bytes pixelType value -> 0 <= b < 256) /\
      le_value (sample_bytes pixelType value)
      = match pixelType with
        | half => floatToHalf value
        | float => Float32.store value
        end).
Proof.
  intros channels pixelType pixelSize payloadSize position record sortedChannels
    Hw Hh Hheader Hbuffer Hy.
  apply buildHeader_inv in Hheader.
  rewrite writeEXR_layout in Hbuffer by lia. injection Hbuffer as Hbuffer.
  fold channels pixelType in Hbuffer.
  rewrite <- Hheader in Hbuffer. subst buffer.
  assert (Hps : pixelSize = pixel_size pixelType) by reflexivity.
  assert (Hpayload : payloadSize = scanline_data_size width channels pixelType)
    by reflexivity.
  assert (Hpos : position
                 = scanline_position (Z.of_nat (length header)) width height channels
                     pixelType y) by reflexivity.
  pose proof (scanline_data_size_nonneg width channels pixelType ltac:(lia)) as Hsds.
  assert (Hrecord : record = scanline_record pixels width channels pixelType y).
  { unfold record. rewrite Hpos, Hpayload. apply exr_file_scanline_record; lia. }
  assert (Hrow : le_value (take 4 (scanline_record pixels width channels pixelType y))
                 = JS.ToInt32 y mod 2 ^ 32).
  { unfold scanline_record. rewrite take_app_length' by (now rewrite length_le_bytes).
    apply le_value_le_bytes_mod. }
  assert (Hlen : le_value (take 4 (drop 4 (scanline_record pixels width channels pixelType y)))
                 = JS.ToUint32 payloadSize).
  { unfold scanline_record. rewrite drop_app_length' by (now rewrite length_le_bytes).
    rewrite take_app_length' by (now rewrite length_le_bytes).
    rewrite le_value_le_bytes_mod, <- Hpayload. unfold JS.ToUint32.
    change (2 ^ (8 * Z.of_nat 4)) with (2 ^ 32). apply Z.mod_mod. lia. }
  rewrite Hrecord.
  split; [| split; [| split; [| split; [| split; [| split; [| split; [| split; [| split]]]]]]]].
  - rewrite Hrow. unfold JS.ToInt32 at 1. rewrite Zplus_mod_idemp_l.
    fold (JS.ToInt32 (JS.ToInt32 y)). apply ToInt32_small, ToInt32_range.
  - intros Hy31. rewrite Hrow, ToInt32_small by lia. apply Z.mod_small. lia.
  - exact Hlen.
  - intros Hsmall. rewrite Hlen. unfold JS.ToUint32. apply Z.mod_small. lia.
  - rewrite length_exr_file by lia. unfold writeEXR_totalSize.
    fold (scanline_data_size width channels pixelType). rewrite <- Hpayload.
    intros Hfile. split; nia.
  - unfold scanline_record. rewrite app_assoc.
    rewrite drop_app_length' by (now rewrite length_app, !length_le_bytes).
    apply scanline_payload_eq.
  - apply Array_sort_Sorted.
  - apply Array_sort_Permutation.
  - intros Hnone. unfold sortedChannels, channels, channels_of. rewrite Hnone.
    vm_compute. reflexivity.
  - intros value. rewrite Hps. apply sample_bytes_value.
Qed.

(** [writeEXR_scanline_record] on a 2 x 2 image with the default options and
    [y = 1]. *)
Lemma writeEXR_scanline_record_witness :
  let pixels := (fun z => number_of z 0) <$> [1; 0; 0; 1; 0; 1; 0; 1; 0; 0; 1; 1; 1; 1; 1; 1] in
  let channels := channels_of default_options in
  let pixelType := pixelType_of default_options in
  let header := header_bytes 2 2 channels pixelType in
  let buffer := exr_file pixels 2 2 channels pixelType header in
  let payloadSize := 2 * Z.of_nat (length channels) * 2 in
  let record :=
    slice buffer (8 + Z.of_nat (length header) + 8 * 2 + 1 * (8 + payloadSize))
      (8 + payloadSize) in
  writeEXR pixels 2 2 default_options = Ok buffer /\
  le_value (take 4 record) = 1 /\
  le_value (take 4 (drop 4 record)) = payloadSize /\
  drop 8 record
  = (channel ← ["A"; "B"; "G"; "R"];
     x ← range 0 2;
     sample_bytes pixelType (pixel_value pixels ((1 * 2 + x) * 4 + getChannelIndex channel))).
Proof.
  intros pixels channels pixelType header buffer payloadSize record.
  assert (Hbuffer : writeEXR pixels 2 2 default_options = Ok buffer)
    by (apply writeEXR_layout; lia).
  split; [exact Hbuffer |].
  destruct (writeEXR_scanline_record pixels 2 2 default_options header buffer 1)
    as (_ & Hrow & _ & Hsize & _ & Hpayload & _ & _ & Hdefault & _).
  - lia.
  - lia.
  - apply buildHeader_eq.
  - exact Hbuffer.
  - lia.
  - split; [apply Hrow; lia |]. split; [apply Hsize; vm_compute; reflexivity |].
    rewrite <- (Hdefault eq_refl). exact Hpayload.
Defined.

Lemma getChannelIndex_unknown channel : unknown_channel channel -> getChannelIndex channel = 0.
Proof.
  intros (HR & HG & HB & HA). unfold getChannelIndex.
  repeat match goal with
         | |- context [String.eqb ?a ?b] =>
             destruct (String.eqb_spec a b); [congruence |]
         end.
  reflexivity.
Qed.

Lemma exr_file_header pixels width height channels pixelType header :
  slice (exr_file pixels width height channels pixelType header) 8 (Z.of_nat (length header))
  = header.
Proof.
  unfold exr_file.
  set (magic := le_bytes 4 _). set (version := le_bytes 4 _).
  assert (Hmagic : length magic = 4%nat) by apply length_le_bytes.
  assert (Hversion : length version = 4%nat) by apply length_le_bytes.
  replace 8 with (Z.of_nat (length magic) + (Z.of_nat (length version) + 0)) by lia.
  rewrite !slice_app_r by lia. rewrite slice_app_l by lia.
  unfold slice. change (Z.to_nat 0) with 0%nat. rewrite drop_0, Nat2Z.id. apply take_ge. lia.
Qed.

(** C9.  For a channel name whose upper-cased form is none of R, G, B, A,
    [getChannelIndex] returns 0, and [writeEXR] called with such a name among
    its channels (and non-negative sizes) does not fail: the header lists
    the channel under its own name, and in every scanline the row stored for
    it holds the samples of interleaved index 0, the red component. *)
Theorem writeEXR_unknown_channel channel :
  unknown_channel channel ->
  getChannelIndex channel = 0 /\
  forall pixels width height options channels,
    options_channels options = Some channels ->
    channel ∈ channels ->
    0 <= width -> 0 <= height ->
    let pixelType := pixelType_of options in
    let payloadSize := width * Z.of_nat (length channels) * pixel_size pixelType in
    exists buffer header before after rest,
      writeEXR pixels width height options = Ok buffer /\
      Array_sort channels = before ++ channel :: after /\
      buildHeader width height channels pixelType = Ok header /\
      slice buffer 8 (Z.of_nat (length header)) = header /\
      header
      = attribute_bytes "channels" "chlist"
          ((name ← before; channel_entry_bytes pixelType name)
           ++ (cstring channel ++ le_bytes 4 (JS.ToInt32 (pixel_type_tag pixelType))
               ++ [1; 0; 0; 0] ++ le_bytes 4 (JS.ToInt32 1) ++ le_bytes 4 (JS.ToInt32 1))
           ++ (name ← after; channel_entry_bytes pixelType name)
           ++ [0])
        ++ rest /\
      forall y, 0 <= y < height ->
        slice buffer (8 + Z.of_nat (length header) + 8 * height + y * (8 + payloadSize))
          (8 + payloadSize)
        = le_bytes 4 (JS.ToInt32 y) ++ le_bytes 4 (JS.ToUint32 payloadSize)
          ++ (name ← before; channel_row pixels width pixelType y name)
          ++ red_row pixels width pixelType y
          ++ (name ← after; channel_row pixels width pixelType y name).
Proof.
  intros Hunknown. pose proof (getChannelIndex_unknown channel Hunknown) as Hindex.
  split; [exact Hindex |].
  intros pixels width height options channels Hchannels Hin Hw Hh pixelType payloadSize.
  assert (Hsplit : exists before after, Array_sort channels = before ++ channel :: after).
  { apply list_elem_of_split. rewrite Array_sort_Permutation. exact Hin. }
  destruct Hsplit as (before & after & Hsorted).
  assert (Hco : channels_of options = channels).
  { unfold channels_of. now rewrite Hchannels. }
  exists (exr_file pixels width height channels pixelType
            (header_bytes width height channels pixelType)).
  exists (header_bytes width height channels pixelType), before, after.
  eexists.
  split; [rewrite <- Hco; now apply writeEXR_layout |].
  split; [exact Hsorted |].
  split; [apply buildHeader_eq |].
  split; [apply exr_file_header |].
  split.
  - unfold header_bytes at 1. unfold chlist_bytes. rewrite Hsorted.
    rewrite bind_app, bind_cons. unfold channel_entry_bytes at 2.
    rewrite <- !app_assoc. reflexivity.
  - intros y Hy.
    pose proof (exr_file_scanline_record pixels width height channels pixelType
                  (header_bytes width height channels pixelType) y Hw Hy) as Hrecord.
    unfold scanline_position, scanline_data_size in Hrecord. fold payloadSize in Hrecord.
    rewrite Hrecord. unfold scanline_record, scanline_payload.
    fold (scanline_data_size width channels pixelType).
    rewrite Hsorted, bind_app, bind_cons.
    rewrite (channel_row_eq pixels width pixelType y channel), Hindex.
    reflexivity.
Qed.

(** [writeEXR_unknown_channel] for the single luminance channel ["Y"] of a
    1 x 1 image: the sample stored is the red component 0.5 as a half. *)
Lemma writeEXR_unknown_channel_witness :
  getChannelIndex "Y" = 0 /\
  exists buffer,
    writeEXR [number_of 1 (-1); number_of 1 0; number_of 1 0; number_of 1 0] 1 1
      {| options_pixelType := None; options_channels := Some ["Y"] |} = Ok buffer.
Proof.
  destruct (writeEXR_unknown_channel "Y") as [Hindex Hwrite].
  - unfold unknown_channel. vm_compute. repeat split; discriminate.
  - split; [exact Hindex |].
    destruct (Hwrite [number_of 1 (-1); number_of 1 0; number_of 1 0; number_of 1 0] 1 1
                {| options_pixelType := None; options_channels := Some ["Y"] |} ["Y"])
      as (buffer & _ & _ & _ & _ & Hbuffer & _).
    + reflexivity.
    + apply list_elem_of_singleton. reflexivity.
    + lia.
    + lia.
    + exists buffer. exact Hbuffer.
Defined.

(** ** Claim about the pixel flipper *)

(** C6.  For a buffer [b] of [width * height * channels] elements of any
    element type (the rows being counted by a non-negative [height]),
    [flipPixelsVertically] returns a new array of the same element type and
    length in which row [height - 1 - i] holds row [i] of the input; the
    input and every other array of the store are left as they were; and
    flipping the result again gives an array equal to the input. *)
Theorem flipPixelsVertically_pure_involutive {A : Type} (zero : A)
    (store : gmap nat (list A)) (data : nat) (b : list A) (width height channels : Z) :
  store !! data = Some b ->
  0 <= height ->
  Z.of_nat (length b) = width * height * channels ->
  exists store' flipped b',
    flipPixelsVertically zero store data width height channels = Ok (store', flipped) /\
    store !! flipped = None /\
    store' !! flipped = Some b' /\
    (forall r, r <> flipped -> store' !! r = store !! r) /\
    store' !! data = Some b /\
    length b' = length b /\
    (forall i j, 0 <= i < height -> 0 <= j < width * channels ->
       b' !! Z.to_nat ((height - 1 - i) * (width * channels) + j)
       = b !! Z.to_nat (i * (width * channels) + j)) /\
    exists store'' flipped',
      flipPixelsVertically zero store' flipped width height channels
      = Ok (store'', flipped') /\
      store'' !! flipped' = Some b.
Proof.
  intros Hdata Hh Hlen.
  set (rowSize := Z.to_nat (width * channels)). set (n := Z.to_nat height).
  set (flipped := fresh (dom store)).
  set (b' := flip_rows b rowSize n).
  assert (Hfresh : store !! flipped = None) by (apply not_elem_of_dom, is_fresh).
  assert (Hne : data <> flipped) by (intros ->; congruence).
  assert (Hb : length b = (n * rowSize)%nat).
  { destruct (Z.eq_dec height 0) as [-> | Hpos]; [unfold n; simpl; lia |].
    assert (0 <= width * channels) by nia. unfold n, rowSize. nia. }
  assert (Hb' : length b' = length b) by (unfold b'; rewrite length_flip_rows; lia).
  exists (<[flipped := b']> store), flipped, b'.
  split; [now apply flipPixelsVertically_eq |].
  split; [exact Hfresh |].
  split; [apply lookup_insert_eq |].
  split; [intros r Hr; now apply lookup_insert_ne |].
  split; [rewrite lookup_insert_ne by congruence; exact Hdata |].
  split; [exact Hb' |].
  split.
  - intros i j Hi Hj. unfold b'.
    replace (Z.to_nat ((height - 1 - i) * (width * channels) + j))
      with ((n - 1 - Z.to_nat i) * rowSize + Z.to_nat j)%nat by (unfold n, rowSize; nia).
    replace (Z.to_nat (i * (width * channels) + j))
      with (Z.to_nat i * rowSize + Z.to_nat j)%nat by (unfold n, rowSize; nia).
    apply lookup_flip_rows; unfold n, rowSize; lia.
  - eexists. eexists. split.
    + apply flipPixelsVertically_eq; [apply lookup_insert_eq | exact Hh | lia].
    + rewrite lookup_insert_eq. f_equal. apply flip_rows_involutive. exact Hb.
Qed.

(** [flipPixelsVertically_pure_involutive] on a 1 x 3 image of two channels
    with 8-bit samples and on a 1 x 2 image with floating-point samples. *)
Lemma flipPixelsVertically_pure_involutive_witness :
  (exists store' flipped b',
      flipPixelsVertically 0 {[ 7%nat := [1; 2; 3; 4; 5; 6] ]} 7%nat 1 3 2
      = Ok (store', flipped) /\
      store' !! flipped = Some b' /\
      store' !! 7%nat = Some [1; 2; 3; 4; 5; 6] /\
      b' !! 0%nat = Some 5 /\ b' !! 5%nat = Some 2) /\
  (exists store' flipped b',
      flipPixelsVertically (S754_zero false)
        {[ 7%nat := [number_of 1 0; NaN; number_of 3 0; S754_infinity true] ]} 7%nat 1 2 2
      = Ok (store', flipped) /\
      store' !! flipped = Some b' /\
      b' !! 3%nat = Some NaN).
Proof.
  split.
  - destruct (flipPixelsVertically_pure_involutive 0
                {[ 7%nat := [1; 2; 3; 4; 5; 6] ]} 7%nat [1; 2; 3; 4; 5; 6] 1 3 2)
      as (store' & flipped & b' & Hcall & _ & Hflipped & _ & Hdata & _ & Hrows & _).
    + reflexivity.
    + lia.
    + reflexivity.
    + exists store', flipped, b'.
      split; [exact Hcall |]. split; [exact Hflipped |]. split; [exact Hdata |].
      split; [apply (Hrows 2 0); lia | apply (Hrows 0 1); lia].
  - destruct (flipPixelsVertically_pure_involutive (S754_zero false)
                {[ 7%nat := [number_of 1 0; NaN; number_of 3 0; S754_infinity true] ]}
                7%nat [number_of 1 0; NaN; number_of 3 0; S754_infinity true] 1 2 2)
      as (store' & flipped & b' & Hcall & _ & Hflipped & _ & _ & _ & Hrows & _).
    + reflexivity.
    + lia.
    + reflexivity.
    + exists store', flipped, b'.
      split; [exact Hcall |]. split; [exact Hflipped |].
      apply (Hrows 0 1); lia.
Defined.

(** ** Claim about the readback *)

(** A read of the region [x = 2, y = 2, width = 4, height = 4] of a 4 x 4
    float target lies outside the target; on a device that accepts it,
    [readPixelsAsync] creates the transfer buffer, submits the copy, maps the
    buffer and resolves. *)
Lemma readPixelsAsync_out_of_bounds_not_rejected :
  let texture := {| texture_width := 4; texture_height := 4; texture_format := "rgba32float" |} in
  let options := {| options_x := Some 2; options_y := Some 2;
                    options_width := Some 4; options_height := Some 4 |} in
  ~ region_in_bounds texture 2 2 4 4 /\
  exists data,
    readPixelsAsync (accepting_device webgpu) (SourceFramebuffer texture) options
    = ([createBuffer 1024; createCommandEncoder; copyTextureToBuffer 2 2 256 4 4 4; finish;
        submit; mapAsync; getMappedRange; unmap; destroyBuffer],
       Ok {| result_data := data; result_width := 4; result_height := 4;
             result_channels := 4 |}).
Proof.
  intros texture options. split.
  - unfold region_in_bounds. simpl. lia.
  - eexists. vm_compute. reflexivity.
Qed.

(** C5, as the code has it.  [readPixelsAsync] checks no bounds: whatever
    the region, the WebGPU path starts by creating the transfer buffer of
    [ceil(width * bytesPerPixel / 256) * 256 * height] bytes and, the device
    accepting, records and submits the copy of exactly that region and asks
    for the mapping; the WebGL path, once its output array is allocated, hands
    the region unchanged to [readPixelsToArrayWebGL].  The promise resolves
    exactly when the device accepts every call ([createBuffer],
    [copyTextureToBuffer], [submit] and [mapAsync] on WebGPU;
    [createFramebuffer] for a texture source and [readPixelsToArrayWebGL] on
    WebGL) and the result array of [width * height * 4] elements is
    allocated; when it rejects, the error is the one of the device or of that
    allocation.  None of these conditions compares the region with the size
    of the target. *)
Theorem readPixelsAsync_no_bounds_check device source options :
  let x := region_x options in
  let y := region_y options in
  let width := region_width source options in
  let height := region_height source options in
  let bytesPerRow := transfer_bytesPerRow source options in
  let calls := fst (readPixelsAsync device source options) in
  let outcome := snd (readPixelsAsync device source options) in
  (device_type device = webgpu ->
   (exists rest, calls = createBuffer (bytesPerRow * height) :: rest) /\
   (on_createBuffer device (bytesPerRow * height) = Ok tt ->
    on_copyTextureToBuffer device x y bytesPerRow height width height = Ok tt ->
    on_submit device = Ok tt ->
    exists rest,
      calls = [createBuffer (bytesPerRow * height); createCommandEncoder;
               copyTextureToBuffer x y bytesPerRow height width height; finish; submit;
               mapAsync] ++ rest) /\
   ((exists r, outcome = Ok r) <->
    on_createBuffer device (bytesPerRow * height) = Ok tt /\
    on_copyTextureToBuffer device x y bytesPerRow height width height = Ok tt /\
    on_submit device = Ok tt /\
    (exists mapped, on_mapAsync device (bytesPerRow * height) = Ok mapped) /\
    (exists data, result_array source options = Ok data)) /\
   (forall e,
       outcome = Throw e ->
       on_createBuffer device (bytesPerRow * height) = Throw e \/
       on_copyTextureToBuffer device x y bytesPerRow height width height = Throw e \/
       on_submit device = Throw e \/
       on_mapAsync device (bytesPerRow * height) = Throw e \/
       result_array source options = Throw e)) /\
  (device_type device = webgl ->
   (0 <= width * height * 4 ->
    on_createFramebuffer device = Ok tt ->
    readPixelsToArrayWebGL x y width height ∈ calls) /\
   ((exists r, outcome = Ok r) <->
    (forall texture, source = SourceTexture texture -> on_createFramebuffer device = Ok tt) /\
    (exists data data',
        result_array source options = Ok data /\
        on_readPixelsToArrayWebGL device x y width height data = Ok data')) /\
   (forall e,
       outcome = Throw e ->
       ((exists texture, source = SourceTexture texture) /\
        on_createFramebuffer device = Throw e) \/
       result_array source options = Throw e \/
       (exists data,
           result_array source options = Ok data /\
           on_readPixelsToArrayWebGL device x y width height data = Throw e))).
Proof.
  intros x y width height bytesPerRow calls outcome. split.
  - intros Htype. split; [| split].
    + unfold calls, readPixelsAsync. rewrite Htype.
      subst x y width height bytesPerRow.
      unfold transfer_bytesPerRow, region_x, region_y, region_width, region_height,
        source_texture.
      unfold readPixelsWebGPU, mbind, gpu_bind, call, pure_step. simpl app.
      destruct (on_createBuffer device _); [| eexists; reflexivity].
      destruct (on_copyTextureToBuffer device _ _ _ _ _ _); [| eexists; reflexivity].
      destruct (on_submit device); [| eexists; reflexivity].
      destruct (on_mapAsync device _); [| eexists; reflexivity].
      destruct (if includes _ _ then _ else _); eexists; reflexivity.
    + unfold calls, readPixelsAsync. rewrite Htype.
      subst x y width height bytesPerRow.
      unfold transfer_bytesPerRow, region_x, region_y, region_width, region_height,
        source_texture.
      unfold readPixelsWebGPU, mbind, gpu_bind, call, pure_step. simpl app.
      intros -> -> ->.
      destruct (on_mapAsync device _); [| exists []; reflexivity].
      destruct (if includes _ _ then _ else _); eexists; reflexivity.
    + assert (Houtcome :
        outcome
        = (_ ← on_createBuffer device (bytesPerRow * height);
           _ ← on_copyTextureToBuffer device x y bytesPerRow height width height;
           _ ← on_submit device;
           mapped ← on_mapAsync device (bytesPerRow * height);
           data ←
             (if includes (texture_format (source_texture source)) "float"
              then
                data ← TypedArray.make (S754_zero false) (width * height * 4);
                data ← copy_rows data (Float32Array_view mapped) (bytesPerRow / 4)
                         (width * 4) height;
                Ok (Float32Data data)
              else
                data ← TypedArray.make 0 (width * height * 4);
                data ← copy_rows data mapped (bytesPerRow / 1) (width * 4) height;
                Ok (Uint8Data data));
           Ok {| result_data := data; result_width := width; result_height := height;
                 result_channels := 4 |})).
      { unfold outcome, readPixelsAsync. rewrite Htype.
        subst x y width height bytesPerRow.
        unfold transfer_bytesPerRow, region_x, region_y, region_width, region_height,
          source_texture.
        unfold readPixelsWebGPU. unfold mbind at 1 2 3 4 5 6 7 8 9 10, gpu_bind, call, pure_step.
        destruct (on_createBuffer device _) as [[] |]; [| reflexivity].
        destruct (on_copyTextureToBuffer device _ _ _ _ _ _) as [[] |]; [| reflexivity].
        destruct (on_submit device) as [[] |]; [| reflexivity].
        destruct (on_mapAsync device _) as [mapped |]; [| reflexivity].
        rewrite !bind_Ok.
        destruct (if includes _ _ then _ else _); reflexivity. }
      rewrite Houtcome. clear Houtcome.
      destruct (on_createBuffer device _) as [[] | e1];
        [| split; [split; [intros [r Hr]; discriminate | intros (H & _); discriminate]
                  | intros e [= <-]; auto]].
      destruct (on_copyTextureToBuffer device _ _ _ _ _ _) as [[] | e2];
        [| split; [split; [intros [r Hr]; discriminate | intros (_ & H & _); discriminate]
                  | intros e [= <-]; auto]].
      destruct (on_submit device) as [[] | e3];
        [| split; [split; [intros [r Hr]; discriminate | intros (_ & _ & H & _); discriminate]
                  | intros e [= <-]; auto]].
      destruct (on_mapAsync device _) as [mapped | e4];
        [| split; [split; [intros [r Hr]; discriminate
                          | intros (_ & _ & _ & [mapped H] & _); discriminate]
                  | intros e [= <-]; auto 6]].
      rewrite !bind_Ok.
      pose proof (readPixelsWebGPU_data source options mapped) as Hdata.
      cbn zeta in Hdata. fold width height bytesPerRow in Hdata.
      destruct (result_array source options) as [data0 | e5].
      * destruct Hdata as [data ->]. rewrite bind_Ok. split.
        -- split; [intros _; repeat split; eauto | intros _; eexists; reflexivity].
        -- intros e [=].
      * rewrite Hdata. split.
        -- split; [intros [r Hr]; discriminate
                  | intros (_ & _ & _ & _ & [data H]); discriminate].
        -- intros e [= <-]. auto 6.
  - intros Htype.
    assert (Houtcome :
      outcome
      = (_ ← match source with
             | SourceFramebuffer _ => Ok tt
             | SourceTexture _ => on_createFramebuffer device
             end;
         data ← result_array source options;
         data' ← on_readPixelsToArrayWebGL device x y width height data;
         Ok {| result_data := data'; result_width := width; result_height := height;
               result_channels := 4 |})).
    { unfold outcome, readPixelsAsync. rewrite Htype. unfold result_array.
      subst x y width height.
      unfold region_x, region_y, region_width, region_height, source_texture.
      unfold readPixelsWebGL, gpu_bind, call, mret, gpu_ret, pure_step.
      destruct source as [texture | texture]; unfold mbind at 1 2 3 4 5, gpu_bind; cbn [fst snd].
      - destruct (if includes _ _ then _ else _) as [data |]; [| reflexivity].
        rewrite !bind_Ok.
        destruct (on_readPixelsToArrayWebGL device _ _ _ _ data); reflexivity.
      - unfold call. destruct (on_createFramebuffer device) as [[] |]; [| reflexivity].
        cbn [fst snd]. rewrite bind_Ok.
        destruct (if includes _ _ then _ else _) as [data |]; [| reflexivity].
        rewrite !bind_Ok.
        destruct (on_readPixelsToArrayWebGL device _ _ _ _ data); reflexivity. }
    split; [| split].
    + intros Hsize Hfb. unfold calls, readPixelsAsync. rewrite Htype.
      assert (Hmake : forall {A : Type} (zero : A),
                 TypedArray.make zero (width * height * 4)
                 = Ok (replicate (Z.to_nat (width * height * 4)) zero))
        by (intros; now apply TypedArray_make_Ok).
      subst x y width height.
      unfold region_x, region_y, region_width, region_height, source_texture in *.
      unfold readPixelsWebGL, mbind, gpu_bind, call, mret, gpu_ret, pure_step.
      rewrite Hfb.
      destruct source as [texture | texture]; simpl fst; simpl snd;
        unfold fmap, result_fmap; rewrite !Hmake; simpl app;
        destruct (includes (texture_format texture) "float");
        destruct (on_readPixelsToArrayWebGL device _ _ _ _ _); simpl; set_solver.
    + rewrite Houtcome. split.
      * intros [r Hr].
        destruct source as [texture | texture].
        -- rewrite bind_Ok in Hr. split; [intros texture' [=] |].
           destruct (result_array _ options) as [data |]; [| discriminate].
           rewrite bind_Ok in Hr.
           destruct (on_readPixelsToArrayWebGL device x y width height data) as [data' |]
             eqn:Hread; [| discriminate].
           exists data, data'. split; [reflexivity | exact Hread].
        -- destruct (on_createFramebuffer device) as [[] |]; [| discriminate].
           rewrite bind_Ok in Hr. split; [reflexivity |].
           destruct (result_array _ options) as [data |]; [| discriminate].
           rewrite bind_Ok in Hr.
           destruct (on_readPixelsToArrayWebGL device x y width height data) as [data' |]
             eqn:Hread; [| discriminate].
           exists data, data'. split; [reflexivity | exact Hread].
      * intros (Hfb & data & data' & -> & Hread).
        assert (Hstart : match source with
                         | SourceFramebuffer _ => Ok tt
                         | SourceTexture _ => on_createFramebuffer device
                         end = Ok tt)
          by (destruct source as [texture | texture]; [reflexivity | now apply (Hfb texture)]).
        rewrite Hstart, !bind_Ok, Hread, bind_Ok. eexists. reflexivity.
    + rewrite Houtcome. intros e He.
      destruct source as [texture | texture].
      * rewrite bind_Ok in He.
        destruct (result_array _ options) as [data | e'];
          [| injection He as <-; right; left; reflexivity].
        rewrite bind_Ok in He.
        destruct (on_readPixelsToArrayWebGL device x y width height data) as [data' | e'] eqn:Hread;
          [discriminate | injection He as <-].
        right. right. exists data. split; [reflexivity | exact Hread].
      * destruct (on_createFramebuffer device) as [[] | e'];
          [| injection He as <-; left; split; [eexists; reflexivity | reflexivity]].
        rewrite bind_Ok in He.
        destruct (result_array _ options) as [data | e'];
          [| injection He as <-; right; left; reflexivity].
        rewrite bind_Ok in He.
        destruct (on_readPixelsToArrayWebGL device x y width height data) as [data' | e'] eqn:Hread;
          [discriminate | injection He as <-].
        right. right. exists data. split; [reflexivity | exact Hread].
Qed.

(** [readPixelsAsync_no_bounds_check] for the out-of-bounds region
    [x = 2, y = 2, width = 4, height = 4] of a 4 x 4 float target, on both
    kinds of device, and for the region [x = -1, width = -1] on a device that
    accepts every call: the promise rejects with the [RangeError] of the
    allocation of the result array. *)
Lemma readPixelsAsync_no_bounds_check_witness :
  let texture := {| texture_width := 4; texture_height := 4; texture_format := "rgba32float" |} in
  let options := {| options_x := Some 2; options_y := Some 2;
                    options_width := Some 4; options_height := Some 4 |} in
  let negative := {| options_x := Some (-1); options_y := None;
                     options_width := Some (-1); options_height := None |} in
  (exists rest,
      fst (readPixelsAsync (accepting_device webgpu) (SourceFramebuffer texture) options)
      = [createBuffer (256 * 4); createCommandEncoder; copyTextureToBuffer 2 2 256 4 4 4;
         finish; submit; mapAsync] ++ rest) /\
  readPixelsToArrayWebGL 2 2 4 4
  ∈ fst (readPixelsAsync (accepting_device webgl) (SourceFramebuffer texture) options) /\
  (exists r,
      snd (readPixelsAsync (accepting_device webgpu) (SourceFramebuffer texture) options)
      = Ok r) /\
  snd (readPixelsAsync (accepting_device webgl) (SourceFramebuffer texture) negative)
  = Throw RangeError.
Proof.
  intros texture options negative. split; [| split; [| split]].
  - destruct (readPixelsAsync_no_bounds_check (accepting_device webgpu)
                (SourceFramebuffer texture) options) as [[_ [H _]] _]; [reflexivity |].
    apply H; reflexivity.
  - destruct (readPixelsAsync_no_bounds_check (accepting_device webgl)
                (SourceFramebuffer texture) options) as [_ [H _]]; [reflexivity |].
    apply H; [vm_compute; discriminate | reflexivity].
  - destruct (readPixelsAsync_no_bounds_check (accepting_device webgpu)
                (SourceFramebuffer texture) options) as [[_ [_ [H _]]] _]; [reflexivity |].
    apply H. repeat split; try reflexivity; eexists; vm_compute; reflexivity.
  - destruct (readPixelsAsync_no_bounds_check (accepting_device webgl)
                (SourceFramebuffer texture) negative) as [_ [_ [_ H]]]; [reflexivity |].
    destruct (snd (readPixelsAsync (accepting_device webgl) (SourceFramebuffer texture)
                     negative)) as [r | e] eqn:Hout; [vm_compute in Hout; discriminate |].
    destruct (H e eq_refl) as [[_ Hfb] | [Harray | (data & Harray & _)]].
    + discriminate Hfb.
    + vm_compute in Harray. now injection Harray as <-.
    + vm_compute in Harray. discriminate Harray.
Defined.

(** ** Claims about the render loop *)

(** C2.  An iteration over [renderSequence] started on an idle render loop
    enters the export.  However it comes to an end (all frames done, the
    consumer leaving the loop, or an exception of a callback, of the
    readback, of the flip or of the encoder in any frame), the [finally]
    block has set the [_framebuffer] prop of the deck back to the value it
    had when [_beginExport] saved it, and only then reset [_isRendering].
    An iteration given enough fuel for one more [next()] than there are
    frames does not run out of it. *)
Theorem renderSequence_restores_framebuffer {World : Type} (env : @Env World)
    (exporter : Exporter) (options_startFrame : option Z) (options_endFrame : Z)
    (consumer : FrameResult -> bool) (fuel : nat) (m m' : @Machine World)
    (frames : list FrameResult) (ending : RunEnd) :
  _isRendering (loop m) = false ->
  iterate env exporter fuel consumer
    (renderSequence options_startFrame options_endFrame) m = (m', frames, ending) ->
  (Z.max 0 (options_endFrame - default 0 options_startFrame + 1) < Z.of_nat fuel ->
   ending <> OutOfFuel) /\
  (exited ending ->
   prop (deck_props (loop m')) "_framebuffer" = prop (deck_props (loop m)) "_framebuffer" /\
   _isRendering (loop m') = false /\
   exists earlier,
     effects m'
     = earlier ++ [Eff_setProps {[ "_framebuffer" := prop (deck_props (loop m)) "_framebuffer" ]};
                   Eff_originalFramebuffer null;
                   Eff_isRendering false]).
Proof.
  intros Hidle Hrun.
  set (g := renderSequence options_startFrame options_endFrame) in *.
  destruct fuel as [| fuel].
  - simpl in Hrun. injection Hrun as <- <- <-. split; [lia |].
    intros [? | [? | [e ?]]]; discriminate.
  - rewrite (iterate_start env exporter consumer fuel g m eq_refl Hidle) in Hrun.
    split.
    + intros Hfuel.
      pose proof (iterate_suspended_fuel env exporter consumer (S fuel)
                    (in_state g (SuspendedAtYield (startFrame g - 1))) (startFrame g - 1)
                    (after_beginExport exporter m) eq_refl) as Hnot.
      rewrite Hrun in Hnot. apply Hnot. simpl. lia.
    + intros Hexit.
      exact (iterate_suspended env exporter _ consumer (S fuel)
               (in_state g (SuspendedAtYield (startFrame g - 1))) (startFrame g - 1)
               (after_beginExport exporter m) m' frames ending eq_refl
               (exporting_after_beginExport exporter m) Hrun Hexit).
Qed.

(** C3.  While a render sequence is in progress ([_isRendering] is true),
    the first [next()] of a second [renderSequence] generator throws the
    error "A render sequence is already in progress" and changes nothing: the
    deck, the saved framebuffer, the flag and the world are as before, no
    callback, redraw or readback has been performed, and the run in progress
    continues exactly as it would have. *)
Theorem renderSequence_rejects_second_run {World : Type} (env : @Env World)
    (exporter : Exporter) (options_startFrame : option Z) (options_endFrame : Z)
    (m : @Machine World) :
  _isRendering (loop m) = true ->
  let second := renderSequence options_startFrame options_endFrame in
  generator_next env exporter second m
  = (m, Threw (Error "HDRRenderLoop: A render sequence is already in progress")) /\
  (forall consumer fuel,
      iterate env exporter (S fuel) consumer second m
      = (m, [], Failed (Error "HDRRenderLoop: A render sequence is already in progress"))) /\
  (forall consumer fuel (first : Generator),
      iterate env exporter fuel consumer first (fst (generator_next env exporter second m))
      = iterate env exporter fuel consumer first m).
Proof.
  intros Hbusy second.
  assert (Hnext : generator_next env exporter second m
                  = (m, Threw (Error "HDRRenderLoop: A render sequence is already in progress"))).
  { unfold generator_next, second, renderSequence. cbn [generator_state].
    unfold mbind, M_bind, get_isRendering. rewrite Hbusy. reflexivity. }
  split; [exact Hnext |]. split.
  - intros consumer fuel. simpl iterate. rewrite Hnext. reflexivity.
  - intros consumer fuel first. rewrite Hnext. reflexivity.
Qed.

(** C10.  A [renderFrame] call that returns leaves the [_framebuffer] prop
    of the deck equal to the framebuffer of the exporter: it saves nothing
    ([_originalFramebuffer] and [_isRendering] are untouched) and restores
    nothing, so a deck that rendered elsewhere before the call does not
    render there after it. *)
Theorem renderFrame_leaves_framebuffer_redirected {World : Type} (env : @Env World)
    (exporter : Exporter) (frame : Z) (m m' : @Machine World) (exrBuffer : list Z) :
  renderFrame env exporter frame m = (m', Returned exrBuffer) ->
  prop (deck_props (loop m')) "_framebuffer" = framebuffer (exporter_framebuffer exporter) /\
  _originalFramebuffer (loop m') = _originalFramebuffer (loop m) /\
  _isRendering (loop m') = _isRendering (loop m) /\
  (prop (deck_props (loop m)) "_framebuffer" <> framebuffer (exporter_framebuffer exporter) ->
   prop (deck_props (loop m')) "_framebuffer" <> prop (deck_props (loop m)) "_framebuffer").
Proof.
  intros Hcall. unfold renderFrame, mbind, M_bind in Hcall.
  pose proof (private_render_steps env exporter frame m) as Hprivate.
  destruct (render_steps env exporter frame m) as [m1 [r | e |]] eqn:Hsteps;
    [| discriminate | discriminate].
  injection Hcall as <- _.
  apply render_steps_framebuffer in Hsteps. unfold deck_framebuffer in Hsteps.
  unfold private_fields in Hprivate. simpl in Hprivate. injection Hprivate as Ho Hr.
  split; [exact Hsteps |]. split; [exact Ho |]. split; [exact Hr |].
  intros Hne. congruence.
Qed.

(** [renderSequence_restores_framebuffer] on the small scene, where the deck
    renders into framebuffer 0 before the export: the sequence of frame 0
    alone completes; in the sequence of frames 0 to 2 frame 0 is yielded and
    [onUpdateFrame] throws at frame 1; with a failing readback no frame is
    yielded.  Each time the deck renders into framebuffer 0 again. *)
Lemma renderSequence_restores_framebuffer_witness :
  (exists m' frames,
      iterate example_env example_exporter 4 (fun _ => true) (renderSequence None 0)
        example_machine = (m', frames, Completed) /\
      length frames = 1%nat /\
      prop (deck_props (loop m')) "_framebuffer" = framebuffer 0 /\
      _isRendering (loop m') = false) /\
  (exists m' frames,
      iterate example_env example_exporter 4 (fun _ => true) (renderSequence None 2)
        example_machine = (m', frames, Failed (Thrown 7)) /\
      length frames = 1%nat /\
      prop (deck_props (loop m')) "_framebuffer" = framebuffer 0 /\
      _isRendering (loop m') = false) /\
  (exists m' frames,
      iterate example_env_readback_fails example_exporter 4 (fun _ => true)
        (renderSequence (Some 5) 9) example_machine
      = (m', frames, Failed (Error "mapping failed")) /\
      length frames = 0%nat /\
      prop (deck_props (loop m')) "_framebuffer" = framebuffer 0 /\
      _isRendering (loop m') = false).
Proof.
  split; [| split].
  - destruct (iterate example_env example_exporter 4 (fun _ => true) (renderSequence None 0)
                example_machine) as [[m' frames] ending] eqn:Hrun.
    pose proof Hrun as Hvalue. vm_compute in Hvalue.
    injection Hvalue as _ Hframes Hending.
    destruct (renderSequence_restores_framebuffer example_env example_exporter None 0
                (fun _ => true) 4 example_machine m' frames ending eq_refl Hrun)
      as [_ Hrestored].
    destruct Hrestored as (Hfb & Hflag & _).
    + left. now rewrite <- Hending.
    + exists m', frames. rewrite <- Hending. split; [reflexivity |].
      split; [now rewrite <- Hframes |]. split; [exact Hfb | exact Hflag].
  - destruct (iterate example_env example_exporter 4 (fun _ => true) (renderSequence None 2)
                example_machine) as [[m' frames] ending] eqn:Hrun.
    pose proof Hrun as Hvalue. vm_compute in Hvalue.
    injection Hvalue as _ Hframes Hending.
    destruct (renderSequence_restores_framebuffer example_env example_exporter None 2
                (fun _ => true) 4 example_machine m' frames ending eq_refl Hrun)
      as [_ Hrestored].
    destruct Hrestored as (Hfb & Hflag & _).
    + right. right. exists (Thrown 7). now rewrite <- Hending.
    + exists m', frames. rewrite <- Hending. split; [reflexivity |].
      split; [now rewrite <- Hframes |]. split; [exact Hfb | exact Hflag].
  - destruct (iterate example_env_readback_fails example_exporter 4 (fun _ => true)
                (renderSequence (Some 5) 9) example_machine) as [[m' frames] ending] eqn:Hrun.
    pose proof Hrun as Hvalue. vm_compute in Hvalue.
    injection Hvalue as _ Hframes Hending.
    destruct (renderSequence_restores_framebuffer example_env_readback_fails
                example_exporter (Some 5) 9 (fun _ => true) 4 example_machine m' frames
                ending eq_refl Hrun) as [_ Hrestored].
    destruct Hrestored as (Hfb & Hflag & _).
    + right. right. exists (Error "mapping failed"). now rewrite <- Hending.
    + exists m', frames. rewrite <- Hending. split; [reflexivity |].
      split; [now rewrite <- Hframes |]. split; [exact Hfb | exact Hflag].
Defined.

(** [renderSequence_rejects_second_run] on the busy render loop. *)
Lemma renderSequence_rejects_second_run_witness :
  generator_next example_env example_exporter (renderSequence None 2) example_busy_machine
  = (example_busy_machine,
     Threw (Error "HDRRenderLoop: A render sequence is already in progress")).
Proof.
  apply (renderSequence_rejects_second_run example_env example_exporter None 2
           example_busy_machine eq_refl).
Defined.

(** [renderFrame_leaves_framebuffer_redirected] on the small scene: the deck
    rendered into framebuffer 0 before [renderFrame(0)] and renders into the
    exporter's framebuffer 1 after it. *)
Lemma renderFrame_leaves_framebuffer_redirected_witness :
  exists m' exrBuffer,
    renderFrame example_env example_exporter 0 example_machine = (m', Returned exrBuffer) /\
    prop (deck_props (loop example_machine)) "_framebuffer" = framebuffer 0 /\
    prop (deck_props (loop m')) "_framebuffer" = framebuffer 1.
Proof.
  destruct (renderFrame example_env example_exporter 0 example_machine)
    as [m' [exrBuffer | e |]] eqn:Hcall;
    try (exfalso; vm_compute in Hcall; discriminate).
  exists m', exrBuffer. split; [reflexivity |]. split; [reflexivity |].
  apply (renderFrame_leaves_framebuffer_redirected example_env example_exporter 0
           example_machine m' exrBuffer Hcall).
Defined.
(** * Further properties of the code *)

(** ** exr-writer.ts: strings and boxes *)

Lemma utf8_encode_cons c str :
  utf8_encode (String c str) = utf8_encode (String c EmptyString) ++ utf8_encode str.
Proof.
  unfold utf8_encode. cbn [String.list_ascii_of_string]. rewrite bind_cons.
  f_equal. cbn. now rewrite app_nil_r.
Qed.

Lemma utf8_encode_char_nonzero c :
  code_unit c <> 0 -> Forall (fun b => b <> 0) (utf8_encode (String c EmptyString)).
Proof.
  destruct c as [[] [] [] [] [] [] [] []]; intros H; vm_compute in H |- *;
    try (exfalso; now apply H); repeat constructor; discriminate.
Qed.

Lemma utf8_encode_nonzero str : no_NUL str -> Forall (fun b => b <> 0) (utf8_encode str).
Proof.
  unfold no_NUL. induction str as [| c str IH]; intros H; [constructor |].
  cbn [String.list_ascii_of_string] in H. apply Forall_cons in H as [Hc Hs].
  rewrite utf8_encode_cons. apply Forall_app. split; [now apply utf8_encode_char_nonzero | auto].
Qed.

Lemma read_cstring_app bytes rest :
  Forall (fun b => b <> 0) bytes -> read_cstring (bytes ++ 0 :: rest) = Some (bytes, rest).
Proof.
  induction 1 as [| b bytes Hb _ IH]; [reflexivity |].
  cbn [app read_cstring]. destruct (Z.eqb_spec b 0); [contradiction |].
  rewrite IH. reflexivity.
Qed.

Lemma utf8_decode_char c rest :
  utf8_decode (utf8_encode (String c EmptyString) ++ rest)
  = (s ← utf8_decode rest; Some (String c s)).
Proof. destruct c as [[] [] [] [] [] [] [] []]; reflexivity. Qed.

Lemma utf8_decode_encode str : utf8_decode (utf8_encode str) = Some str.
Proof.
  induction str as [| c str IH]; [reflexivity |].
  rewrite utf8_encode_cons, utf8_decode_char, IH. reflexivity.
Qed.

Lemma ToInt32_mod z : JS.ToInt32 (z mod 2 ^ 32) = JS.ToInt32 z.
Proof. unfold JS.ToInt32. now rewrite Zplus_mod_idemp_l. Qed.

Lemma ToInt32_idem z : JS.ToInt32 (JS.ToInt32 z) = JS.ToInt32 z.
Proof. apply ToInt32_small, ToInt32_range. Qed.

Lemma read_int32_le_bytes v rest : read_int32 (le_bytes 4 (JS.ToInt32 v) ++ rest) = JS.ToInt32 v.
Proof.
  unfold read_int32. rewrite take_app_length' by (now rewrite length_le_bytes).
  rewrite le_value_le_bytes_mod. change (2 ^ (8 * Z.of_nat 4)) with (2 ^ 32).
  rewrite ToInt32_mod. apply ToInt32_idem.
Qed.

Lemma read_uint32_le_bytes v rest :
  read_uint32 (le_bytes 4 (JS.ToUint32 v) ++ rest) = JS.ToUint32 v.
Proof.
  unfold read_uint32. rewrite take_app_length' by (now rewrite length_le_bytes).
  rewrite le_value_le_bytes_mod. change (2 ^ (8 * Z.of_nat 4)) with (2 ^ 32).
  unfold JS.ToUint32. apply Z.mod_mod. lia.
Qed.

(** X1.  [stringToBytes] never fails; it returns the UTF-8 bytes of the
    string followed by one null byte.  For a string without the null
    character, reading the bytes back up to the first null and decoding them
    gives the string again, whatever follows the terminator. *)
Theorem stringToBytes_round_trip str :
  exists bytes,
    stringToBytes str = Ok bytes /\
    length bytes = S (length (utf8_encode str)) /\
    last bytes = Some 0 /\
    (no_NUL str ->
     forall rest,
       exists name,
         read_cstring (bytes ++ rest) = Some (name, rest) /\ utf8_decode name = Some str).
Proof.
  exists (cstring str). split; [apply stringToBytes_eq |]. unfold cstring.
  split; [rewrite length_app; simpl; lia |].
  split; [apply last_snoc |].
  intros Hstr rest. exists (utf8_encode str). rewrite <- app_assoc.
  split; [apply read_cstring_app, utf8_encode_nonzero, Hstr | apply utf8_decode_encode].
Qed.

(** [stringToBytes_round_trip] at the name of an attribute and at a name
    with a character outside ASCII. *)
Lemma stringToBytes_round_trip_witness :
  (exists name,
      read_cstring (cstring "dataWindow" ++ [98; 111; 120]) = Some (name, [98; 111; 120]) /\
      utf8_decode name = Some "dataWindow") /\
  (exists bytes,
      stringToBytes (String (char_of 233) "R") = Ok bytes /\ length bytes = 4%nat).
Proof.
  split.
  - destruct (stringToBytes_round_trip "dataWindow") as (bytes & Hbytes & _ & _ & Hread).
    rewrite stringToBytes_eq in Hbytes. injection Hbytes as <-.
    apply Hread. unfold no_NUL. repeat constructor; vm_compute; discriminate.
  - destruct (stringToBytes_round_trip (String (char_of 233) "R"))
      as (bytes & Hbytes & Hlen & _).
    exists bytes. split; [exact Hbytes | exact Hlen].
Defined.

(** X2.  [buildBox2i] never fails; it returns sixteen bytes, and reading
    them back as four little-endian int32 gives the four arguments reduced to
    int32, that is the arguments themselves when they are in the int32
    range. *)
Theorem buildBox2i_round_trip xMin yMin xMax yMax :
  exists box,
    buildBox2i xMin yMin xMax yMax = Ok box /\
    length box = 16%nat /\
    read_int32 box = JS.ToInt32 xMin /\
    read_int32 (drop 4 box) = JS.ToInt32 yMin /\
    read_int32 (drop 8 box) = JS.ToInt32 xMax /\
    read_int32 (drop 12 box) = JS.ToInt32 yMax /\
    (- 2 ^ 31 <= xMin < 2 ^ 31 -> - 2 ^ 31 <= yMin < 2 ^ 31 ->
     - 2 ^ 31 <= xMax < 2 ^ 31 -> - 2 ^ 31 <= yMax < 2 ^ 31 ->
     read_int32 box = xMin /\ read_int32 (drop 4 box) = yMin /\
     read_int32 (drop 8 box) = xMax /\ read_int32 (drop 12 box) = yMax).
Proof.
  exists (box2i_bytes xMin yMin xMax yMax). split; [apply buildBox2i_eq |].
  unfold box2i_bytes.
  assert (H0 : read_int32 (le_bytes 4 (JS.ToInt32 xMin) ++ le_bytes 4 (JS.ToInt32 yMin)
                           ++ le_bytes 4 (JS.ToInt32 xMax) ++ le_bytes 4 (JS.ToInt32 yMax))
               = JS.ToInt32 xMin) by apply read_int32_le_bytes.
  assert (H4 : read_int32 (drop 4 (le_bytes 4 (JS.ToInt32 xMin) ++ le_bytes 4 (JS.ToInt32 yMin)
                                   ++ le_bytes 4 (JS.ToInt32 xMax)
                                   ++ le_bytes 4 (JS.ToInt32 yMax)))
               = JS.ToInt32 yMin).
  { rewrite drop_app_length' by (now rewrite length_le_bytes). apply read_int32_le_bytes. }
  assert (H8 : read_int32 (drop 8 (le_bytes 4 (JS.ToInt32 xMin) ++ le_bytes 4 (JS.ToInt32 yMin)
                                   ++ le_bytes 4 (JS.ToInt32 xMax)
                                   ++ le_bytes 4 (JS.ToInt32 yMax)))
               = JS.ToInt32 xMax).
  { rewrite (app_assoc (le_bytes 4 _) (le_bytes 4 _)).
    rewrite drop_app_length' by (now rewrite length_app, !length_le_bytes).
    apply read_int32_le_bytes. }
  assert (H12 : read_int32 (drop 12 (le_bytes 4 (JS.ToInt32 xMin)
                                     ++ le_bytes 4 (JS.ToInt32 yMin)
                                     ++ le_bytes 4 (JS.ToInt32 xMax)
                                     ++ le_bytes 4 (JS.ToInt32 yMax)))
                = JS.ToInt32 yMax).
  { rewrite (app_assoc (le_bytes 4 _) (le_bytes 4 _)).
    rewrite (app_assoc (le_bytes 4 _ ++ le_bytes 4 _) (le_bytes 4 _)).
    rewrite drop_app_length' by (now rewrite !length_app, !length_le_bytes).
    rewrite <- (app_nil_r (le_bytes 4 (JS.ToInt32 yMax))). apply read_int32_le_bytes. }
  split; [rewrite !length_app, !length_le_bytes; reflexivity |].
  split; [exact H0 |]. split; [exact H4 |]. split; [exact H8 |]. split; [exact H12 |].
  intros HxMin HyMin HxMax HyMax. rewrite H0, H4, H8, H12.
  repeat split; now apply ToInt32_small.
Qed.

(** [buildBox2i_round_trip] at the data window of an empty image, whose
    upper corner is (-1, -1). *)
Lemma buildBox2i_round_trip_witness :
  exists box,
    buildBox2i 0 0 (0 - 1) (0 - 1) = Ok box /\
    read_int32 (drop 8 box) = 0 - 1 /\ read_int32 (drop 12 box) = 0 - 1.
Proof.
  destruct (buildBox2i_round_trip 0 0 (0 - 1) (0 - 1))
    as (box & Hbox & _ & _ & _ & _ & _ & Hrange).
  exists box. split; [exact Hbox |].
  destruct Hrange as (_ & _ & HxMax & HyMax); [lia | lia | lia | lia |].
  split; [exact HxMax | exact HyMax].
Defined.

(** ** exr-writer.ts: the header read back *)

Lemma utf8_encode_head name :
  readable_name name ->
  exists b bytes, utf8_encode name = b :: bytes /\ b <> 0.
Proof.
  intros [Hne Hnul]. pose proof (utf8_encode_nonzero name Hnul) as Hnz.
  destruct name as [| c name]; [contradiction |].
  rewrite utf8_encode_cons in *.
  destruct c as [[] [] [] [] [] [] [] []];
    (eexists; eexists; split; [reflexivity |]);
    apply Forall_app in Hnz as [Hc _]; apply Forall_cons in Hc as [Hb _]; exact Hb.
Qed.

Lemma read_attributes_attribute fuel name type value rest :
  readable_name name -> no_NUL type -> Z.of_nat (length value) < 2 ^ 32 ->
  read_attributes (S fuel) (attribute_bytes name type value ++ rest)
  = (attributes ← read_attributes fuel rest; Some (attribute_of name type value :: attributes)).
Proof.
  intros Hname Htype Hvalue.
  destruct (utf8_encode_head name Hname) as (b & bytes & Hb & Hb0).
  unfold attribute_bytes, cstring. rewrite <- !app_assoc.
  cbn [read_attributes]. rewrite Hb at 1. cbn [app].
  destruct (Z.eqb_spec b 0); [contradiction |].
  change ([0] ++ ?l) with (0 :: l).
  rewrite read_cstring_app by (apply utf8_encode_nonzero, Hname).
  cbn [mbind option_bind fst snd].
  rewrite read_cstring_app by (apply utf8_encode_nonzero, Htype).
  cbn [mbind option_bind fst snd].
  destruct (Nat.ltb_spec (length (le_bytes 4 (JS.ToUint32 (Z.of_nat (length value)))
                                    ++ value ++ rest)) 4) as [Hlt | _].
  { rewrite length_app, length_le_bytes in Hlt. lia. }
  rewrite read_uint32_le_bytes. unfold JS.ToUint32. rewrite Z.mod_small by lia.
  rewrite Nat2Z.id. rewrite drop_app_length' by (now rewrite length_le_bytes).
  destruct (Nat.ltb_spec (length (value ++ rest)) (length value)) as [Hlt | _].
  { rewrite length_app in Hlt. lia. }
  rewrite drop_app_length, take_app_length. reflexivity.
Qed.

Lemma total_sort_insert {f : string -> Z} x l : total f (sort_insert x l) = f x + total f l.
Proof.
  induction l as [| y l IH]; [reflexivity |].
  cbn [sort_insert]. destruct (String.leb x y); [reflexivity |].
  change (total f (y :: sort_insert x l)) with (f y + total f (sort_insert x l)).
  change (total f (y :: l)) with (f y + total f l). rewrite IH. lia.
Qed.

Lemma total_Array_sort (f : string -> Z) l : total f (Array_sort l) = total f l.
Proof.
  induction l as [| x l IH]; [reflexivity |].
  change (Array_sort (x :: l)) with (sort_insert x (Array_sort l)).
  rewrite total_sort_insert, IH. reflexivity.
Qed.

Lemma length_channel_entry_bytes pixelType name :
  Z.of_nat (length (channel_entry_bytes pixelType name))
  = Z.of_nat (length (utf8_encode name)) + 17.
Proof.
  unfold channel_entry_bytes, cstring. rewrite !length_app, !length_le_bytes. simpl. lia.
Qed.

Lemma length_chlist_bytes channels pixelType :
  Z.of_nat (length (chlist_bytes channels pixelType))
  = 1 + total (fun name => Z.of_nat (length (utf8_encode name)) + 17) channels.
Proof.
  unfold chlist_bytes. rewrite length_app. cbn [length].
  rewrite <- (total_Array_sort _ channels).
  induction (Array_sort channels) as [| name names IH]; [reflexivity |].
  rewrite bind_cons, length_app.
  change (total ?f (name :: names)) with (f name + total f names).
  pose proof (length_channel_entry_bytes pixelType name). cbv beta. lia.
Qed.

Lemma length_attribute_bytes name type value :
  Z.of_nat (length (attribute_bytes name type value))
  = Z.of_nat (length (utf8_encode name)) + Z.of_nat (length (utf8_encode type)) + 6
    + Z.of_nat (length value).
Proof.
  unfold attribute_bytes, cstring. rewrite !length_app, !length_le_bytes. simpl. lia.
Qed.

(** X3.  The header [buildHeader] returns is 251 bytes plus, for each
    channel, the UTF-8 length of its name plus 17 (323 bytes for the default
    channels): its size depends on the channel names alone, not on the image
    size or the pixel type. *)
Theorem buildHeader_length width height channels pixelType :
  exists header,
    buildHeader width height channels pixelType = Ok header /\
    Z.of_nat (length header)
    = 251 + total (fun name => Z.of_nat (length (utf8_encode name)) + 17) channels.
Proof.
  exists (header_bytes width height channels pixelType).
  split; [apply buildHeader_eq |].
  unfold header_bytes. rewrite !length_app, !Nat2Z.inj_add, !length_attribute_bytes.
  rewrite length_chlist_bytes.
  repeat match goal with
         | |- context [length (utf8_encode ?s)] =>
             lazymatch s with
             | String _ _ =>
                 let n := eval vm_compute in (length (utf8_encode s)) in
                 change (length (utf8_encode s)) with n
             end
         end.
  unfold box2i_bytes. rewrite !length_app, !length_le_bytes.
  change (length (float32_bytes [number_of 1 0])) with 4%nat.
  change (length (float32_bytes [S754_zero false; S754_zero false])) with 8%nat.
  rewrite ?length_app, ?length_le_bytes. cbn [length]. lia.
Qed.

Lemma read_chlist_entry fuel pixelType name rest :
  readable_name name ->
  read_chlist (S fuel) (channel_entry_bytes pixelType name ++ rest)
  = (channels ← read_chlist fuel rest; Some (channel_of pixelType name :: channels)).
Proof.
  intros Hname. destruct (utf8_encode_head name Hname) as (b & bytes & Hb & Hb0).
  unfold channel_entry_bytes, cstring. rewrite <- !app_assoc.
  cbn [read_chlist]. rewrite Hb at 1. cbn [app].
  destruct (Z.eqb_spec b 0); [contradiction |].
  change ([0] ++ ?l) with (0 :: l).
  rewrite read_cstring_app by (apply utf8_encode_nonzero, Hname).
  cbn [mbind option_bind fst snd].
  assert (Hfields : le_bytes 4 (JS.ToInt32 (pixel_type_tag pixelType))
                    ++ 1 :: 0 :: 0 :: 0
                       :: le_bytes 4 (JS.ToInt32 1) ++ le_bytes 4 (JS.ToInt32 1) ++ rest
                    = [pixel_type_tag pixelType; 0; 0; 0; 1; 0; 0; 0; 1; 0; 0; 0; 1; 0; 0; 0]
                      ++ rest)
    by (destruct pixelType; reflexivity).
  rewrite Hfields. cbn [app length Nat.ltb Nat.leb drop].
  unfold channel_of. destruct pixelType; reflexivity.
Qed.

Lemma read_chlist_entries pixelType names :
  Forall readable_name names ->
  forall fuel, (length names < fuel)%nat ->
    read_chlist fuel ((name ← names; channel_entry_bytes pixelType name) ++ [0])
    = Some (channel_of pixelType <$> names).
Proof.
  induction 1 as [| name names Hname _ IH]; intros fuel Hfuel.
  - destruct fuel; [simpl in Hfuel; lia | reflexivity].
  - destruct fuel as [| fuel]; [simpl in Hfuel; lia |].
    rewrite bind_cons, <- app_assoc, read_chlist_entry by exact Hname.
    rewrite IH by (simpl in Hfuel; lia). reflexivity.
Qed.

(** X4.  [buildChannelList] never fails, and for channel names that are
    not empty and hold no null character the list reads back entry by entry:
    one entry per name given, duplicates included, in increasing code-unit
    order of the names, each with the pixel type asked for, the linearity
    flag 1 and the sampling rates 1 and 1. *)
Theorem buildChannelList_round_trip channels pixelType :
  Forall readable_name channels ->
  exists chlist,
    buildChannelList channels pixelType = Ok chlist /\
    read_chlist (S (length channels)) chlist
    = Some (channel_of pixelType <$> Array_sort channels).
Proof.
  intros Hnames. exists (chlist_bytes channels pixelType).
  split; [apply buildChannelList_eq |].
  unfold chlist_bytes. apply read_chlist_entries.
  - now rewrite Array_sort_Permutation.
  - rewrite length_Array_sort. lia.
Qed.

(** [buildChannelList_round_trip] at the default channels with half
    samples: the list reads A, B, G, R. *)
Lemma buildChannelList_round_trip_witness :
  exists chlist,
    buildChannelList ["R"; "G"; "B"; "A"] half = Ok chlist /\
    read_chlist 5 chlist = Some (channel_of half <$> ["A"; "B"; "G"; "R"]).
Proof.
  apply (buildChannelList_round_trip ["R"; "G"; "B"; "A"] half).
  repeat constructor; try discriminate; vm_compute; discriminate.
Defined.

Lemma Array_sort_empty_name channels :
  EmptyString ∈ channels -> exists names, Array_sort channels = EmptyString :: names.
Proof.
  induction channels as [| name channels IH]; intros Hin; [now apply elem_of_nil in Hin |].
  change (Array_sort (name :: channels)) with (sort_insert name (Array_sort channels)).
  destruct name as [| c name].
  - destruct (Array_sort channels) as [| s l]; [eexists; reflexivity |].
    cbn [sort_insert]. destruct s; eexists; reflexivity.
  - apply elem_of_cons in Hin as [Heq | Hin]; [discriminate |].
    destruct (IH Hin) as [names ->]. eexists. reflexivity.
Qed.

(** X5.  An empty channel name hides the whole channel list: it sorts
    first and its entry starts with the null byte that ends a channel list,
    so that a reader of the list [buildChannelList] returns finds no channel
    at all. *)
Theorem buildChannelList_empty_name channels pixelType :
  EmptyString ∈ channels ->
  exists chlist,
    buildChannelList channels pixelType = Ok chlist /\
    head chlist = Some 0 /\
    forall fuel, read_chlist (S fuel) chlist = Some [].
Proof.
  intros Hin. exists (chlist_bytes channels pixelType).
  split; [apply buildChannelList_eq |].
  unfold chlist_bytes. destruct (Array_sort_empty_name channels Hin) as [names ->].
  rewrite bind_cons. split; reflexivity.
Qed.

(** [buildChannelList_empty_name] at the channels R and the empty name. *)
Lemma buildChannelList_empty_name_witness :
  exists chlist,
    buildChannelList ["R"; EmptyString] float = Ok chlist /\
    head chlist = Some 0 /\
    forall fuel, read_chlist (S fuel) chlist = Some [].
Proof. apply buildChannelList_empty_name. set_solver. Defined.

Ltac constant_name :=
  lazymatch goal with
  | |- readable_name _ =>
      split; [discriminate | unfold no_NUL; repeat constructor; vm_compute; discriminate]
  | |- no_NUL _ => unfold no_NUL; repeat constructor; vm_compute; discriminate
  end.

(** X6.  The header [buildHeader] returns is a well-formed attribute list
    as long as the channel list fits the 32-bit size field: read back, it
    holds the eight attributes channels, compression (none), dataWindow and
    displayWindow (both the box (0, 0, width - 1, height - 1)), lineOrder
    (increasing y), pixelAspectRatio (1.0), screenWindowCenter (0, 0) and
    screenWindowWidth (1.0), in this order, and then ends. *)
Theorem buildHeader_round_trip width height channels pixelType :
  1 + total (fun name => Z.of_nat (length (utf8_encode name)) + 17) channels < 2 ^ 32 ->
  exists header chlist box,
    buildHeader width height channels pixelType = Ok header /\
    buildChannelList channels pixelType = Ok chlist /\
    buildBox2i 0 0 (width - 1) (height - 1) = Ok box /\
    read_attributes 9 header
    = Some [attribute_of "channels" "chlist" chlist;
            attribute_of "compression" "compression" [0];
            attribute_of "dataWindow" "box2i" box;
            attribute_of "displayWindow" "box2i" box;
            attribute_of "lineOrder" "lineOrder" [0];
            attribute_of "pixelAspectRatio" "float" [0; 0; 0x80; 0x3F];
            attribute_of "screenWindowCenter" "v2f" [0; 0; 0; 0; 0; 0; 0; 0];
            attribute_of "screenWindowWidth" "float" [0; 0; 0x80; 0x3F]].
Proof.
  intros Hsize.
  exists (header_bytes width height channels pixelType), (chlist_bytes channels pixelType),
    (box2i_bytes 0 0 (width - 1) (height - 1)).
  split; [apply buildHeader_eq |]. split; [apply buildChannelList_eq |].
  split; [apply buildBox2i_eq |].
  assert (Hbox : Z.of_nat (length (box2i_bytes 0 0 (width - 1) (height - 1))) < 2 ^ 32).
  { unfold box2i_bytes. rewrite !length_app, !length_le_bytes. simpl. lia. }
  assert (Hchlist : Z.of_nat (length (chlist_bytes channels pixelType)) < 2 ^ 32)
    by (rewrite length_chlist_bytes; exact Hsize).
  assert (Hone : forall b : Z, Z.of_nat (length [b]) < 2 ^ 32) by (intros; simpl; lia).
  assert (Hfloat : forall values : list number,
             (length values <= 2)%nat -> Z.of_nat (length (float32_bytes values)) < 2 ^ 32).
  { intros values Hvalues. unfold float32_bytes.
    rewrite (length_bind_const _ 4) by (intros; apply length_le_bytes). lia. }
  unfold header_bytes.
  rewrite read_attributes_attribute; [| constant_name | constant_name | exact Hchlist].
  rewrite read_attributes_attribute; [| constant_name | constant_name | apply Hone].
  rewrite read_attributes_attribute; [| constant_name | constant_name | exact Hbox].
  rewrite read_attributes_attribute; [| constant_name | constant_name | exact Hbox].
  rewrite read_attributes_attribute; [| constant_name | constant_name | apply Hone].
  rewrite read_attributes_attribute;
    [| constant_name | constant_name | apply Hfloat; simpl; lia].
  rewrite read_attributes_attribute;
    [| constant_name | constant_name | apply Hfloat; simpl; lia].
  rewrite read_attributes_attribute;
    [| constant_name | constant_name | apply Hfloat; simpl; lia].
  reflexivity.
Qed.

(** [buildHeader_round_trip] at a 640 x 480 image with the default
    channels. *)
Lemma buildHeader_round_trip_witness :
  exists header chlist box,
    buildHeader 640 480 ["R"; "G"; "B"; "A"] half = Ok header /\
    buildChannelList ["R"; "G"; "B"; "A"] half = Ok chlist /\
    buildBox2i 0 0 (640 - 1) (480 - 1) = Ok box /\
    read_attributes 9 header
    = Some [attribute_of "channels" "chlist" chlist;
            attribute_of "compression" "compression" [0];
            attribute_of "dataWindow" "box2i" box;
            attribute_of "displayWindow" "box2i" box;
            attribute_of "lineOrder" "lineOrder" [0];
            attribute_of "pixelAspectRatio" "float" [0; 0; 0x80; 0x3F];
            attribute_of "screenWindowCenter" "v2f" [0; 0; 0; 0; 0; 0; 0; 0];
            attribute_of "screenWindowWidth" "float" [0; 0; 0x80; 0x3F]].
Proof. apply (buildHeader_round_trip 640 480 ["R"; "G"; "B"; "A"] half). vm_compute. reflexivity. Defined.

(** ** exr-writer.ts: the file *)

Lemma slice_slice (buf : list Z) (p n a m : Z) :
  0 <= p -> 0 <= a -> 0 <= m -> a + m <= n ->
  slice (slice buf p n) a m = slice buf (p + a) m.
Proof.
  intros Hp Ha Hm Hn. unfold slice.
  replace (Z.to_nat n) with (Z.to_nat a + Z.to_nat (n - a))%nat by lia.
  rewrite <- take_drop_commute, drop_drop, take_take.
  f_equal; [lia | f_equal; lia].
Qed.

Lemma slice_all (l : list Z) : slice l 0 (Z.of_nat (length l)) = l.
Proof. unfold slice. rewrite Nat2Z.id. apply firstn_all. Qed.

Lemma slice_scanline_payload pixels width channels pixelType y (k : nat) channel x :
  Array_sort channels !! k = Some channel ->
  0 <= x < width ->
  slice (scanline_payload pixels width channels pixelType y)
    ((Z.of_nat k * width + x) * pixel_size pixelType) (pixel_size pixelType)
  = sample_bytes pixelType
      (pixel_value pixels ((y * width + x) * 4 + getChannelIndex channel)).
Proof.
  intros Hk Hx.
  assert (Hsize : 0 < pixel_size pixelType) by (destruct pixelType; simpl; lia).
  assert (Hrow : forall channel,
             Z.of_nat (length (channel_row pixels width pixelType y channel))
             = width * pixel_size pixelType).
  { intros c. rewrite length_channel_row. lia. }
  replace ((Z.of_nat k * width + x) * pixel_size pixelType)
    with (Z.of_nat k * (width * pixel_size pixelType) + x * pixel_size pixelType) by lia.
  assert (Hws : 0 <= width * pixel_size pixelType) by nia.
  assert (Hkws : 0 <= Z.of_nat k * (width * pixel_size pixelType))
    by (apply Z.mul_nonneg_nonneg; lia).
  assert (Hxs : 0 <= x * pixel_size pixelType) by nia.
  assert (Hxs1 : x * pixel_size pixelType + pixel_size pixelType
                 <= width * pixel_size pixelType) by nia.
  rewrite <- slice_slice with (n := width * pixel_size pixelType) by lia.
  unfold scanline_payload.
  rewrite (slice_bind_const (fun c => channel_row pixels width pixelType y c)
             (width * pixel_size pixelType) _ k channel Hrow Hk).
  rewrite channel_row_eq.
  replace x with (Z.of_nat (Z.to_nat x)) at 1 by lia.
  rewrite (slice_bind_const _ (pixel_size pixelType) _ (Z.to_nat x) x).
  - reflexivity.
  - intros e. rewrite length_sample_bytes. lia.
  - rewrite lookup_range by lia. f_equal. lia.
Qed.

(** X7.  Where a sample lies in the file: in a buffer [writeEXR] returns,
    the sample of the pixel [(x, y)] for the [k]-th channel in sorted order
    occupies the [pixelSize] bytes at
    [8 + headerSize + 8 * height + y * (8 + width * numChannels * pixelSize)
     + 8 + (k * width + x) * pixelSize],
    and read as a little-endian integer it is the binary16 pattern
    [floatToHalf] gives, or the binary32 pattern, of
    [pixels[(y * width + x) * 4 + getChannelIndex(channel)]]. *)
Theorem writeEXR_sample_address pixels width height options header buffer (k : nat) channel y x :
  let channels := channels_of options in
  let pixelType := pixelType_of options in
  let pixelSize := match pixelType with half => 2 | float => 4 end in
  let record := 8 + Z.of_nat (length header) + 8 * height
                + y * (8 + width * Z.of_nat (length channels) * pixelSize) in
  let value := pixel_value pixels ((y * width + x) * 4 + getChannelIndex channel) in
  buildHeader width height channels pixelType = Ok header ->
  writeEXR pixels width height options = Ok buffer ->
  Array_sort channels !! k = Some channel ->
  0 <= y < height -> 0 <= x < width ->
  le_value (slice buffer (record + 8 + (Z.of_nat k * width + x) * pixelSize) pixelSize)
  = match pixelType with
    | half => floatToHalf value
    | float => Float32.store value
    end.
Proof.
  intros channels pixelType pixelSize record value Hheader Hbuffer Hk Hy Hx.
  apply buildHeader_inv in Hheader.
  rewrite writeEXR_layout in Hbuffer by lia. injection Hbuffer as Hbuffer.
  fold channels pixelType in Hbuffer. rewrite <- Hheader in Hbuffer. subst buffer.
  assert (Hsize : pixelSize = pixel_size pixelType) by reflexivity.
  assert (Hpos : 0 < pixel_size pixelType) by (destruct pixelType; simpl; lia).
  assert (Hkn : Z.of_nat k < Z.of_nat (length channels)).
  { apply lookup_lt_Some in Hk. rewrite length_Array_sort in Hk. lia. }
  assert (Hrecord : record
                    = scanline_position (Z.of_nat (length header)) width height channels
                        pixelType y)
    by (unfold record, scanline_position, scanline_data_size; rewrite Hsize; reflexivity).
  set (sds := scanline_data_size width channels pixelType).
  assert (Hsds : sds = width * Z.of_nat (length channels) * pixel_size pixelType)
    by reflexivity.
  assert (Hkw : 0 <= Z.of_nat k * width) by (apply Z.mul_nonneg_nonneg; lia).
  assert (Hk1 : (Z.of_nat k + 1) * width <= Z.of_nat (length channels) * width)
    by (apply Z.mul_le_mono_nonneg_r; lia).
  assert (Hin0 : (Z.of_nat k * width + x + 1) * pixel_size pixelType
                 <= Z.of_nat (length channels) * width * pixel_size pixelType)
    by (apply Z.mul_le_mono_nonneg_r; lia).
  assert (Hin : (Z.of_nat k * width + x) * pixel_size pixelType + pixel_size pixelType
                <= sds) by (rewrite Hsds; lia).
  assert (Hoff : 0 <= (Z.of_nat k * width + x) * pixel_size pixelType)
    by (apply Z.mul_nonneg_nonneg; lia).
  assert (Hrec0 : 0 <= record).
  { rewrite Hrecord.
    apply (scanline_position_bound (Z.of_nat (length header)) width height channels
             pixelType y); lia. }
  rewrite Hsize, <- Z.add_assoc.
  rewrite <- slice_slice with (n := 8 + sds) by lia.
  rewrite Hrecord. unfold sds. rewrite exr_file_scanline_record by lia.
  unfold scanline_record.
  replace (8 + (Z.of_nat k * width + x) * pixel_size pixelType)
    with (Z.of_nat (length (le_bytes 4 (JS.ToInt32 y)))
          + (Z.of_nat (length (le_bytes 4 (JS.ToUint32 (scanline_data_size width channels
                                                         pixelType))))
             + (Z.of_nat k * width + x) * pixel_size pixelType))
    by (rewrite !length_le_bytes; lia).
  rewrite !slice_app_r by (rewrite ?length_le_bytes; nia).
  rewrite (slice_scanline_payload pixels width channels pixelType y k channel x Hk Hx).
  apply sample_bytes_value.
Qed.

(** [writeEXR_sample_address] on a 2 x 2 image with half samples: the green
    sample (third channel of A, B, G, R) of the pixel (1, 1), whose value is
    1.0. *)
Lemma writeEXR_sample_address_witness :
  let pixels := (fun z => number_of z 0) <$> [1; 0; 0; 1; 0; 1; 0; 1; 0; 0; 1; 1; 1; 1; 1; 1] in
  exists header buffer,
    buildHeader 2 2 (channels_of default_options) (pixelType_of default_options) = Ok header /\
    writeEXR pixels 2 2 default_options = Ok buffer /\
    le_value (slice buffer
                (8 + Z.of_nat (length header) + 8 * 2
                 + 1 * (8 + 2 * Z.of_nat (length (channels_of default_options)) * 2)
                 + 8 + (Z.of_nat 2 * 2 + 1) * 2) 2)
    = 0x3C00.
Proof.
  intros pixels.
  exists (header_bytes 2 2 (channels_of default_options) (pixelType_of default_options)).
  eexists. split; [apply buildHeader_eq |].
  assert (Hbuffer : writeEXR pixels 2 2 default_options
                    = Ok (exr_file pixels 2 2 (channels_of default_options)
                            (pixelType_of default_options)
                            (header_bytes 2 2 (channels_of default_options)
                               (pixelType_of default_options))))
    by (apply writeEXR_layout; lia).
  split; [exact Hbuffer |].
  pose proof (writeEXR_sample_address pixels 2 2 default_options _ _ 2 "G" 1 1
                (buildHeader_eq _ _ _ _) Hbuffer eq_refl ltac:(lia) ltac:(lia)) as Hsample.
  etransitivity; [exact Hsample | vm_compute; reflexivity].
Defined.

(** X8.  The sections of the file: for sizes that are not negative, the
    buffer [writeEXR] returns is the magic number 0x01312F76 and the version
    word 2 (no flag), both little-endian, then the header [buildHeader]
    built, then an offset table of [8 * height] bytes, then scanline records
    that fill the rest, [height * (8 + width * numChannels * pixelSize)]
    bytes; no byte is left unwritten. *)
Theorem writeEXR_sections pixels width height options :
  0 <= width -> 0 <= height ->
  exists header table records,
    buildHeader width height (channels_of options) (pixelType_of options) = Ok header /\
    writeEXR pixels width height options
    = Ok ([0x76; 0x2F; 0x31; 0x01] ++ [2; 0; 0; 0] ++ header ++ table ++ records) /\
    Z.of_nat (length table) = 8 * height /\
    Z.of_nat (length records)
    = height * (8 + width * Z.of_nat (length (channels_of options))
                    * pixel_size (pixelType_of options)).
Proof.
  intros Hw Hh.
  exists (header_bytes width height (channels_of options) (pixelType_of options)).
  eexists. eexists. split; [apply buildHeader_eq |].
  split; [apply writeEXR_layout; lia |]. split.
  - rewrite length_offset_table. lia.
  - rewrite length_scanlines by lia. unfold scanline_data_size. lia.
Qed.

(** [writeEXR_sections] on an image without pixels: the file is the magic
    number, the version and the header. *)
Lemma writeEXR_sections_witness :
  exists header,
    buildHeader 0 0 (channels_of default_options) (pixelType_of default_options) = Ok header /\
    writeEXR [] 0 0 default_options = Ok ([0x76; 0x2F; 0x31; 0x01] ++ [2; 0; 0; 0] ++ header).
Proof.
  destruct (writeEXR_sections [] 0 0 default_options)
    as (header & table & records & Hheader & Hfile & Htable & Hrecords); [lia | lia |].
  exists header. split; [exact Hheader |].
  destruct table; [| simpl in Htable; lia]. destruct records; [| simpl in Hrecords; lia].
  rewrite !app_nil_r in Hfile. exact Hfile.
Defined.

(** ** exr-writer.ts: what [writeEXR] reads of the pixel array *)

Lemma getChannelIndex_range channel : 0 <= getChannelIndex channel <= 3.
Proof.
  unfold getChannelIndex.
  repeat match goal with
         | |- context [String.eqb ?a ?b] => destruct (String.eqb a b)
         end; lia.
Qed.

Lemma for_iter_ext {S : Type} (body body' : Z -> S -> result S) n :
  forall start s,
    (forall y s, start <= y < start + Z.of_nat n -> body y s = body' y s) ->
    for_iter n start body s = for_iter n start body' s.
Proof.
  induction n as [| n IH]; intros start s H; [reflexivity |].
  cbn [for_iter]. rewrite H by lia. destruct (body' start s) as [s' | e]; [| reflexivity].
  cbn. apply IH. intros y s0 Hy. apply H. lia.
Qed.

Lemma for_lt_ext {S : Type} (body body' : Z -> S -> result S) stop s :
  (forall y s, 0 <= y < stop -> body y s = body' y s) ->
  for_lt 0 stop body s = for_lt 0 stop body' s.
Proof. intros H. unfold for_lt. apply for_iter_ext. intros y s0 Hy. apply H. lia. Qed.

Lemma for_of_ext {E S : Type} (body body' : E -> S -> result S) (l : list E) :
  forall s, (forall e s, body e s = body' e s) -> for_of l body s = for_of l body' s.
Proof.
  induction l as [| e l IH]; intros s H; [reflexivity |].
  cbn [for_of]. rewrite H. destruct (body' e s) as [s' | err]; [| reflexivity].
  cbn. now apply IH.
Qed.

(** [writeEXR] reads the pixel array at the four components of the pixels
    of the image and nowhere else. *)
Lemma writeEXR_ext pixels pixels' width height options :
  (forall y x c, 0 <= y < height -> 0 <= x < width -> 0 <= c <= 3 ->
     pixel_value pixels ((y * width + x) * 4 + c)
     = pixel_value pixels' ((y * width + x) * 4 + c)) ->
  writeEXR pixels width height options = writeEXR pixels' width height options.
Proof.
  intros H. unfold writeEXR.
  destruct (buildHeader _ _ _ _) as [header | e]; [| reflexivity]. cbn.
  destruct (ArrayBuffer_new _) as [buffer | e]; [| reflexivity]. cbn.
  unfold writeEXR_fill.
  destruct (DataView.setUint32 buffer 0 EXR_MAGIC) as [v1 | e]; [| reflexivity]. cbn.
  destruct (DataView.setUint32 v1 _ _) as [v2 | e]; [| reflexivity]. cbn.
  destruct (TypedArray.set v2 header _) as [v3 | e]; [| reflexivity]. cbn.
  destruct (for_lt 0 height _ _) as [[[v4 offset] scanlineOffset] | e]; [| reflexivity]. cbn.
  match goal with
  | |- (for_lt 0 height ?b ?s ≫= _) = (for_lt 0 height ?b' ?s ≫= _) =>
      rewrite (for_lt_ext b b' height s); [reflexivity |]
  end.
  intros y [view off] Hy. unfold writeEXR_scanline.
  destruct (DataView.setInt32 view off y) as [v5 | e]; [| reflexivity]. cbn.
  destruct (DataView.setUint32 v5 _ _) as [v6 | e]; [| reflexivity]. cbn.
  apply for_of_ext. intros channel st. apply for_lt_ext.
  intros x [v7 o7] Hx. unfold writeEXR_sample.
  rewrite (H y x (getChannelIndex channel) Hy Hx (getChannelIndex_range channel)).
  reflexivity.
Qed.

Lemma pixel_value_app_NaN pixels (n : nat) i :
  pixel_value (pixels ++ replicate n NaN) i = pixel_value pixels i.
Proof.
  unfold pixel_value, TypedArray.get. destruct (Z.ltb_spec i 0); [reflexivity |].
  destruct (decide (Z.to_nat i < length pixels)%nat) as [Hlt | Hge].
  - now rewrite lookup_app_l.
  - rewrite lookup_app_r by lia. rewrite (lookup_ge_None_2 pixels) by lia.
    destruct (replicate n NaN !! _) as [v |] eqn:Hv; [| reflexivity].
    apply lookup_replicate in Hv as [-> _]. reflexivity.
Qed.

(** X9.  [writeEXR] does not check the length of the pixel array: a
    component it does not find is written as NaN.  The result for a short
    array, buffer or exception, is the result for the array padded with NaN;
    a 1 x 1 image written from an empty array holds four half samples 0x7E00. *)
Theorem writeEXR_missing_pixels_are_NaN pixels (missing : nat) width height options :
  writeEXR pixels width height options
  = writeEXR (pixels ++ replicate missing NaN) width height options /\
  floatToHalf NaN = 0x7E00 /\
  exists header,
    buildHeader 1 1 ["R"; "G"; "B"; "A"] half = Ok header /\
    writeEXR [] 1 1 default_options
    = Ok ([0x76; 0x2F; 0x31; 0x01] ++ [2; 0; 0; 0] ++ header
          ++ le_bytes 8 (8 + Z.of_nat (length header) + 8)
          ++ le_bytes 4 0 ++ le_bytes 4 8
          ++ [0x00; 0x7E; 0x00; 0x7E; 0x00; 0x7E; 0x00; 0x7E]).
Proof.
  split; [| split].
  - apply writeEXR_ext. intros y x c _ _ _. symmetry. apply pixel_value_app_NaN.
  - vm_compute. reflexivity.
  - eexists. split; [apply buildHeader_eq |].
    rewrite writeEXR_layout by lia. f_equal.
Qed.

(** X10.  [writeEXR] reads nothing past the image: what follows the
    [4 * width * height] components of the image in the pixel array has no
    influence on the result. *)
Theorem writeEXR_ignores_extra_pixels pixels extra width height options :
  0 <= width -> 0 <= height ->
  4 * width * height <= Z.of_nat (length pixels) ->
  writeEXR (pixels ++ extra) width height options = writeEXR pixels width height options.
Proof.
  intros Hw Hh Hlen. apply writeEXR_ext. intros y x c Hy Hx Hc.
  assert (Hyw : y * width <= (height - 1) * width) by (apply Z.mul_le_mono_nonneg_r; lia).
  assert (Hyw0 : 0 <= y * width) by (apply Z.mul_nonneg_nonneg; lia).
  unfold pixel_value, TypedArray.get.
  destruct (Z.ltb_spec ((y * width + x) * 4 + c) 0); [reflexivity |].
  rewrite lookup_app_l by lia. reflexivity.
Qed.

(** [writeEXR_ignores_extra_pixels] on a 1 x 1 image followed by a second
    pixel. *)
Lemma writeEXR_ignores_extra_pixels_witness :
  let pixel := (fun z => number_of z 0) <$> [1; 2; 3; 1] in
  writeEXR (pixel ++ [NaN; NaN; NaN; NaN]) 1 1 default_options
  = writeEXR pixel 1 1 default_options.
Proof.
  intros pixel.
  apply (writeEXR_ignores_extra_pixels pixel [NaN; NaN; NaN; NaN] 1 1 default_options);
    simpl; lia.
Defined.

Lemma toUpperCase_char_idem c : toUpperCase_char (toUpperCase_char c) = toUpperCase_char c.
Proof. destruct c as [[] [] [] [] [] [] [] []]; reflexivity. Qed.

Lemma toUpperCase_idem str : toUpperCase (toUpperCase str) = toUpperCase str.
Proof.
  induction str as [| c str IH]; [reflexivity |].
  cbn [toUpperCase]. now rewrite toUpperCase_char_idem, IH.
Qed.
(** ** exr-writer.ts: [floatToHalf] between the boundary values *)

Lemma div_mul_bounds a b : 0 < b -> a / b * b <= a < a / b * b + b.
Proof.
  intros Hb. pose proof (Z.div_mod a b ltac:(lia)) as Hdm.
  pose proof (Z.mod_pos_bound a b Hb). lia.
Qed.

(** X11.  [floatToHalf] truncates.  A value below 2^16 in magnitude
    (binary32 exponent field at most 142) gives a finite binary16 pattern of
    the same sign that is never larger in magnitude than the value, and
    smaller by less than one step of the binary16 grid: the value is rounded
    toward zero, not to the nearest. *)
Theorem floatToHalf_rounds_toward_zero (value : number) :
  float_exponent (float32_int32 value) <= 142 ->
  half_sign (floatToHalf value) = (if float32_int32 value <? 0 then 1 else 0) /\
  half_exponent (floatToHalf value) <= 30 /\
  half_magnitude (floatToHalf value) * 2 ^ 125 <= float_magnitude (float32_int32 value) /\
  float_magnitude (float32_int32 value)
  < half_magnitude (floatToHalf value) * 2 ^ 125
    + 2 ^ Z.max 125 (float_exponent (float32_int32 value) + 12).
Proof.
  intros HE. unfold floatToHalf.
  assert (Hr : - 2 ^ 31 <= float32_int32 value < 2 ^ 31) by apply ToInt32_range.
  destruct (floatToHalf_bits_truncates _ Hr) as (Hsign & Hsub & Hnorm & _).
  pose proof (float_exponent_range (float32_int32 value)) as HEr.
  set (f := float32_int32 value) in *. set (E := float_exponent f) in *.
  split; [exact Hsign |].
  destruct (Z_le_dec E 112) as [Hle | Hgt].
  - destruct (Hsub Hle) as [-> ->]. rewrite Z.max_l by lia.
    split; [lia |]. apply div_mul_bounds. lia.
  - destruct (Hnorm ltac:(lia)) as [-> ->]. rewrite Z.max_r by lia.
    split; [lia |].
    assert (Hp : 0 < 2 ^ (E + 12)) by (apply Z.pow_pos_nonneg; lia).
    rewrite <- Z.mul_assoc, <- Z.pow_add_r by lia.
    replace (E - 113 + 125) with (E + 12) by lia.
    apply div_mul_bounds. exact Hp.
Qed.

(** [floatToHalf_rounds_toward_zero] at 2051, which becomes 2050 (0x6801)
    although 2052 is nearer, and at 65535, which becomes 65504 (0x7BFF). *)
Lemma floatToHalf_rounds_toward_zero_witness :
  floatToHalf (number_of 2051 0) = 0x6801 /\
  half_magnitude (floatToHalf (number_of 2051 0)) * 2 ^ 125
  <= float_magnitude (float32_int32 (number_of 2051 0)) /\
  floatToHalf (number_of 65535 0) = 0x7BFF.
Proof.
  destruct (floatToHalf_rounds_toward_zero (number_of 2051 0)) as (_ & _ & Hle & _);
    [vm_compute; discriminate |].
  split; [vm_compute; reflexivity |]. split; [exact Hle | vm_compute; reflexivity].
Defined.

(** X12.  Every finite value of magnitude 2^16 or more (binary32 exponent
    field from 143 to 254) and both infinities become the binary16 infinity
    of their sign, 0x7C00 or 0xFC00. *)
Theorem floatToHalf_overflow (value : number) :
  143 <= float_exponent (float32_int32 value) ->
  float_exponent (float32_int32 value) <= 254 \/ float_mantissa (float32_int32 value) = 0 ->
  floatToHalf value = if float32_int32 value <? 0 then 0xFC00 else 0x7C00.
Proof.
  intros HE Hfinite. unfold floatToHalf.
  assert (Hr : - 2 ^ 31 <= float32_int32 value < 2 ^ 31) by apply ToInt32_range.
  rewrite (floatToHalf_bits_arith _ Hr).
  pose proof (float_exponent_range (float32_int32 value)) as HEr.
  set (f := float32_int32 value) in *. set (E := float_exponent f) in *.
  destruct (Z.leb_spec E 101); [lia |]. destruct (Z.leb_spec E 112); [lia |].
  destruct (Z.eqb_spec E 255) as [H255 | H255].
  - destruct Hfinite as [? | ->]; [lia |]. destruct (f <? 0); reflexivity.
  - destruct (Z.ltb_spec 142 E); [| lia]. destruct (f <? 0); reflexivity.
Qed.

(** [floatToHalf_overflow] at 65536, at -1e30 and at negative infinity. *)
Lemma floatToHalf_overflow_witness :
  floatToHalf (number_of 65536 0) = 0x7C00 /\
  floatToHalf (number_of (-1) 100) = 0xFC00 /\
  floatToHalf (S754_infinity true) = 0xFC00.
Proof.
  split; [| split].
  - apply (floatToHalf_overflow (number_of 65536 0)); [vm_compute; discriminate |].
    left. vm_compute. discriminate.
  - apply (floatToHalf_overflow (number_of (-1) 100)); [vm_compute; discriminate |].
    left. vm_compute. discriminate.
  - apply (floatToHalf_overflow (S754_infinity true)); [vm_compute; discriminate |].
    right. vm_compute. reflexivity.
Defined.

Lemma float_fields_nonneg f :
  0 <= f < 2 ^ 31 -> float_exponent f = f / 2 ^ 23 /\ float_mantissa f = f mod 2 ^ 23.
Proof.
  intros Hf. unfold float_exponent, float_mantissa.
  change 0xff with (Z.ones 8). change 0x7fffff with (Z.ones 23).
  rewrite !Z.land_ones, Z.shiftr_div_pow2 by lia. split; [| reflexivity].
  apply Z.mod_small. split; [apply Z.div_pos; lia | apply Z.div_lt_upper_bound; lia].
Qed.

Lemma subnormal_bounds E M :
  102 <= E <= 112 -> 0 <= M < 2 ^ 23 ->
  0 <= (2 ^ 23 + M) / 2 ^ (126 - E) < 2 ^ (E - 102) /\
  (103 <= E -> 2 ^ (E - 103) <= (2 ^ 23 + M) / 2 ^ (126 - E)).
Proof.
  intros HE HM.
  assert (Hp : 0 < 2 ^ (126 - E)) by (apply Z.pow_pos_nonneg; lia).
  split; [split |].
  - apply Z.div_pos; lia.
  - apply Z.div_lt_upper_bound; [exact Hp |].
    rewrite <- Z.pow_add_r by lia. replace (126 - E + (E - 102)) with 24 by lia. lia.
  - intros H103. apply Z.div_le_lower_bound; [exact Hp |].
    rewrite <- Z.pow_add_r by lia. replace (126 - E + (E - 103)) with 23 by lia. lia.
Qed.

(** The pattern [floatToHalf] gives for a non-negative binary32 pattern with
    exponent field [E] and mantissa field [M]. *)
Lemma floatToHalf_bits_nonneg f :
  0 <= f < 2 ^ 31 ->
  floatToHalf_bits f =
    (if float_exponent f <=? 101 then 0
     else if float_exponent f <=? 112
          then (2 ^ 23 + float_mantissa f) / 2 ^ (126 - float_exponent f)
     else if float_exponent f =? 255 then 31 * 2 ^ 10 + float_mantissa f / 2 ^ 13
     else if 142 <? float_exponent f then 31 * 2 ^ 10
     else (float_exponent f - 112) * 2 ^ 10 + float_mantissa f / 2 ^ 13).
Proof.
  intros Hf. rewrite floatToHalf_bits_arith by lia.
  destruct (Z.ltb_spec f 0); [lia |]. reflexivity.
Qed.

(** X13.  [floatToHalf] keeps the order of non-negative values: of two
    numbers whose binary32 patterns are non-negative (non-negative numbers,
    +0 and positive infinity included, whose patterns are ordered as the
    numbers are), the larger does not get the smaller binary16 pattern. *)
Theorem floatToHalf_monotone (v1 v2 : number) :
  0 <= float32_int32 v1 <= float32_int32 v2 ->
  floatToHalf v1 <= floatToHalf v2.
Proof.
  intros Hle. unfold floatToHalf.
  pose proof (ToInt32_range (Float32.store v2)) as Hr2. fold (float32_int32 v2) in Hr2.
  set (f1 := float32_int32 v1) in *. set (f2 := float32_int32 v2) in *.
  rewrite !floatToHalf_bits_nonneg by lia.
  destruct (float_fields_nonneg f1 ltac:(lia)) as [HE1 HM1].
  destruct (float_fields_nonneg f2 ltac:(lia)) as [HE2 HM2].
  pose proof (float_exponent_range f1) as HEr1. pose proof (float_exponent_range f2) as HEr2.
  pose proof (float_mantissa_range f1) as HMr1. pose proof (float_mantissa_range f2) as HMr2.
  pose proof (Z.div_mod f1 (2 ^ 23) ltac:(lia)) as Hdm1.
  pose proof (Z.div_mod f2 (2 ^ 23) ltac:(lia)) as Hdm2.
  rewrite <- HE1, <- HM1 in Hdm1. rewrite <- HE2, <- HM2 in Hdm2.
  set (E1 := float_exponent f1) in *. set (M1 := float_mantissa f1) in *.
  set (E2 := float_exponent f2) in *. set (M2 := float_mantissa f2) in *.
  assert (HE : E1 <= E2) by lia.
  assert (HM : E1 = E2 -> M1 <= M2) by lia.
  assert (Hq1 : 0 <= M1 / 2 ^ 13 < 2 ^ 10)
    by (split; [apply Z.div_pos | apply Z.div_lt_upper_bound]; lia).
  assert (Hq2 : 0 <= M2 / 2 ^ 13 < 2 ^ 10)
    by (split; [apply Z.div_pos | apply Z.div_lt_upper_bound]; lia).
  assert (Hq : E1 = E2 -> M1 / 2 ^ 13 <= M2 / 2 ^ 13)
    by (intros Heq; apply Z.div_le_mono; [lia | auto]).
  destruct (Z.leb_spec E1 101) as [H1a | H1a].
  { destruct (Z.leb_spec E2 101); [lia |].
    destruct (Z.leb_spec E2 112).
    - pose proof (subnormal_bounds E2 M2 ltac:(lia) HMr2) as [Hb _]. lia.
    - destruct (Z.eqb_spec E2 255); [lia |]. destruct (Z.ltb_spec 142 E2); lia. }
  destruct (Z.leb_spec E1 112) as [H1b | H1b].
  { pose proof (subnormal_bounds E1 M1 ltac:(lia) HMr1) as [Hb1 _].
    assert (Htop : 2 ^ (E1 - 102) <= 2 ^ 10) by (apply Z.pow_le_mono_r; lia).
    destruct (Z.leb_spec E2 101); [lia |].
    destruct (Z.leb_spec E2 112).
    - destruct (Z.eq_dec E1 E2) as [Heq | Hne].
      + rewrite <- Heq. apply Z.div_le_mono; [apply Z.pow_pos_nonneg; lia |].
        specialize (HM Heq). lia.
      + pose proof (subnormal_bounds E2 M2 ltac:(lia) HMr2) as [_ Hb2].
        specialize (Hb2 ltac:(lia)).
        assert (2 ^ (E1 - 102) <= 2 ^ (E2 - 103)) by (apply Z.pow_le_mono_r; lia). lia.
    - destruct (Z.eqb_spec E2 255); [lia |]. destruct (Z.ltb_spec 142 E2); lia. }
  destruct (Z.leb_spec E2 101); [lia |]. destruct (Z.leb_spec E2 112); [lia |].
  destruct (Z.eqb_spec E1 255) as [H1c | H1c].
  { destruct (Z.eqb_spec E2 255); [| lia]. specialize (Hq ltac:(lia)). lia. }
  destruct (Z.ltb_spec 142 E1) as [H1d | H1d].
  { destruct (Z.eqb_spec E2 255); [lia |]. destruct (Z.ltb_spec 142 E2); lia. }
  destruct (Z.eqb_spec E2 255); [lia |]. destruct (Z.ltb_spec 142 E2); [lia |].
  destruct (Z.eq_dec E1 E2) as [Heq | Hne]; [specialize (Hq Heq) |]; lia.
Qed.

(** [floatToHalf_monotone] at 1/16 and 1/8, and at 65504 and positive
    infinity. *)
Lemma floatToHalf_monotone_witness :
  floatToHalf (number_of 1 (-4)) <= floatToHalf (number_of 1 (-3)) /\
  floatToHalf (number_of 65504 0) <= floatToHalf (S754_infinity false).
Proof.
  split.
  - apply floatToHalf_monotone. vm_compute. split; discriminate.
  - apply floatToHalf_monotone. vm_compute. split; discriminate.
Defined.
(** ** gpu-readback.ts: the transfer buffer *)

(** X14.  On WebGPU the readback starts by creating a transfer buffer of
    [bytesPerRow * height] bytes, where [bytesPerRow] is the least multiple
    of 256 that holds a row of the region at 4, 8 or 16 bytes per pixel, 16
    for a format whose name contains 32float, 8 for one whose name contains
    16float and no 32float, 4 for every other: the row pitch meets the
    256-byte alignment WebGPU asks of a texture-to-buffer copy and never cuts
    a row short. *)
Theorem readPixelsAsync_row_pitch device source options :
  device_type device = webgpu ->
  let format := texture_format (source_texture source) in
  let width := region_width source options in
  let height := region_height source options in
  exists bytesPerRow rest,
    fst (readPixelsAsync device source options) = createBuffer (bytesPerRow * height) :: rest /\
    bytesPerRow mod 256 = 0 /\
    width * getBytesPerPixel format <= bytesPerRow < width * getBytesPerPixel format + 256 /\
    (getBytesPerPixel format = 4 \/ getBytesPerPixel format = 8
     \/ getBytesPerPixel format = 16) /\
    getBytesPerPixel format
    = (if includes format "32float" then 16 else if includes format "16float" then 8 else 4).
Proof.
  intros Htype format width height.
  exists (ceil_div (width * getBytesPerPixel format) 256 * 256).
  destruct (ceil_div_256 (width * getBytesPerPixel format)) as [Hmod Hbounds].
  assert (Hcalls : exists rest,
             fst (readPixelsAsync device source options)
             = createBuffer (ceil_div (width * getBytesPerPixel format) 256 * 256 * height)
                 :: rest).
  { unfold readPixelsAsync. rewrite Htype.
    subst format width height. unfold region_width, region_height, source_texture.
    unfold readPixelsWebGPU, mbind, gpu_bind, call, pure_step. simpl app.
    destruct (on_createBuffer device _); [| eexists; reflexivity].
    destruct (on_copyTextureToBuffer device _ _ _ _ _ _); [| eexists; reflexivity].
    destruct (on_submit device); [| eexists; reflexivity].
    destruct (on_mapAsync device _); [| eexists; reflexivity].
    destruct (if includes _ _ then _ else _); eexists; reflexivity. }
  destruct Hcalls as [rest Hcalls]. exists rest.
  split; [exact Hcalls |]. split; [exact Hmod |]. split; [exact Hbounds |].
  split; [apply getBytesPerPixel_cases |].
  unfold getBytesPerPixel. now destruct (includes format "8unorm").
Qed.

(** [readPixelsAsync_row_pitch] on a 100 x 2 target of format rgba16float:
    rows of 800 bytes are stored 1024 bytes apart. *)
Lemma readPixelsAsync_row_pitch_witness :
  let texture := {| texture_width := 100; texture_height := 2;
                    texture_format := "rgba16float" |} in
  let options := {| options_x := None; options_y := None;
                    options_width := None; options_height := None |} in
  getBytesPerPixel "rgba16float" = 8 /\
  exists rest,
    fst (readPixelsAsync (accepting_device webgpu) (SourceFramebuffer texture) options)
    = createBuffer (1024 * 2) :: rest.
Proof.
  intros texture options.
  destruct (readPixelsAsync_row_pitch (accepting_device webgpu) (SourceFramebuffer texture)
              options eq_refl) as (bytesPerRow & rest & Hcalls & Hmod & Hbounds & _ & Hsize).
  split; [exact Hsize |].
  exists rest. rewrite Hcalls.
  change (region_width (SourceFramebuffer texture) options) with 100 in Hbounds.
  change (getBytesPerPixel (texture_format (source_texture (SourceFramebuffer texture))))
    with 8 in Hbounds.
  assert (Hpitch : bytesPerRow = 1024)
    by (pose proof (Z.div_mod bytesPerRow 256 ltac:(lia)); lia).
  rewrite Hpitch. reflexivity.
Defined.

(** ** gpu-readback.ts: what is released *)

(** A call that is none of the calls of a list of calls. *)
Ltac not_called :=
  repeat (apply not_elem_of_cons; split; [discriminate |]); apply not_elem_of_nil.

(** X15.  On WebGPU the transfer buffer is unmapped and destroyed exactly
    when the promise resolves, as the last two calls; when any step fails
    (the copy, the submission, the mapping, the allocation of the result),
    the promise rejects and the buffer is neither unmapped nor destroyed. *)
Theorem readPixelsAsync_buffer_release device source options :
  device_type device = webgpu ->
  match readPixelsAsync device source options with
  | (calls, Ok _) =>
      exists earlier,
        calls = earlier ++ [unmap; destroyBuffer] /\
        (unmap ∉ earlier) /\ (destroyBuffer ∉ earlier)
  | (calls, Throw _) => (unmap ∉ calls) /\ (destroyBuffer ∉ calls)
  end.
Proof.
  intros Htype. unfold readPixelsAsync. rewrite Htype.
  unfold readPixelsWebGPU, mbind, gpu_bind, call, pure_step, mret, gpu_ret. simpl app.
  destruct (on_createBuffer device _); [| split; not_called].
  destruct (on_copyTextureToBuffer device _ _ _ _ _ _); [| split; not_called].
  destruct (on_submit device); [| split; not_called].
  destruct (on_mapAsync device _); [| split; not_called].
  destruct (if includes _ _ then _ else _); [| split; not_called].
  eexists [_; _; _; _; _; _; _]. split; [reflexivity |]. split; not_called.
Qed.

(** [readPixelsAsync_buffer_release] on a device whose mapping fails: six
    calls are made and the buffer is left alone. *)
Lemma readPixelsAsync_buffer_release_witness :
  let device :=
    {| device_type := webgpu;
       on_createBuffer := fun _ => Ok tt;
       on_copyTextureToBuffer := fun _ _ _ _ _ _ => Ok tt;
       on_submit := Ok tt;
       on_mapAsync := fun _ => Throw (Error "device lost");
       on_createFramebuffer := Ok tt;
       on_readPixelsToArrayWebGL := fun _ _ _ _ data => Ok data |} in
  let texture := {| texture_width := 1; texture_height := 1;
                    texture_format := "rgba32float" |} in
  let options := {| options_x := None; options_y := None;
                    options_width := None; options_height := None |} in
  snd (readPixelsAsync device (SourceTexture texture) options) = Throw (Error "device lost") /\
  destroyBuffer ∉ fst (readPixelsAsync device (SourceTexture texture) options).
Proof.
  intros device texture options.
  pose proof (readPixelsAsync_buffer_release device (SourceTexture texture) options eq_refl)
    as Hrelease.
  destruct (readPixelsAsync device (SourceTexture texture) options) as [calls [r | e]] eqn:Hrun.
  - vm_compute in Hrun. discriminate.
  - split; [| apply Hrelease]. vm_compute in Hrun. now injection Hrun as _ <-.
Defined.

(** X16.  On WebGL a framebuffer handed in by the caller is never
    destroyed and no framebuffer is created for it; for a texture source a
    temporary framebuffer is created first and destroyed exactly when the
    promise resolves: when the allocation of the result or the read fails,
    the temporary framebuffer is left behind. *)
Theorem readPixelsAsync_framebuffer_release device source options :
  device_type device = webgl ->
  let calls := fst (readPixelsAsync device source options) in
  match source with
  | SourceFramebuffer _ => (createFramebuffer ∉ calls) /\ (destroyFramebuffer ∉ calls)
  | SourceTexture _ =>
      head calls = Some createFramebuffer /\
      match snd (readPixelsAsync device source options) with
      | Ok _ => last calls = Some destroyFramebuffer
      | Throw _ => destroyFramebuffer ∉ calls
      end
  end.
Proof.
  intros Htype. unfold readPixelsAsync. rewrite Htype.
  unfold readPixelsWebGL, mbind, gpu_bind, call, pure_step, mret, gpu_ret.
  destruct source as [texture | texture]; simpl fst; simpl snd; simpl app.
  - destruct (if includes _ _ then _ else _) as [data | e]; [| split; not_called].
    destruct (on_readPixelsToArrayWebGL device _ _ _ _ _); simpl; split; not_called.
  - destruct (on_createFramebuffer device); [| simpl; split; [reflexivity | not_called]].
    simpl fst; simpl snd.
    destruct (if includes _ _ then _ else _) as [data | e];
      [| simpl; split; [reflexivity | not_called]].
    destruct (on_readPixelsToArrayWebGL device _ _ _ _ _); simpl;
      (split; [reflexivity | first [reflexivity | not_called]]).
Qed.

(** [readPixelsAsync_framebuffer_release] on a device that accepts every
    call: nothing is created or destroyed for a framebuffer source. *)
Lemma readPixelsAsync_framebuffer_release_witness :
  let texture := {| texture_width := 2; texture_height := 2;
                    texture_format := "rgba32float" |} in
  let options := {| options_x := None; options_y := None;
                    options_width := None; options_height := None |} in
  destroyFramebuffer
    ∉ fst (readPixelsAsync (accepting_device webgl) (SourceFramebuffer texture) options).
Proof.
  intros texture options.
  apply (readPixelsAsync_framebuffer_release (accepting_device webgl)
           (SourceFramebuffer texture) options eq_refl).
Defined.

(** ** gpu-readback.ts: the rows of the transfer buffer *)

Lemma subarray_in_range {A : Type} (a : list A) (begin len : nat) :
  (begin + len <= length a)%nat ->
  TypedArray.subarray a (Z.of_nat begin) (Z.of_nat begin + Z.of_nat len)
  = take len (drop begin a).
Proof.
  intros H. unfold TypedArray.subarray.
  destruct (Z.ltb_spec (Z.of_nat begin) 0); [lia |].
  destruct (Z.ltb_spec (Z.of_nat begin + Z.of_nat len) 0); [lia |].
  rewrite !Z.min_l by lia. f_equal; [lia | f_equal; lia].
Qed.

Lemma copy_rows_loop {A : Type} (zero : A) (source : list A) (stride rowLength : nat) n :
  forall (start : nat) (written : list A),
    length written = (start * rowLength)%nat ->
    (forall y, (start <= y < start + n)%nat -> (y * stride + rowLength <= length source)%nat) ->
    for_iter n (Z.of_nat start)
      (fun row data =>
         TypedArray.set data
           (TypedArray.subarray source (row * Z.of_nat stride)
              (row * Z.of_nat stride + Z.of_nat rowLength))
           (row * Z.of_nat rowLength))
      (written ++ replicate (n * rowLength) zero)
    = Ok (written ++ (i ← seq start n; take rowLength (drop (i * stride) source))).
Proof.
  induction n as [| n IH]; intros start written Hwritten Hsource.
  - reflexivity.
  - cbn [for_iter].
    replace (Z.of_nat start * Z.of_nat stride) with (Z.of_nat (start * stride)) by lia.
    rewrite subarray_in_range by (apply Hsource; lia).
    replace (Z.of_nat start * Z.of_nat rowLength) with (Z.of_nat (length written)) by lia.
    assert (Hrow : length (take rowLength (drop (start * stride) source)) = rowLength).
    { rewrite length_take, length_drop. specialize (Hsource start ltac:(lia)). lia. }
    rewrite TypedArray_set_cursor by (rewrite Hrow, length_replicate; lia).
    rewrite bind_Ok, Hrow, drop_replicate.
    replace (S n * rowLength - rowLength)%nat with (n * rowLength)%nat by lia.
    rewrite app_assoc. replace (Z.of_nat start + 1) with (Z.of_nat (S start)) by lia.
    rewrite IH.
    + rewrite <- app_assoc. reflexivity.
    + rewrite length_app, Hrow. lia.
    + intros y Hy. apply Hsource. lia.
Qed.

Lemma copy_rows_eq {A : Type} (zero : A) (source : list A) (stride rowLength height : nat) :
  (forall y, (y < height)%nat -> (y * stride + rowLength <= length source)%nat) ->
  copy_rows (replicate (rowLength * height) zero) source (Z.of_nat stride)
    (Z.of_nat rowLength) (Z.of_nat height)
  = Ok (packed_rows source stride rowLength height).
Proof.
  intros Hsource. unfold copy_rows, for_lt. rewrite Z.sub_0_r, Nat2Z.id.
  pose proof (copy_rows_loop zero source stride rowLength height 0 [] eq_refl) as Hloop.
  cbn [app] in Hloop. replace (rowLength * height)%nat with (height * rowLength)%nat by lia.
  apply Hloop. intros y Hy. apply Hsource. lia.
Qed.

Lemma transfer_row_fits width bytesPerPixel :
  0 <= width -> 4 <= bytesPerPixel ->
  4 * width <= ceil_div (width * bytesPerPixel) 256 * 256.
Proof.
  intros Hw Hb. destruct (ceil_div_256 (width * bytesPerPixel)) as [_ [Hle _]]. nia.
Qed.

(** X17.  On WebGPU, for a target whose format is not a float format, the
    data returned are the rows of the mapped transfer buffer without their
    padding: row [y] of the result is the first [4 * width] bytes of the
    [bytesPerRow] bytes of row [y] of the buffer, and the result has
    [width * height * 4] bytes. *)
Theorem readPixelsAsync_strips_row_padding device source options mapped :
  let format := texture_format (source_texture source) in
  let x := region_x options in
  let y := region_y options in
  let width := region_width source options in
  let height := region_height source options in
  let bytesPerRow := transfer_bytesPerRow source options in
  device_type device = webgpu ->
  includes format "float" = false ->
  0 <= width -> 0 <= height ->
  on_createBuffer device (bytesPerRow * height) = Ok tt ->
  on_copyTextureToBuffer device x y bytesPerRow height width height = Ok tt ->
  on_submit device = Ok tt ->
  on_mapAsync device (bytesPerRow * height) = Ok mapped ->
  Z.of_nat (length mapped) = bytesPerRow * height ->
  snd (readPixelsAsync device source options)
  = Ok {| result_data :=
            Uint8Data (packed_rows mapped (Z.to_nat bytesPerRow) (Z.to_nat (4 * width))
                         (Z.to_nat height));
          result_width := width; result_height := height; result_channels := 4 |} /\
  Z.of_nat (length (packed_rows mapped (Z.to_nat bytesPerRow) (Z.to_nat (4 * width))
                      (Z.to_nat height)))
  = width * height * 4.
Proof.
  intros format x y width height bytesPerRow Htype Hfloat Hw Hh Hcreate Hcopy Hsubmit Hmap
    Hmapped.
  assert (Hbpp : 4 <= getBytesPerPixel format)
    by (destruct (getBytesPerPixel_cases format) as [-> | [-> | ->]]; lia).
  assert (Hfit : 4 * width <= bytesPerRow) by (now apply transfer_row_fits).
  assert (Hrows : forall i, (i < Z.to_nat height)%nat ->
             (i * Z.to_nat bytesPerRow + Z.to_nat (4 * width) <= length mapped)%nat).
  { intros i Hi.
    assert (Z.of_nat i * bytesPerRow + bytesPerRow <= bytesPerRow * height) by nia.
    nia. }
  split.
  - unfold readPixelsAsync. rewrite Htype. unfold readPixelsWebGPU.
    fold (source_texture source). fold format.
    fold (region_x options) (region_y options) (region_width source options)
      (region_height source options).
    fold x y width height.
    change (ceil_div (width * getBytesPerPixel format) 256 * 256) with bytesPerRow.
    unfold mbind, gpu_bind, call, pure_step, mret, gpu_ret.
    rewrite Hcreate, Hcopy, Hsubmit, Hmap, Hfloat. simpl app.
    rewrite (TypedArray_make_Ok 0 (width * height * 4)) by nia.
    unfold result_bind. rewrite Z.div_1_r.
    replace (replicate (Z.to_nat (width * height * 4)) 0)
      with (replicate (Z.to_nat (4 * width) * Z.to_nat height) 0) by (f_equal; nia).
    replace (copy_rows (replicate (Z.to_nat (4 * width) * Z.to_nat height) 0) mapped
               bytesPerRow (width * 4) height)
      with (copy_rows (replicate (Z.to_nat (4 * width) * Z.to_nat height) 0) mapped
              (Z.of_nat (Z.to_nat bytesPerRow)) (Z.of_nat (Z.to_nat (4 * width)))
              (Z.of_nat (Z.to_nat height)))
      by (f_equal; lia).
    rewrite copy_rows_eq by exact Hrows. reflexivity.
  - unfold packed_rows.
    assert (Hlen : forall l : list nat,
               Forall (fun i => (i < Z.to_nat height)%nat) l ->
               length (i ← l; take (Z.to_nat (4 * width))
                                (drop (i * Z.to_nat bytesPerRow) mapped))
               = (length l * Z.to_nat (4 * width))%nat).
    { induction 1 as [| i l Hi _ IH]; [reflexivity |].
      rewrite bind_cons, length_app, IH, length_take, length_drop.
      specialize (Hrows i Hi). simpl. lia. }
    rewrite Hlen, length_seq by (apply Forall_seq; intros; lia). nia.
Qed.

(** A device that accepts every call and maps the buffer to [mapped]. *)
Lemma readPixelsAsync_strips_row_padding_witness :
  let mapped := [1; 2; 3; 4] ++ replicate 252 0 ++ [5; 6; 7; 8] ++ replicate 252 0 in
  let device :=
    {| device_type := webgpu;
       on_createBuffer := fun _ => Ok tt;
       on_copyTextureToBuffer := fun _ _ _ _ _ _ => Ok tt;
       on_submit := Ok tt;
       on_mapAsync := fun _ => Ok mapped;
       on_createFramebuffer := Ok tt;
       on_readPixelsToArrayWebGL := fun _ _ _ _ data => Ok data |} in
  let texture := {| texture_width := 1; texture_height := 2;
                    texture_format := "rgba8unorm" |} in
  let options := {| options_x := None; options_y := None;
                    options_width := None; options_height := None |} in
  snd (readPixelsAsync device (SourceFramebuffer texture) options)
  = Ok {| result_data := Uint8Data [1; 2; 3; 4; 5; 6; 7; 8];
          result_width := 1; result_height := 2; result_channels := 4 |}.
Proof.
  intros mapped device texture options.
  assert (Hpos : 0 <= 1) by lia. assert (Hpos2 : 0 <= 2) by lia.
  destruct (readPixelsAsync_strips_row_padding device (SourceFramebuffer texture) options
              mapped eq_refl eq_refl Hpos Hpos2 eq_refl eq_refl eq_refl eq_refl eq_refl)
    as [Hdata _].
  exact Hdata.
Defined.

Lemma Float32Array_view_app (chunk rest : list Z) (n : nat) :
  length chunk = (4 * n)%nat ->
  Float32Array_view (chunk ++ rest) = Float32Array_view chunk ++ Float32Array_view rest.
Proof.
  revert chunk. induction n as [| n IH]; intros chunk Hlen.
  - destruct chunk; [reflexivity | discriminate].
  - destruct chunk as [| b0 [| b1 [| b2 [| b3 chunk]]]]; try (simpl in Hlen; lia).
    cbn [app Float32Array_view]. f_equal. apply IH. simpl in Hlen. lia.
Qed.

Lemma length_Float32Array_view (bytes : list Z) (n : nat) :
  length bytes = (4 * n)%nat -> length (Float32Array_view bytes) = n.
Proof.
  revert bytes. induction n as [| n IH]; intros bytes Hlen.
  - destruct bytes; [reflexivity | discriminate].
  - destruct bytes as [| b0 [| b1 [| b2 [| b3 bytes]]]]; try (simpl in Hlen; lia).
    cbn [Float32Array_view length]. f_equal. apply IH. simpl in Hlen. lia.
Qed.

Lemma Float32Array_view_drop (bytes : list Z) (k : nat) :
  Float32Array_view (drop (4 * k) bytes) = drop k (Float32Array_view bytes).
Proof.
  revert bytes. induction k as [| k IH]; intros bytes; [reflexivity |].
  destruct bytes as [| b0 [| b1 [| b2 [| b3 bytes]]]];
    try (replace (4 * S k)%nat with (S (S (S (S (4 * k))))) by lia; cbn [drop];
         rewrite ?drop_nil; reflexivity).
  replace (4 * S k)%nat with (S (S (S (S (4 * k))))) by lia.
  cbn [drop Float32Array_view]. apply IH.
Qed.

Lemma Float32Array_view_take (bytes : list Z) (k : nat) :
  Float32Array_view (take (4 * k) bytes) = take k (Float32Array_view bytes).
Proof.
  revert bytes. induction k as [| k IH]; intros bytes; [reflexivity |].
  destruct bytes as [| b0 [| b1 [| b2 [| b3 bytes]]]];
    try (replace (4 * S k)%nat with (S (S (S (S (4 * k))))) by lia; cbn [take];
         rewrite ?take_nil; reflexivity).
  replace (4 * S k)%nat with (S (S (S (S (4 * k))))) by lia.
  cbn [take Float32Array_view]. f_equal. apply IH.
Qed.

Lemma packed_rows_view (bytes : list Z) (stride rowLength height : nat) :
  (forall i, (i < height)%nat ->
     (i * (4 * stride) + 4 * rowLength <= length bytes)%nat) ->
  packed_rows (Float32Array_view bytes) stride rowLength height
  = Float32Array_view (packed_rows bytes (4 * stride) (4 * rowLength) height).
Proof.
  intros Hrows. unfold packed_rows.
  assert (H : forall l : list nat,
             Forall (fun i => (i < height)%nat) l ->
             (i ← l; take rowLength (drop (i * stride) (Float32Array_view bytes)))
             = Float32Array_view
                 (i ← l; take (4 * rowLength) (drop (i * (4 * stride)) bytes))).
  { induction 1 as [| i l Hi _ IH]; [reflexivity |].
    rewrite !bind_cons, IH.
    rewrite (Float32Array_view_app _ _ rowLength)
      by (rewrite length_take, length_drop; specialize (Hrows i Hi); lia).
    f_equal. rewrite Float32Array_view_take.
    replace (i * (4 * stride))%nat with (4 * (i * stride))%nat by lia.
    now rewrite Float32Array_view_drop. }
  apply H. apply Forall_seq. intros; lia.
Qed.

(** X18.  On WebGPU, for a target of a float format, the mapped transfer
    buffer is read as an array of binary32 whatever the sample size of the
    format: where a row pitch of [bytesPerRow] holds [16 * width] bytes, row
    [y] of the result is the binary32 reading of the first [16 * width]
    bytes of row [y] of the buffer.  This is the content of an rgba32float
    target; for an rgba16float target the half samples are not converted:
    each pair of them is returned as one binary32 number. *)
Theorem readPixelsAsync_float_rows device source options mapped :
  let format := texture_format (source_texture source) in
  let x := region_x options in
  let y := region_y options in
  let width := region_width source options in
  let height := region_height source options in
  let bytesPerRow := transfer_bytesPerRow source options in
  device_type device = webgpu ->
  includes format "float" = true ->
  0 <= width -> 0 <= height ->
  16 * width <= bytesPerRow ->
  on_createBuffer device (bytesPerRow * height) = Ok tt ->
  on_copyTextureToBuffer device x y bytesPerRow height width height = Ok tt ->
  on_submit device = Ok tt ->
  on_mapAsync device (bytesPerRow * height) = Ok mapped ->
  Z.of_nat (length mapped) = bytesPerRow * height ->
  snd (readPixelsAsync device source options)
  = Ok {| result_data :=
            Float32Data
              (Float32Array_view
                 (packed_rows mapped (Z.to_nat bytesPerRow) (Z.to_nat (16 * width))
                    (Z.to_nat height)));
          result_width := width; result_height := height; result_channels := 4 |}.
Proof.
  intros format x y width height bytesPerRow Htype Hfloat Hw Hh Hfit Hcreate Hcopy Hsubmit
    Hmap Hmapped.
  assert (Hmod : bytesPerRow mod 256 = 0)
    by apply (ceil_div_256 (width * getBytesPerPixel format)).
  pose proof (Z.div_mod bytesPerRow 256 ltac:(lia)) as Hdm.
  assert (Hquarter : bytesPerRow = 4 * (bytesPerRow / 4)).
  { pose proof (Z.div_mod bytesPerRow 4 ltac:(lia)) as Hdm4.
    pose proof (Z.mod_pos_bound bytesPerRow 4 ltac:(lia)). lia. }
  assert (Hstride : 0 <= bytesPerRow / 4) by lia.
  set (stride := Z.to_nat (bytesPerRow / 4)).
  set (rowLength := Z.to_nat (width * 4)).
  assert (Hrows : forall i, (i < Z.to_nat height)%nat ->
             (i * (4 * stride) + 4 * rowLength <= length mapped)%nat).
  { intros i Hi. unfold stride, rowLength.
    assert (Z.of_nat i * bytesPerRow + bytesPerRow <= bytesPerRow * height) by nia.
    nia. }
  unfold readPixelsAsync. rewrite Htype. unfold readPixelsWebGPU.
  fold (source_texture source). fold format.
  fold (region_x options) (region_y options) (region_width source options)
    (region_height source options).
  fold x y width height.
  change (ceil_div (width * getBytesPerPixel format) 256 * 256) with bytesPerRow.
  unfold mbind, gpu_bind, call, pure_step, mret, gpu_ret.
  rewrite Hcreate, Hcopy, Hsubmit, Hmap, Hfloat. simpl app.
  rewrite (TypedArray_make_Ok (S754_zero false) (width * height * 4)) by nia.
  unfold result_bind.
  replace (replicate (Z.to_nat (width * height * 4)) (S754_zero false))
    with (replicate (rowLength * Z.to_nat height) (S754_zero false))
    by (f_equal; unfold rowLength; nia).
  replace (copy_rows (replicate (rowLength * Z.to_nat height) (S754_zero false))
             (Float32Array_view mapped) (bytesPerRow / 4) (width * 4) height)
    with (copy_rows (replicate (rowLength * Z.to_nat height) (S754_zero false))
            (Float32Array_view mapped) (Z.of_nat stride) (Z.of_nat rowLength)
            (Z.of_nat (Z.to_nat height)))
    by (unfold stride, rowLength; f_equal; lia).
  assert (Hview : length (Float32Array_view mapped) = (stride * Z.to_nat height)%nat).
  { apply length_Float32Array_view. unfold stride. nia. }
  rewrite copy_rows_eq.
  - rewrite packed_rows_view by exact Hrows.
    replace (4 * stride)%nat with (Z.to_nat bytesPerRow) by (unfold stride; lia).
    replace (4 * rowLength)%nat with (Z.to_nat (16 * width)) by (unfold rowLength; lia).
    reflexivity.
  - intros i Hi. specialize (Hrows i Hi). rewrite Hview.
    assert (i * stride + stride <= stride * Z.to_nat height)%nat by nia.
    assert (4 * rowLength <= 4 * stride)%nat by (unfold stride, rowLength; lia).
    lia.
Qed.

(** [readPixelsAsync_float_rows] on a 1 x 1 rgba16float target holding the
    pixel (1.0, 1.0, 1.0, 1.0), four half samples 0x3C00: the data returned
    are the two numbers of pattern 0x3C003C00 (about 0.0078) and two zeros
    of the padding. *)
Lemma readPixelsAsync_float_rows_witness :
  let mapped := [0x00; 0x3C; 0x00; 0x3C; 0x00; 0x3C; 0x00; 0x3C] ++ replicate 248 0 in
  let device :=
    {| device_type := webgpu;
       on_createBuffer := fun _ => Ok tt;
       on_copyTextureToBuffer := fun _ _ _ _ _ _ => Ok tt;
       on_submit := Ok tt;
       on_mapAsync := fun _ => Ok mapped;
       on_createFramebuffer := Ok tt;
       on_readPixelsToArrayWebGL := fun _ _ _ _ data => Ok data |} in
  let texture := {| texture_width := 1; texture_height := 1;
                    texture_format := "rgba16float" |} in
  let options := {| options_x := None; options_y := None;
                    options_width := None; options_height := None |} in
  snd (readPixelsAsync device (SourceFramebuffer texture) options)
  = Ok {| result_data :=
            Float32Data [number_of_bits 0x3C003C00; number_of_bits 0x3C003C00;
                         S754_zero false; S754_zero false];
          result_width := 1; result_height := 1; result_channels := 4 |} /\
  number_of_bits 0x3C003C00 <> number_of 1 0.
Proof.
  intros mapped device texture options. split; [| vm_compute; discriminate].
  assert (Hpos : 0 <= 1) by lia. assert (Hfit : 16 * 1 <= 256) by lia.
  exact (readPixelsAsync_float_rows device (SourceFramebuffer texture) options mapped
           eq_refl eq_refl Hpos Hpos Hfit eq_refl eq_refl eq_refl eq_refl eq_refl).
Defined.
(** ** gpu-readback.ts: [flipPixelsVertically] on arrays of another size *)

Section FlipExtras.
Context {A : Type} (zero : A).

Lemma flip_loop_tail (store : gmap nat (list A)) (data flipped : nat) (b tail : list A)
    (rowSize height : nat) (m : nat) :
  store !! data = Some b -> data <> flipped ->
  (height * rowSize <= length b)%nat ->
  forall y : nat, (y + m = height)%nat ->
    for_iter m (Z.of_nat y)
      (flip_row data flipped (Z.of_nat rowSize) (Z.of_nat height))
      (<[flipped := replicate ((height - y) * rowSize) zero ++ flip_rows b rowSize y ++ tail]>
         store)
    = Ok (<[flipped := flip_rows b rowSize height ++ tail]> store).
Proof.
  intros Hdata Hne Hlen. induction m as [| m IH]; intros y Hy.
  - simpl. replace y with height by lia. rewrite Nat.sub_diag. reflexivity.
  - simpl for_iter.
    rewrite (flip_row_eq _ _ _ _ _ _ b
               (replicate ((height - y) * rowSize) zero ++ flip_rows b rowSize y ++ tail))
      by (rewrite ?lookup_insert_eq, ?lookup_insert_ne by congruence; done).
    replace (Z.of_nat y * Z.of_nat rowSize) with (Z.of_nat (y * rowSize)) by lia.
    rewrite subarray_in_range by nia.
    fold (row b rowSize y).
    replace ((height - y) * rowSize)%nat
      with ((height - S y) * rowSize + rowSize)%nat by nia.
    rewrite replicate_add, <- app_assoc.
    replace ((Z.of_nat height - 1 - Z.of_nat y) * Z.of_nat rowSize)
      with (Z.of_nat (length (replicate ((height - S y) * rowSize) zero)))
      by (rewrite length_replicate; nia).
    rewrite TypedArray_set_middle
      by (rewrite length_replicate, length_row; [reflexivity | nia]).
    rewrite bind_Ok, insert_insert_eq.
    rewrite (app_assoc (row b rowSize y)), <- flip_rows_S.
    replace (Z.of_nat y + 1) with (Z.of_nat (S y)) by lia.
    apply IH. lia.
Qed.

(** X19.  An array longer than the image is not copied whole: when [data]
    holds more than [width * channels * height] elements,
    [flipPixelsVertically] returns an array of the length of [data] that
    starts with the [height] rows in reverse order and is zero from there
    on.  In particular a height of 0 gives an array of zeros. *)
Theorem flipPixelsVertically_longer_input (store : gmap nat (list A)) (data : nat)
    (b : list A) (width height channels : Z) :
  store !! data = Some b ->
  0 <= width * channels -> 0 <= height ->
  width * channels * height <= Z.of_nat (length b) ->
  flipPixelsVertically zero store data width height channels
  = Ok (<[fresh (dom store) :=
            flip_rows b (Z.to_nat (width * channels)) (Z.to_nat height)
            ++ replicate (length b - Z.to_nat (width * channels * height)) zero]> store,
        fresh (dom store)).
Proof.
  intros Hdata Hrow Hh Hlen. unfold flipPixelsVertically. rewrite Hdata.
  rewrite TypedArray_make_Ok by lia. rewrite bind_Ok, Nat2Z.id.
  set (flipped := fresh (dom store)).
  assert (Hfresh : store !! flipped = None) by (apply not_elem_of_dom, is_fresh).
  assert (Hne : data <> flipped) by (intros ->; congruence).
  unfold for_lt. rewrite Z.sub_0_r.
  set (rowSize := Z.to_nat (width * channels)). set (n := Z.to_nat height).
  assert (Hb : (n * rowSize <= length b)%nat) by (unfold n, rowSize; nia).
  set (tail := replicate (length b - Z.to_nat (width * channels * height)) zero).
  pose proof (flip_loop_tail store data flipped b tail rowSize n n Hdata Hne Hb 0%nat
                ltac:(lia)) as Hloop.
  rewrite Nat.sub_0_r in Hloop. change (flip_rows b rowSize 0) with (@nil A) in Hloop.
  cbn [app] in Hloop. unfold tail in Hloop at 1. rewrite <- replicate_add in Hloop.
  replace (n * rowSize + (length b - Z.to_nat (width * channels * height)))%nat
    with (length b) in Hloop by (unfold n, rowSize; nia).
  replace (Z.of_nat rowSize) with (width * channels) in Hloop by (unfold rowSize; lia).
  replace (Z.of_nat n) with height in Hloop by (unfold n; lia).
  change (Z.of_nat 0) with 0 in Hloop. rewrite Hloop. reflexivity.
Qed.

Lemma length_subarray_prefix (b : list A) (rowSize : Z) :
  0 <= rowSize ->
  Z.of_nat (length (TypedArray.subarray b 0 (0 + rowSize)))
  = Z.min rowSize (Z.of_nat (length b)).
Proof.
  intros Hrow. unfold TypedArray.subarray.
  destruct (Z.ltb_spec 0 0); [lia |]. destruct (Z.ltb_spec (0 + rowSize) 0); [lia |].
  rewrite length_take, length_drop. lia.
Qed.

(** X20.  An array shorter than the image makes [flipPixelsVertically]
    throw: with at least two rows of at least one element and fewer than
    [width * channels * height] elements in [data], the first row does not
    fit at its place in the new array and [set] raises a [RangeError]. *)
Theorem flipPixelsVertically_shorter_input (store : gmap nat (list A)) (data : nat)
    (b : list A) (width height channels : Z) :
  store !! data = Some b ->
  0 < width * channels -> 2 <= height ->
  Z.of_nat (length b) < width * channels * height ->
  flipPixelsVertically zero store data width height channels = Throw RangeError.
Proof.
  intros Hdata Hrow Hh Hlen. unfold flipPixelsVertically. rewrite Hdata.
  rewrite TypedArray_make_Ok by lia. rewrite bind_Ok, Nat2Z.id.
  set (flipped := fresh (dom store)).
  assert (Hfresh : store !! flipped = None) by (apply not_elem_of_dom, is_fresh).
  assert (Hne : data <> flipped) by (intros ->; congruence).
  unfold for_lt. rewrite Z.sub_0_r.
  destruct (Z.to_nat height) as [| n] eqn:Hn; [lia |].
  cbn [for_iter].
  rewrite (flip_row_eq _ _ _ _ _ _ b (replicate (length b) zero))
    by (rewrite ?lookup_insert_eq, ?lookup_insert_ne by congruence; done).
  unfold TypedArray.set at 1.
  pose proof (length_subarray_prefix b (width * channels) ltac:(lia)) as Hsub.
  rewrite Z.mul_0_l. rewrite length_replicate.
  destruct (Z.ltb_spec ((height - 1 - 0) * (width * channels)) 0) as [Hneg | Hpos];
    [reflexivity |].
  destruct (Z.ltb_spec (Z.of_nat (length b))
              ((height - 1 - 0) * (width * channels)
               + Z.of_nat (length (TypedArray.subarray b 0 (0 + width * channels)))))
    as [Hlt | Hge]; [reflexivity |].
  exfalso. rewrite Hsub in Hge.
  assert (width * channels <= (height - 1 - 0) * (width * channels)) by nia. lia.
Qed.

End FlipExtras.

(** [flipPixelsVertically_longer_input] on six bytes read as a 1 x 2 image
    of two channels, and as an image without rows. *)
Lemma flipPixelsVertically_longer_input_witness :
  flip_pixels 0 [1; 2; 3; 4; 5; 6] 1 2 2 = Ok [3; 4; 1; 2; 0; 0] /\
  flip_pixels 0 [1; 2; 3; 4; 5; 6] 1 0 2 = Ok [0; 0; 0; 0; 0; 0].
Proof.
  split.
  - unfold flip_pixels.
    rewrite (flipPixelsVertically_longer_input 0 {[ 0%nat := [1; 2; 3; 4; 5; 6] ]} 0%nat
               [1; 2; 3; 4; 5; 6] 1 2 2 ltac:(apply lookup_singleton_eq)) by (simpl; lia).
    reflexivity.
  - unfold flip_pixels.
    rewrite (flipPixelsVertically_longer_input 0 {[ 0%nat := [1; 2; 3; 4; 5; 6] ]} 0%nat
               [1; 2; 3; 4; 5; 6] 1 0 2 ltac:(apply lookup_singleton_eq)) by (simpl; lia).
    reflexivity.
Defined.

(** [flipPixelsVertically_shorter_input] on six bytes read as a 1 x 2 image
    of four channels. *)
Lemma flipPixelsVertically_shorter_input_witness :
  flipPixelsVertically 0 {[ 0%nat := [1; 2; 3; 4; 5; 6] ]} 0%nat 1 2 4 = Throw RangeError.
Proof.
  apply (flipPixelsVertically_shorter_input 0 {[ 0%nat := [1; 2; 3; 4; 5; 6] ]} 0%nat
           [1; 2; 3; 4; 5; 6] 1 2 4 ltac:(apply lookup_singleton_eq)); simpl; lia.
Defined.
(** ** hdr-render-loop.ts: single frames *)

Section RenderLoopExtras.
Context {World : Type} (env : @Env World) (exporter : Exporter).

Lemma prop_redirect key v original (props : gmap string PropValue) :
  prop (merge_props (<[ "_framebuffer" := v ]> {[ "onAfterRender" := original ]}) props) key
  = if decide (key = "_framebuffer") then v
    else if decide (key = "onAfterRender") then original
    else prop props key.
Proof.
  unfold prop, merge_props.
  destruct (decide (key = "_framebuffer")) as [-> | Hfb].
  { rewrite lookup_union_l' by (rewrite lookup_insert_eq; eauto).
    now rewrite lookup_insert_eq. }
  destruct (decide (key = "onAfterRender")) as [-> | Hcb].
  { rewrite lookup_union_l'
      by (rewrite lookup_insert_ne, lookup_singleton_eq by done; eauto).
    now rewrite lookup_insert_ne, lookup_singleton_eq by done. }
  rewrite lookup_union_r; [reflexivity |].
  rewrite lookup_insert_ne by done. now apply lookup_singleton_ne.
Qed.

Lemma prop_merge_singleton_ne key key' v (props : gmap string PropValue) :
  key <> key' -> prop (merge_props {[ key' := v ]} props) key = prop props key.
Proof.
  intros Hne. unfold prop, merge_props.
  rewrite lookup_union_r by (now apply lookup_singleton_ne). reflexivity.
Qed.

(** What [_renderToHDR] leaves behind, by outcome. *)
Lemma renderToHDR_outcomes (m : @Machine World) :
  let original := deck_onAfterRender m in
  match _renderToHDR env exporter m with
  | (m', Returned pixels) =>
      effects m' = effects m ++ readback_effects exporter original /\
      deck_framebuffer m' = framebuffer (exporter_framebuffer exporter) /\
      deck_onAfterRender m' = original /\
      private_fields m' = private_fields m
  | (m', Threw e) =>
      effects m' = effects m ++ take 3 (readback_effects exporter original) /\
      deck_framebuffer m' = framebuffer (exporter_framebuffer exporter) /\
      deck_onAfterRender m' = readback_callback original /\
      private_fields m' = private_fields m
  | (m', Waiting) =>
      effects m' = effects m ++ take 2 (readback_effects exporter original) /\
      deck_framebuffer m' = framebuffer (exporter_framebuffer exporter) /\
      deck_onAfterRender m' = readback_callback original /\
      private_fields m' = private_fields m
  end.
Proof.
  intros original.
  unfold _renderToHDR, mbind, M_bind, deck_prop, deck_setProps, deck_redraw,
    exporter_readPixelsAsync, wait_forever, mret, M_ret.
  cbn [loop world effects log with_loop deck_props].
  destruct (redraw env _ (world m)) as [w [|]].
  - cbn [loop world effects].
    destruct (readPixels env w) as [w' [p | e]]; cbn [outcome_of].
    + unfold deck_framebuffer, deck_onAfterRender, log, with_loop, private_fields,
        readback_effects.
      cbn [loop deck_props effects _originalFramebuffer _isRendering].
      rewrite <- !app_assoc. split; [reflexivity |].
      rewrite prop_merge_singleton_ne by done. rewrite prop_merge_singleton.
      rewrite prop_redirect. cbn. auto.
    + unfold deck_framebuffer, deck_onAfterRender, log, with_loop, private_fields,
        readback_effects.
      cbn [loop deck_props effects _originalFramebuffer _isRendering take].
      rewrite <- !app_assoc. split; [reflexivity |].
      rewrite !prop_redirect. cbn. auto.
  - unfold deck_framebuffer, deck_onAfterRender, log, with_loop, private_fields,
      readback_effects.
    cbn [loop deck_props effects _originalFramebuffer _isRendering take].
    rewrite <- !app_assoc. split; [reflexivity |].
    rewrite !prop_redirect. cbn. auto.
Qed.

(** The pixels [_renderToHDR] resolves with are those the exporter read
    after the deck drew the frame with the HDR framebuffer installed. *)
Lemma renderToHDR_readback (m m' : @Machine World) pixels :
  _renderToHDR env exporter m = (m', Returned pixels) ->
  exists drawn,
    redraw env (readback_props exporter (deck_props (loop m))) (world m) = (drawn, true) /\
    readPixels env drawn = (world m', Ok pixels).
Proof.
  unfold _renderToHDR, mbind, M_bind, deck_prop, deck_setProps, deck_redraw,
    exporter_readPixelsAsync, wait_forever, mret, M_ret, readback_props.
  cbn [loop world effects log with_loop deck_props].
  destruct (redraw env _ (world m)) as [drawn [|]]; [| discriminate].
  cbn [loop world effects].
  destruct (readPixels env drawn) as [read [p | e]] eqn:Hread; cbn [outcome_of];
    [| discriminate].
  intros [= <- <-]. exists drawn. unfold log, with_loop. cbn [world].
  split; [reflexivity | exact Hread].
Qed.

(** X21.  [capturePixels] calls none of the frame callbacks: when it
    returns, the render loop has installed the HDR framebuffer and its
    one-time [onAfterRender], redrawn, read the pixels and put the caller's
    [onAfterRender] back, and nothing else.  The result is the readback
    flipped, the readback being what the exporter read once the deck had
    drawn with the HDR framebuffer installed; like [renderFrame], it leaves
    the deck rendering into the HDR framebuffer and the private fields as
    they were. *)
Theorem capturePixels_steps (m m' : @Machine World) flipped :
  capturePixels env exporter m = (m', Returned flipped) ->
  effects m' = effects m ++ readback_effects exporter (deck_onAfterRender m) /\
  deck_framebuffer m' = framebuffer (exporter_framebuffer exporter) /\
  deck_onAfterRender m' = deck_onAfterRender m /\
  private_fields m' = private_fields m /\
  exists drawn pixels,
    redraw env (readback_props exporter (deck_props (loop m))) (world m) = (drawn, true) /\
    readPixels env drawn = (world m', Ok pixels) /\
    flip_pixels (S754_zero false) pixels (exporter_width exporter)
      (exporter_height exporter) 4 = Ok flipped.
Proof.
  unfold capturePixels, mbind, M_bind. pose proof (renderToHDR_outcomes m) as Hrender.
  destruct (_renderToHDR env exporter m) as [m1 [pixels | e |]] eqn:Hrun;
    [| discriminate | discriminate].
  apply renderToHDR_readback in Hrun as (drawn & Hdrawn & Hread).
  unfold pure_result.
  destruct (flip_pixels _ pixels _ _ _) as [flipped' | e] eqn:Hflip; cbn [outcome_of];
    [| discriminate].
  intros [= <- <-]. destruct Hrender as (He & Hfb & Hcb & Hp).
  repeat split; try assumption. exists drawn, pixels. auto.
Qed.

(** X22.  When the readback fails, [_renderToHDR] rejects with the error
    of the readback and does not put the caller's [onAfterRender] back: the
    deck keeps the one-time callback, and the [finally] block of
    [renderSequence], which restores [_framebuffer], leaves it there. *)
Theorem renderToHDR_failure_keeps_callback (m m' : @Machine World) e :
  _renderToHDR env exporter m = (m', Threw e) ->
  deck_onAfterRender m' = readback_callback (deck_onAfterRender m) /\
  deck_framebuffer m' = framebuffer (exporter_framebuffer exporter) /\
  deck_onAfterRender (fst (renderSequence_finally m'))
  = readback_callback (deck_onAfterRender m).
Proof.
  intros Hrun. pose proof (renderToHDR_outcomes m) as Hrender. rewrite Hrun in Hrender.
  destruct Hrender as (_ & Hfb & Hcb & _).
  split; [exact Hcb |]. split; [exact Hfb |].
  rewrite <- Hcb. unfold renderSequence_finally, _endExport, mbind, M_bind,
    get_originalFramebuffer, deck_setProps, set_originalFramebuffer, set_isRendering,
    deck_onAfterRender, log, with_loop.
  cbn [fst loop deck_props]. now apply prop_merge_singleton_ne.
Qed.


Lemma call_onFrameStart_returned frame (m m' : @Machine World) :
  call_onFrameStart env frame m = (m', Returned tt) ->
  effects m' = effects m ++ effect_of (onFrameStart env) (Eff_onFrameStart frame) /\
  loop m' = loop m.
Proof.
  unfold call_onFrameStart, effect_of. destruct (onFrameStart env) as [hook |].
  - destruct (hook frame (world m)) as [w r]. intros [= <- _]. split; reflexivity.
  - intros [= <-]. rewrite app_nil_r. split; reflexivity.
Qed.

Lemma call_onUpdateFrame_returned frame (m m' : @Machine World) :
  call_onUpdateFrame env frame m = (m', Returned tt) ->
  effects m' = effects m ++ effect_of (onUpdateFrame env) (Eff_onUpdateFrame frame).
Proof.
  unfold call_onUpdateFrame, effect_of. destruct (onUpdateFrame env) as [hook |].
  - destruct (hook frame (deck_props (loop m)) (world m)) as [[w props] r].
    intros [= <- _]. reflexivity.
  - intros [= <-]. now rewrite app_nil_r.
Qed.

Lemma call_onFrameComplete_returned frame pixels (m m' : @Machine World) :
  call_onFrameComplete env frame pixels m = (m', Returned tt) ->
  effects m' = effects m ++ effect_of (onFrameComplete env) (Eff_onFrameComplete frame) /\
  loop m' = loop m.
Proof.
  unfold call_onFrameComplete, effect_of. destruct (onFrameComplete env) as [hook |].
  - destruct (hook frame pixels (world m)) as [w r]. intros [= <- _]. split; reflexivity.
  - intros [= <-]. rewrite app_nil_r. split; reflexivity.
Qed.

(** A frame that is rendered: its number, what was done for it and in which
    order, and what it holds. *)
Lemma render_steps_returned frame (m m' : @Machine World) r :
  render_steps env exporter frame m = (m', Returned r) ->
  frame_number r = frame /\
  exists original pixels,
    effects m'
    = effects m ++ effect_of (onFrameStart env) (Eff_onFrameStart frame)
      ++ effect_of (onUpdateFrame env) (Eff_onUpdateFrame frame)
      ++ readback_effects exporter original
      ++ effect_of (onFrameComplete env) (Eff_onFrameComplete frame) /\
    flip_pixels (S754_zero false) pixels (exporter_width exporter)
      (exporter_height exporter) 4 = Ok (frame_pixels r) /\
    writeEXR (frame_pixels r) (exporter_width exporter) (exporter_height exporter)
      (exrOptions exporter) = Ok (frame_exrBuffer r).
Proof.
  unfold render_steps. unfold mbind at 1, M_bind at 1.
  destruct (call_onFrameStart env frame m) as [m1 [[] | e |]] eqn:Hstart;
    [| discriminate | discriminate].
  apply call_onFrameStart_returned in Hstart as [Hstart _].
  unfold mbind at 1, M_bind at 1.
  destruct (call_onUpdateFrame env frame m1) as [m2 [[] | e |]] eqn:Hupdate;
    [| discriminate | discriminate].
  apply call_onUpdateFrame_returned in Hupdate.
  unfold mbind at 1, M_bind at 1.
  pose proof (renderToHDR_outcomes m2) as Hrender.
  destruct (_renderToHDR env exporter m2) as [m3 [pixels | e |]];
    [| discriminate | discriminate].
  destruct Hrender as (Hrender & _).
  unfold mbind at 1, M_bind at 1.
  destruct (call_onFrameComplete env frame pixels m3) as [m4 [[] | e |]] eqn:Hcomplete;
    [| discriminate | discriminate].
  apply call_onFrameComplete_returned in Hcomplete as [Hcomplete _].
  unfold mbind, M_bind, pure_result, mret, M_ret.
  destruct (flip_pixels _ _ _ _ _) as [flipped | e] eqn:Hflip; cbn [outcome_of];
    [| discriminate].
  destruct (writeEXR _ _ _ _) as [exr | e] eqn:Hexr; cbn [outcome_of]; [| discriminate].
  intros [= <- <-]. split; [reflexivity |].
  exists (deck_onAfterRender m2), pixels. cbn [frame_pixels frame_exrBuffer].
  split; [| split; assumption].
  rewrite Hcomplete, Hrender, Hupdate, Hstart, <- !app_assoc. reflexivity.
Qed.


(** *** Sequences *)

Lemma renderSequence_finally_returns (m : @Machine World) :
  exists m', renderSequence_finally m = (m', Returned tt).
Proof. eexists. reflexivity. Qed.

(** The frames an iteration yields are numbered consecutively. *)
Lemma iterate_suspended_frames consumer fuel :
  forall (g : Generator) frame (m m' : @Machine World) frames ending,
    generator_state g = SuspendedAtYield frame ->
    iterate env exporter fuel consumer g m = (m', frames, ending) ->
    frame_number <$> frames = range (frame + 1) (length frames) /\
    Z.of_nat (length frames) <= Z.max 0 (endFrame g - frame) /\
    (ending = Completed -> Z.of_nat (length frames) = Z.max 0 (endFrame g - frame)).
Proof.
  induction fuel as [| fuel IH]; intros g frame m m' frames ending Hg Hrun.
  - simpl in Hrun. injection Hrun as <- <- <-. repeat split; [simpl; lia | discriminate].
  - simpl in Hrun. unfold generator_next in Hrun. rewrite Hg in Hrun.
    unfold renderSequence_try, renderSequence_loop in Hrun.
    destruct (Z.leb_spec (frame + 1) (endFrame g)) as [Hle | Hgt].
    + unfold mbind, M_bind in Hrun.
      destruct (render_steps env exporter (frame + 1) m) as [m1 [r | e |]] eqn:Hsteps;
        simpl in Hrun.
      * apply render_steps_returned in Hsteps as [Hnumber _].
        destruct (consumer r).
        -- destruct (iterate env exporter fuel consumer
                       (in_state g (SuspendedAtYield (frame + 1))) m1)
             as [[m2 frames2] ending2] eqn:Hrest.
           injection Hrun as <- <- <-.
           destruct (IH (in_state g (SuspendedAtYield (frame + 1))) (frame + 1) _ _ _ _
                       eq_refl Hrest) as (Hnumbers & Hbound & Hall).
           cbn [endFrame in_state] in Hbound, Hall.
           rewrite fmap_cons, Hnumber, Hnumbers. cbn [length range].
           split; [reflexivity |]. split; [lia |].
           intros Hc. specialize (Hall Hc). lia.
        -- injection Hrun as <- <- <-. rewrite fmap_cons, Hnumber.
           split; [reflexivity |]. split; [simpl; lia | discriminate].
      * injection Hrun as <- <- <-. repeat split; [simpl; lia | discriminate].
      * injection Hrun as <- <- <-. repeat split; [simpl; lia | discriminate].
    + simpl in Hrun. injection Hrun as <- <- <-. repeat split; simpl; lia.
Qed.

(** X24.  The frames [renderSequence] yields are numbered consecutively
    from [startFrame] (0 when it is not given); there are never more than
    [endFrame - startFrame + 1] of them, and exactly that many (none when
    [endFrame < startFrame]) when the iteration runs to completion. *)
Theorem renderSequence_frame_numbers (options_startFrame : option Z) (options_endFrame : Z)
    (consumer : FrameResult -> bool) (fuel : nat) (m m' : @Machine World)
    (frames : list FrameResult) (ending : RunEnd) :
  iterate env exporter fuel consumer
    (renderSequence options_startFrame options_endFrame) m = (m', frames, ending) ->
  frame_number <$> frames = range (default 0 options_startFrame) (length frames) /\
  Z.of_nat (length frames) <= Z.max 0 (options_endFrame - default 0 options_startFrame + 1) /\
  (ending = Completed ->
   Z.of_nat (length frames) = Z.max 0 (options_endFrame - default 0 options_startFrame + 1)).
Proof.
  intros Hrun. set (g := renderSequence options_startFrame options_endFrame) in *.
  destruct fuel as [| fuel].
  { simpl in Hrun. injection Hrun as <- <- <-. repeat split; [simpl; lia | discriminate]. }
  destruct (_isRendering (loop m)) eqn:Hbusy.
  - simpl in Hrun. unfold generator_next in Hrun. cbn [g renderSequence generator_state] in Hrun.
    unfold mbind, M_bind, get_isRendering in Hrun. rewrite Hbusy in Hrun.
    cbn in Hrun. injection Hrun as <- <- <-. repeat split; [simpl; lia | discriminate].
  - rewrite (iterate_start env exporter consumer fuel g m eq_refl Hbusy) in Hrun.
    destruct (iterate_suspended_frames consumer (S fuel)
                (in_state g (SuspendedAtYield (startFrame g - 1))) (startFrame g - 1) _ _ _ _
                eq_refl Hrun) as (Hnumbers & Hbound & Hall).
    cbn [endFrame in_state g renderSequence startFrame] in *.
    replace (default 0 options_startFrame - 1 + 1) with (default 0 options_startFrame)
      in Hnumbers by lia.
    split; [exact Hnumbers |]. split; [lia |]. intros Hc. specialize (Hall Hc). lia.
Qed.


Lemma generator_next_done (g : Generator) frame (m : @Machine World) :
  generator_state g = SuspendedAtYield frame ->
  endFrame g < frame + 1 ->
  generator_next env exporter g m
  = (fst (renderSequence_finally m), Returned (in_state g Finished, Done)).
Proof.
  intros Hg Hend. unfold generator_next. rewrite Hg.
  unfold renderSequence_try, renderSequence_loop.
  destruct (Z.leb_spec (frame + 1) (endFrame g)); [lia |]. reflexivity.
Qed.

Lemma effects_after_beginExport (m : @Machine World) :
  effects (after_beginExport exporter m)
  = effects m
    ++ [Eff_isRendering true;
        Eff_originalFramebuffer (deck_framebuffer m);
        Eff_setProps {[ "_framebuffer" := framebuffer (exporter_framebuffer exporter) ]}].
Proof. unfold after_beginExport. simpl. rewrite <- !app_assoc. reflexivity. Qed.

Lemma effects_finally (m : @Machine World) :
  effects (fst (renderSequence_finally m))
  = effects m
    ++ [Eff_setProps {[ "_framebuffer" := _originalFramebuffer (loop m) ]};
        Eff_originalFramebuffer null;
        Eff_isRendering false].
Proof. simpl. rewrite <- !app_assoc. reflexivity. Qed.

(** X25.  A sequence without frames ([endFrame < startFrame]) still enters
    and leaves the export: its first [next()] sets [_isRendering], saves the
    [_framebuffer] prop, installs the HDR framebuffer, puts the saved value
    back, clears the saved value and the flag, and completes without a
    frame; no callback is called, nothing is drawn and nothing is read. *)
Theorem renderSequence_empty_range (options_startFrame : option Z) (options_endFrame : Z)
    (consumer : FrameResult -> bool) (fuel : nat) (m : @Machine World) :
  _isRendering (loop m) = false ->
  options_endFrame < default 0 options_startFrame ->
  exists m',
    iterate env exporter (S fuel) consumer
      (renderSequence options_startFrame options_endFrame) m = (m', [], Completed) /\
    effects m'
    = effects m
      ++ [Eff_isRendering true;
          Eff_originalFramebuffer (deck_framebuffer m);
          Eff_setProps {[ "_framebuffer" := framebuffer (exporter_framebuffer exporter) ]};
          Eff_setProps {[ "_framebuffer" := deck_framebuffer m ]};
          Eff_originalFramebuffer null;
          Eff_isRendering false] /\
    world m' = world m /\
    deck_framebuffer m' = deck_framebuffer m /\
    _isRendering (loop m') = false.
Proof.
  intros Hidle Hempty.
  set (g := renderSequence options_startFrame options_endFrame).
  rewrite (iterate_start env exporter consumer fuel g m eq_refl Hidle).
  cbn [iterate].
  rewrite (generator_next_done (in_state g (SuspendedAtYield (startFrame g - 1)))
             (startFrame g - 1) _ eq_refl)
    by (cbn [endFrame in_state g renderSequence startFrame]; lia).
  eexists. split; [reflexivity |].
  rewrite effects_finally, effects_after_beginExport, <- app_assoc.
  split; [reflexivity |]. split; [reflexivity |].
  split; [apply prop_merge_singleton | reflexivity].
Qed.

Lemma call_onFrameStart_settles frame (m : @Machine World) :
  snd (call_onFrameStart env frame m) <> Waiting.
Proof.
  unfold call_onFrameStart. destruct (onFrameStart env) as [hook |]; [| discriminate].
  destruct (hook frame (world m)) as [w [[] | e]]; discriminate.
Qed.

Lemma call_onUpdateFrame_settles frame (m : @Machine World) :
  snd (call_onUpdateFrame env frame m) <> Waiting.
Proof.
  unfold call_onUpdateFrame. destruct (onUpdateFrame env) as [hook |]; [| discriminate].
  destruct (hook frame (deck_props (loop m)) (world m)) as [[w props] [[] | e]]; discriminate.
Qed.

Lemma call_onFrameComplete_settles frame pixels (m : @Machine World) :
  snd (call_onFrameComplete env frame pixels m) <> Waiting.
Proof.
  unfold call_onFrameComplete. destruct (onFrameComplete env) as [hook |]; [| discriminate].
  destruct (hook frame pixels (world m)) as [w [[] | e]]; discriminate.
Qed.

(** A frame waits only for the redraw: the deck is then rendering into the
    HDR framebuffer. *)
Lemma render_steps_waiting frame (m m' : @Machine World) :
  render_steps env exporter frame m = (m', Waiting) ->
  deck_framebuffer m' = framebuffer (exporter_framebuffer exporter).
Proof.
  unfold render_steps. unfold mbind at 1, M_bind at 1.
  pose proof (call_onFrameStart_settles frame m) as Hstart.
  destruct (call_onFrameStart env frame m) as [m1 [[] | e |]];
    [| discriminate | now contradiction Hstart].
  unfold mbind at 1, M_bind at 1.
  pose proof (call_onUpdateFrame_settles frame m1) as Hupdate.
  destruct (call_onUpdateFrame env frame m1) as [m2 [[] | e |]];
    [| discriminate | now contradiction Hupdate].
  unfold mbind at 1, M_bind at 1.
  pose proof (renderToHDR_outcomes m2) as Hrender.
  destruct (_renderToHDR env exporter m2) as [m3 [pixels | e |]].
  - unfold mbind at 1, M_bind at 1.
    pose proof (call_onFrameComplete_settles frame pixels m3) as Hcomplete.
    destruct (call_onFrameComplete env frame pixels m3) as [m4 [[] | e |]];
      [| discriminate | now contradiction Hcomplete].
    unfold mbind, M_bind, pure_result, mret, M_ret.
    destruct (flip_pixels _ _ _ _ _); cbn [outcome_of]; [| discriminate].
    destruct (writeEXR _ _ _ _); cbn [outcome_of]; discriminate.
  - discriminate.
  - intros [= <-]. apply Hrender.
Qed.

(** While an iteration has not settled, the render loop is exporting. *)
Lemma iterate_suspended_unsettled v consumer fuel :
  forall (g : Generator) frame (m m' : @Machine World) frames,
    generator_state g = SuspendedAtYield frame ->
    exporting v m ->
    iterate env exporter fuel consumer g m = (m', frames, NeverSettled) ->
    exporting v m' /\ deck_framebuffer m' = framebuffer (exporter_framebuffer exporter).
Proof.
  induction fuel as [| fuel IH]; intros g frame m m' frames Hg Hexp Hrun.
  - simpl in Hrun. discriminate.
  - simpl in Hrun. unfold generator_next in Hrun. rewrite Hg in Hrun.
    unfold renderSequence_try, renderSequence_loop in Hrun.
    destruct (Z.leb_spec (frame + 1) (endFrame g)) as [Hle | Hgt].
    + unfold mbind, M_bind in Hrun.
      pose proof (exporting_preserved (render_steps env exporter (frame + 1)) v m
                    (private_render_steps env exporter (frame + 1)) Hexp) as Hexp1.
      destruct (render_steps env exporter (frame + 1) m) as [m1 [r | e |]] eqn:Hsteps;
        simpl in Hrun, Hexp1.
      * destruct (consumer r).
        -- destruct (iterate env exporter fuel consumer
                       (in_state g (SuspendedAtYield (frame + 1))) m1)
             as [[m2 frames2] ending2] eqn:Hrest.
           injection Hrun as <- <- ->.
           exact (IH (in_state g (SuspendedAtYield (frame + 1))) (frame + 1) m1 m2 frames2
                    eq_refl Hexp1 Hrest).
        -- discriminate.
      * discriminate.
      * injection Hrun as <- _. split; [exact Hexp1 |].
        now apply render_steps_waiting in Hsteps.
    + simpl in Hrun. discriminate.
Qed.

(** X26.  No timeout guards the redraw: when the deck does not call
    [onAfterRender] after a redraw, the iteration never settles and the
    render loop stays as the frame left it, [_isRendering] set, the caller's
    framebuffer saved and the deck rendering into the HDR framebuffer; every
    later [renderSequence] is then refused. *)
Theorem renderSequence_unsettled_locks (options_startFrame : option Z) (options_endFrame : Z)
    (consumer : FrameResult -> bool) (fuel : nat) (m m' : @Machine World)
    (frames : list FrameResult) :
  _isRendering (loop m) = false ->
  iterate env exporter fuel consumer
    (renderSequence options_startFrame options_endFrame) m = (m', frames, NeverSettled) ->
  _isRendering (loop m') = true /\
  _originalFramebuffer (loop m') = deck_framebuffer m /\
  deck_framebuffer m' = framebuffer (exporter_framebuffer exporter) /\
  forall startFrame' endFrame',
    generator_next env exporter (renderSequence startFrame' endFrame') m'
    = (m', Threw (Error "HDRRenderLoop: A render sequence is already in progress")).
Proof.
  intros Hidle Hrun. set (g := renderSequence options_startFrame options_endFrame) in *.
  destruct fuel as [| fuel]; [simpl in Hrun; discriminate |].
  rewrite (iterate_start env exporter consumer fuel g m eq_refl Hidle) in Hrun.
  destruct (iterate_suspended_unsettled _ consumer (S fuel)
              (in_state g (SuspendedAtYield (startFrame g - 1))) (startFrame g - 1)
              (after_beginExport exporter m) m' frames eq_refl
              (exporting_after_beginExport exporter m) Hrun) as [[Hsaved Hbusy] Hfb].
  split; [exact Hbusy |]. split; [exact Hsaved |]. split; [exact Hfb |].
  intros startFrame' endFrame'. unfold generator_next, renderSequence.
  cbn [generator_state]. unfold mbind, M_bind, get_isRendering. rewrite Hbusy. reflexivity.
Qed.


(** *** One sequence after another *)

Lemma renderSequence_try_yields (g : Generator) frame (m : @Machine World) :
  match renderSequence_try (renderSequence_loop env exporter g frame) m with
  | (_, Returned (g', Yield _)) => g' = in_state g (SuspendedAtYield frame)
  | _ => True
  end.
Proof.
  unfold renderSequence_try, renderSequence_loop.
  destruct (frame <=? endFrame g); [| exact I].
  unfold mbind, M_bind.
  destruct (render_steps env exporter frame m) as [m1 [r | e |]]; simpl; auto.
Qed.

Lemma appends_effects_ret {A : Type} (a : A) : appends_effects (mret a : @M World A).
Proof. intros m. exists []. now rewrite app_nil_r. Qed.

Lemma appends_effects_bind {A B : Type} (c : @M World A) (f : A -> @M World B) :
  appends_effects c -> (forall a, appends_effects (f a)) -> appends_effects (c ≫= f).
Proof.
  intros Hc Hf m. unfold mbind, M_bind. destruct (Hc m) as [added Hadded].
  destruct (c m) as [m1 [a | e |]]; simpl in *; [| eauto | eauto].
  destruct (Hf a m1) as [added' Hadded']. exists (added ++ added').
  now rewrite Hadded', Hadded, app_assoc.
Qed.

Lemma appends_effects_same {A : Type} (c : @M World A) :
  (forall m, effects (fst (c m)) = effects m) -> appends_effects c.
Proof. intros H m. exists []. now rewrite app_nil_r. Qed.

Lemma appends_effects_one {A : Type} (c : @M World A) :
  (forall m, exists e, effects (fst (c m)) = effects m ++ [e]) -> appends_effects c.
Proof. intros H m. destruct (H m) as [e He]. now exists [e]. Qed.

Lemma appends_effects_call_onFrameStart frame :
  appends_effects (call_onFrameStart env frame).
Proof.
  unfold call_onFrameStart. destruct (onFrameStart env) as [hook |];
    [| apply appends_effects_ret].
  apply appends_effects_one. intros m. destruct (hook frame (world m)). eexists. reflexivity.
Qed.

Lemma appends_effects_call_onUpdateFrame frame :
  appends_effects (call_onUpdateFrame env frame).
Proof.
  unfold call_onUpdateFrame. destruct (onUpdateFrame env) as [hook |];
    [| apply appends_effects_ret].
  apply appends_effects_one. intros m.
  destruct (hook frame (deck_props (loop m)) (world m)) as [[w props] r].
  eexists. reflexivity.
Qed.

Lemma appends_effects_call_onFrameComplete frame pixels :
  appends_effects (call_onFrameComplete env frame pixels).
Proof.
  unfold call_onFrameComplete. destruct (onFrameComplete env) as [hook |];
    [| apply appends_effects_ret].
  apply appends_effects_one. intros m. destruct (hook frame pixels (world m)).
  eexists. reflexivity.
Qed.

Lemma appends_effects_renderToHDR : appends_effects (_renderToHDR env exporter).
Proof.
  intros m. pose proof (renderToHDR_outcomes m) as H.
  destruct (_renderToHDR env exporter m) as [m1 [pixels | e |]];
    destruct H as [H _]; eexists; exact H.
Qed.

Lemma appends_effects_render_steps frame : appends_effects (render_steps env exporter frame).
Proof.
  unfold render_steps.
  apply appends_effects_bind; [apply appends_effects_call_onFrameStart | intros _].
  apply appends_effects_bind; [apply appends_effects_call_onUpdateFrame | intros _].
  apply appends_effects_bind; [apply appends_effects_renderToHDR | intros pixels].
  apply appends_effects_bind; [apply appends_effects_call_onFrameComplete | intros _].
  apply appends_effects_bind; [now apply appends_effects_same | intros flipped].
  apply appends_effects_bind; [now apply appends_effects_same | intros exr].
  apply appends_effects_ret.
Qed.

Lemma appends_effects_finally : appends_effects (@renderSequence_finally World).
Proof. intros m. eexists. apply effects_finally. Qed.

Lemma appends_effects_try (body : @M World (Generator * IteratorResult)) :
  appends_effects body -> appends_effects (renderSequence_try body).
Proof.
  intros Hbody m. unfold renderSequence_try. destruct (Hbody m) as [added Hadded].
  destruct (body m) as [m1 [[g [r |]] | e |]]; simpl in Hadded; simpl fst;
    try (eexists; rewrite <- Hadded; reflexivity).
  - exists (added ++ [Eff_setProps {[ "_framebuffer" := _originalFramebuffer (loop m1) ]};
                      Eff_originalFramebuffer null; Eff_isRendering false]).
    simpl. rewrite Hadded, <- !app_assoc. reflexivity.
  - exists (added ++ [Eff_setProps {[ "_framebuffer" := _originalFramebuffer (loop m1) ]};
                      Eff_originalFramebuffer null; Eff_isRendering false]).
    simpl. rewrite Hadded, <- !app_assoc. reflexivity.
Qed.

Lemma appends_effects_loop (g : Generator) frame :
  appends_effects (renderSequence_loop env exporter g frame).
Proof.
  unfold renderSequence_loop. destruct (frame <=? endFrame g); [| apply appends_effects_ret].
  apply appends_effects_bind; [apply appends_effects_render_steps | intros r].
  apply appends_effects_ret.
Qed.

Lemma iterate_suspended_appends consumer fuel :
  forall (g : Generator) frame (m : @Machine World),
    generator_state g = SuspendedAtYield frame ->
    exists added, effects (iterate env exporter fuel consumer g m).1.1 = effects m ++ added.
Proof.
  induction fuel as [| fuel IH]; intros g frame m Hg.
  - exists []. simpl. now rewrite app_nil_r.
  - simpl. unfold generator_next. rewrite Hg.
    destruct (appends_effects_try _ (appends_effects_loop g (frame + 1)) m)
      as [added Hadded].
    pose proof (renderSequence_try_yields g (frame + 1) m) as Hyield.
    destruct (renderSequence_try (renderSequence_loop env exporter g (frame + 1)) m)
      as [m1 [[g1 [r |]] | e |]]; simpl in Hadded; try (exists added; exact Hadded).
    rewrite Hyield. destruct (consumer r).
    + destruct (IH (in_state g (SuspendedAtYield (frame + 1))) (frame + 1) m1 eq_refl)
        as [added' Hadded'].
      destruct (iterate env exporter fuel consumer
                  (in_state g (SuspendedAtYield (frame + 1))) m1) as [[m2 frames2] ending2].
      exists (added ++ added'). simpl in *. now rewrite Hadded', Hadded, app_assoc.
    + simpl. exists (added ++ [Eff_setProps
                                 {[ "_framebuffer" := _originalFramebuffer (loop m1) ]};
                               Eff_originalFramebuffer null; Eff_isRendering false]).
      rewrite Hadded, <- !app_assoc. reflexivity.
Qed.


(** X27.  A render loop can be used again.  When an iteration over
    [renderSequence] has come to an end, by completion, by the consumer
    leaving or by an exception, a second iteration on the same render loop
    is admitted: it sets [_isRendering], saves the framebuffer the deck had
    before the first iteration, and installs the HDR framebuffer; when it
    comes to an end in its turn, the deck renders into that original
    framebuffer again and [_isRendering] is reset. *)
Theorem renderSequence_reusable (startFrame1 startFrame2 : option Z) (endFrame1 endFrame2 : Z)
    (consumer1 consumer2 : FrameResult -> bool) (fuel1 fuel2 : nat)
    (m m1 m2 : @Machine World) (frames1 frames2 : list FrameResult)
    (ending1 ending2 : RunEnd) :
  _isRendering (loop m) = false ->
  iterate env exporter fuel1 consumer1 (renderSequence startFrame1 endFrame1) m
  = (m1, frames1, ending1) ->
  exited ending1 ->
  iterate env exporter fuel2 consumer2 (renderSequence startFrame2 endFrame2) m1
  = (m2, frames2, ending2) ->
  exited ending2 ->
  (exists later,
      effects m2
      = effects m1
        ++ [Eff_isRendering true;
            Eff_originalFramebuffer (deck_framebuffer m);
            Eff_setProps
              {[ "_framebuffer" := framebuffer (exporter_framebuffer exporter) ]}]
        ++ later) /\
  deck_framebuffer m2 = deck_framebuffer m /\
  _isRendering (loop m2) = false.
Proof.
  intros Hidle Hrun1 Hexit1 Hrun2 Hexit2.
  assert (Hrestored1 : restored (deck_framebuffer m) m1).
  { destruct fuel1 as [| fuel1].
    { simpl in Hrun1. injection Hrun1 as <- <- <-.
      destruct Hexit1 as [? | [? | [e ?]]]; discriminate. }
    set (g1 := renderSequence startFrame1 endFrame1) in *.
    rewrite (iterate_start env exporter consumer1 fuel1 g1 m eq_refl Hidle) in Hrun1.
    exact (iterate_suspended env exporter _ consumer1 (S fuel1)
             (in_state g1 (SuspendedAtYield (startFrame g1 - 1))) (startFrame g1 - 1)
             (after_beginExport exporter m) m1 frames1 ending1
             eq_refl (exporting_after_beginExport exporter m) Hrun1 Hexit1). }
  destruct Hrestored1 as (Hfb1 & Hidle1 & _). fold (deck_framebuffer m1) in Hfb1.
  destruct fuel2 as [| fuel2].
  { simpl in Hrun2. injection Hrun2 as <- <- <-.
    destruct Hexit2 as [? | [? | [e ?]]]; discriminate. }
  set (g2 := renderSequence startFrame2 endFrame2) in *.
  rewrite (iterate_start env exporter consumer2 fuel2 g2 m1 eq_refl Hidle1) in Hrun2.
  pose proof (iterate_suspended env exporter _ consumer2 (S fuel2)
                (in_state g2 (SuspendedAtYield (startFrame g2 - 1))) (startFrame g2 - 1)
                (after_beginExport exporter m1) m2 frames2 ending2 eq_refl
                (exporting_after_beginExport exporter m1) Hrun2 Hexit2) as Hrestored2.
  fold (deck_framebuffer m1) in Hrestored2. rewrite Hfb1 in Hrestored2.
  destruct Hrestored2 as (Hfb2 & Hidle2 & _).
  split; [| split; assumption].
  destruct (iterate_suspended_appends consumer2 (S fuel2)
              (in_state g2 (SuspendedAtYield (startFrame g2 - 1))) (startFrame g2 - 1)
              (after_beginExport exporter m1) eq_refl) as [later Hlater].
  rewrite Hrun2 in Hlater. cbn [fst] in Hlater.
  exists later. rewrite Hlater, effects_after_beginExport, Hfb1, <- app_assoc. reflexivity.
Qed.

End RenderLoopExtras.

(** [capturePixels_steps] on the small scene: one red pixel is captured. *)
Lemma capturePixels_steps_witness :
  exists m' drawn pixels,
    capturePixels example_env example_exporter example_machine
    = (m', Returned [number_of 1 0; S754_zero false; S754_zero false; number_of 1 0]) /\
    effects m' = readback_effects example_exporter undefined /\
    deck_framebuffer m' = framebuffer 1 /\
    readPixels example_env drawn = (world m', Ok pixels).
Proof.
  destruct (capturePixels example_env example_exporter example_machine) as [m' out] eqn:Hrun.
  assert (Hout : out = Returned [number_of 1 0; S754_zero false; S754_zero false; number_of 1 0]).
  { pose proof Hrun as Hvalue. vm_compute in Hvalue. now injection Hvalue as _ <-. }
  subst out.
  destruct (capturePixels_steps example_env example_exporter example_machine m' _ Hrun)
    as (Heffects & Hfb & _ & _ & drawn & pixels & _ & Hread & _).
  exists m', drawn, pixels. split; [reflexivity |].
  split; [exact Heffects |]. split; [exact Hfb | exact Hread].
Defined.

(** [renderToHDR_failure_keeps_callback] on the scene whose readback
    fails. *)
Lemma renderToHDR_failure_keeps_callback_witness :
  exists m',
    _renderToHDR example_env_readback_fails example_exporter example_machine
    = (m', Threw (Error "mapping failed")) /\
    deck_onAfterRender m' = readback_callback undefined /\
    deck_onAfterRender (fst (renderSequence_finally m')) = readback_callback undefined.
Proof.
  destruct (_renderToHDR example_env_readback_fails example_exporter example_machine)
    as [m' out] eqn:Hrun.
  assert (Hout : out = Threw (Error "mapping failed")).
  { pose proof Hrun as Hvalue. vm_compute in Hvalue. now injection Hvalue as _ <-. }
  subst out. exists m'. split; [reflexivity |].
  destruct (renderToHDR_failure_keeps_callback example_env_readback_fails example_exporter
              example_machine m' _ Hrun) as (Hcb & _ & Hfinally).
  split; [exact Hcb | exact Hfinally].
Defined.


(** [renderSequence_frame_numbers] on the small scene, where
    [onUpdateFrame] throws at frame 1: of the frames 0 to 2 only frame 0 is
    yielded. *)
Lemma renderSequence_frame_numbers_witness :
  exists m' frame ending,
    iterate example_env example_exporter 4 (fun _ => true) (renderSequence None 2)
      example_machine = (m', [frame], ending) /\
    frame_number frame = 0.
Proof.
  destruct (iterate example_env example_exporter 4 (fun _ => true) (renderSequence None 2)
              example_machine) as [[m' frames] ending] eqn:Hrun.
  destruct (renderSequence_frame_numbers example_env example_exporter None 2 (fun _ => true) 4
              example_machine m' frames ending Hrun) as (Hnumbers & _).
  pose proof Hrun as Hvalue. vm_compute in Hvalue. injection Hvalue as _ Hframes _.
  destruct frames as [| frame rest]; [discriminate Hframes |].
  destruct rest as [| frame' rest]; [| discriminate Hframes].
  exists m', frame, ending. split; [reflexivity |].
  now injection Hnumbers.
Defined.

(** [renderSequence_empty_range] on the small scene, frames 5 to 4. *)
Lemma renderSequence_empty_range_witness :
  exists m',
    iterate example_env example_exporter 1 (fun _ => true) (renderSequence (Some 5) 4)
      example_machine = (m', [], Completed) /\
    world m' = 0%nat /\ deck_framebuffer m' = framebuffer 0.
Proof.
  destruct (renderSequence_empty_range example_env example_exporter (Some 5) 4
              (fun _ => true) 0 example_machine eq_refl)
    as (m' & Hrun & _ & Hworld & Hfb & _); [simpl; lia |].
  exists m'. split; [exact Hrun |]. split; [exact Hworld | exact Hfb].
Defined.

(** [renderSequence_unsettled_locks] on a deck that never calls
    [onAfterRender]. *)
Lemma renderSequence_unsettled_locks_witness :
  exists m',
    iterate example_env_never_drawn example_exporter 3 (fun _ => true) (renderSequence None 2)
      example_machine = (m', [], NeverSettled) /\
    _isRendering (loop m') = true /\
    generator_next example_env_never_drawn example_exporter (renderSequence None 0) m'
    = (m', Threw (Error "HDRRenderLoop: A render sequence is already in progress")).
Proof.
  destruct (iterate example_env_never_drawn example_exporter 3 (fun _ => true)
              (renderSequence None 2) example_machine) as [[m' frames] ending] eqn:Hrun.
  assert (Hend : frames = [] /\ ending = NeverSettled).
  { pose proof Hrun as Hvalue. vm_compute in Hvalue. now injection Hvalue as _ <- <-. }
  destruct Hend as [-> ->]. exists m'. split; [reflexivity |].
  destruct (renderSequence_unsettled_locks example_env_never_drawn example_exporter None 2
              (fun _ => true) 3 example_machine m' [] eq_refl Hrun)
    as (Hbusy & _ & _ & Hrefused).
  split; [exact Hbusy | apply Hrefused].
Defined.

(** [renderSequence_reusable] on the small scene: a sequence that fails at
    frame 1, then a sequence of frame 0 alone. *)
Lemma renderSequence_reusable_witness :
  exists m1 frames1 m2 frames2,
    iterate example_env example_exporter 4 (fun _ => true) (renderSequence None 2)
      example_machine = (m1, frames1, Failed (Thrown 7)) /\
    iterate example_env example_exporter 4 (fun _ => true) (renderSequence None 0) m1
    = (m2, frames2, Completed) /\
    deck_framebuffer m2 = framebuffer 0 /\
    _isRendering (loop m2) = false.
Proof.
  destruct (iterate example_env example_exporter 4 (fun _ => true) (renderSequence None 2)
              example_machine) as [[m1 frames1] ending1] eqn:Hrun1.
  assert (Hend1 : ending1 = Failed (Thrown 7)).
  { pose proof Hrun1 as Hvalue. vm_compute in Hvalue. now injection Hvalue as _ _ <-. }
  destruct (iterate example_env example_exporter 4 (fun _ => true) (renderSequence None 0) m1)
    as [[m2 frames2] ending2] eqn:Hrun2.
  assert (Hend2 : ending2 = Completed).
  { pose proof Hrun1 as Hvalue. vm_compute in Hvalue. injection Hvalue as Hm1 _ _.
    pose proof Hrun2 as Hvalue2. rewrite <- Hm1 in Hvalue2. vm_compute in Hvalue2.
    now injection Hvalue2 as _ _ <-. }
  subst ending1 ending2. exists m1, frames1, m2, frames2.
  split; [reflexivity |]. split; [exact Hrun2 |].
  destruct (renderSequence_reusable example_env example_exporter None None 2 0
              (fun _ => true) (fun _ => true) 4 4 example_machine m1 m2 frames1 frames2
              (Failed (Thrown 7)) Completed eq_refl Hrun1)
    as (_ & Hfb & Hidle).
  - right. right. eexists. reflexivity.
  - exact Hrun2.
  - left. reflexivity.
  - split; [exact Hfb | exact Hidle].
Defined.
(** ** hdr-exporter.ts *)

(** X28.  [new HDRExporter] asks the device first whether it can render to
    the format (rgba16float when none is given).  When it cannot, the
    constructor throws its error having created nothing.  When the
    constructor returns, it has made three calls: the question, the creation
    of one texture of the size and format asked for (with the usage
    COPY_SRC | TEXTURE_BINDING | RENDER_ATTACHMENT = 21 on WebGPU, none on
    WebGL) and the creation of the framebuffer. *)
Theorem HDRExporter_new_checks_support (device : HDRExporter.ExporterDevice)
    (props : HDRExporter.HDRExporterProps) :
  let format := default "rgba16float" (HDRExporter.props_format props) in
  let usage :=
    match device_type (HDRExporter.gpu_device device) with
    | webgpu => Some 21
    | webgl => None
    end in
  (HDRExporter.on_isTextureFormatRenderable device format = false ->
   HDRExporter.new device props
   = ([HDRExporter.device_isTextureFormatRenderable format],
      Throw (Error (HDRExporter.unsupported_format format)))) /\
  (forall calls exporter,
      HDRExporter.new device props = (calls, Ok exporter) ->
      calls = [HDRExporter.device_isTextureFormatRenderable format;
               HDRExporter.device_createTexture format (HDRExporter.props_width props)
                 (HDRExporter.props_height props) usage;
               HDRExporter.device_createFramebuffer] /\
      HDRExporter.width exporter = HDRExporter.props_width props /\
      HDRExporter.height exporter = HDRExporter.props_height props /\
      HDRExporter.format exporter = format).
Proof.
  intros format usage. unfold HDRExporter.new. fold format.
  assert (Husage : match device_type (HDRExporter.gpu_device device) with
                   | webgpu => Some (JS.or (JS.or 0x01 0x04) 0x10)
                   | webgl => None
                   end = usage)
    by (unfold usage; destruct (device_type (HDRExporter.gpu_device device)); reflexivity).
  rewrite Husage. split.
  - intros ->. reflexivity.
  - intros calls exporter.
    destruct (HDRExporter.on_isTextureFormatRenderable device format); [| discriminate].
    cbn [negb]. destruct (HDRExporter.on_createTexture device _ _ _ _) as [texture | e];
      [| discriminate].
    destruct (HDRExporter.on_createHDRFramebuffer device texture) as [attachment | e];
      [| discriminate].
    intros [= <- <-]. repeat split.
Qed.

(** [HDRExporter_new_checks_support] on a WebGL device without float
    render targets, and no format given. *)
Lemma HDRExporter_new_checks_support_witness :
  let device :=
    {| HDRExporter.gpu_device := accepting_device webgl;
       HDRExporter.on_isTextureFormatRenderable := fun _ => false;
       HDRExporter.on_createTexture :=
         fun format width height _ =>
           Ok {| texture_width := width; texture_height := height;
                 texture_format := format |};
       HDRExporter.on_createHDRFramebuffer := fun texture => Ok texture;
       HDRExporter.on_resize := fun texture _ _ => Ok texture |} in
  let props := {| HDRExporter.props_width := 4; HDRExporter.props_height := 2;
                  HDRExporter.props_format := None |} in
  HDRExporter.new device props
  = ([HDRExporter.device_isTextureFormatRenderable "rgba16float"],
     Throw (Error (HDRExporter.unsupported_format "rgba16float"))).
Proof.
  intros device props.
  destruct (HDRExporter_new_checks_support device props) as [Hunsupported _].
  apply Hunsupported. reflexivity.
Defined.

(** X29.  [resize] to the size the exporter has does nothing; any other
    call leaves the exporter with the size asked for, also when the resize of
    the framebuffer throws (the fields are assigned first), so that a second
    [resize] to the same size does nothing whatever became of the first. *)
Theorem HDRExporter_resize_idempotent (this : HDRExporter.HDRExporter) (width height : Z) :
  HDRExporter.resize this (HDRExporter.width this) (HDRExporter.height this)
  = ([], this, Ok tt) /\
  forall calls this' r,
    HDRExporter.resize this width height = (calls, this', r) ->
    HDRExporter.width this' = width /\
    HDRExporter.height this' = height /\
    (calls = [] \/ calls = [HDRExporter.framebuffer_resize width height]) /\
    HDRExporter.resize this' width height = ([], this', Ok tt).
Proof.
  split.
  - unfold HDRExporter.resize. now rewrite !Z.eqb_refl.
  - intros calls this' r. unfold HDRExporter.resize.
    destruct (Z.eqb_spec width (HDRExporter.width this)) as [Hw | Hw];
      destruct (Z.eqb_spec height (HDRExporter.height this)) as [Hh | Hh]; cbn [andb];
      try (destruct (HDRExporter.on_resize _ _ _ _) as [attachment | e];
           intros [= <- <- <-]; cbn [HDRExporter.width HDRExporter.height];
           rewrite !Z.eqb_refl; repeat split; auto).
    intros [= <- <- <-]. subst width height. rewrite !Z.eqb_refl. repeat split; auto.
Qed.

(** [HDRExporter_resize_idempotent] on a device whose framebuffer cannot be
    resized: the exporter is 8 x 8 all the same. *)
Lemma HDRExporter_resize_idempotent_witness :
  let texture := {| texture_width := 4; texture_height := 2;
                    texture_format := "rgba16float" |} in
  let device :=
    {| HDRExporter.gpu_device := accepting_device webgl;
       HDRExporter.on_isTextureFormatRenderable := fun _ => true;
       HDRExporter.on_createTexture := fun _ _ _ _ => Ok texture;
       HDRExporter.on_createHDRFramebuffer := fun texture => Ok texture;
       HDRExporter.on_resize := fun _ _ _ => Throw (Error "out of memory") |} in
  let this :=
    {| HDRExporter.device := device; HDRExporter.width := 4; HDRExporter.height := 2;
       HDRExporter.format := "rgba16float"; HDRExporter._texture := texture;
       HDRExporter._framebuffer := texture |} in
  exists this',
    HDRExporter.resize this 8 8
    = ([HDRExporter.framebuffer_resize 8 8], this', Throw (Error "out of memory")) /\
    HDRExporter.width this' = 8 /\
    HDRExporter.resize this' 8 8 = ([], this', Ok tt).
Proof.
  intros texture device this. eexists. split; [reflexivity |].
  destruct (HDRExporter_resize_idempotent this 8 8) as [_ Hresize].
  destruct (Hresize _ _ _ eq_refl) as (Hwidth & _ & _ & Hagain).
  split; [exact Hwidth | exact Hagain].
Defined.

(** X30.  The synchronous [readPixels] (and [readPixelsFlipped]) throws its
    error on WebGPU without calling the device.  On WebGL it reads the whole
    target, the region [(0, 0, width, height)] of the exporter's own fields,
    into a [Float32Array] of [width * height * 4] elements. *)
Theorem HDRExporter_readPixels (this : HDRExporter.HDRExporter) :
  let type := device_type (HDRExporter.gpu_device (HDRExporter.device this)) in
  (type = webgpu ->
   HDRExporter.readPixels this
   = ([], this, Throw (Error HDRExporter.synchronous_readback_unsupported)) /\
   HDRExporter.readPixelsFlipped this
   = ([], this, Throw (Error HDRExporter.synchronous_readback_unsupported))) /\
  (type = webgl ->
   0 <= HDRExporter.width this * HDRExporter.height this ->
   HDRExporter.readPixels this
   = ([HDRExporter.device_readPixelsToArrayWebGL 0 0 (HDRExporter.width this)
         (HDRExporter.height this)],
      this,
      on_readPixelsToArrayWebGL (HDRExporter.gpu_device (HDRExporter.device this)) 0 0
        (HDRExporter.width this) (HDRExporter.height this)
        (Float32Data
           (replicate (Z.to_nat (HDRExporter.width this * HDRExporter.height this * 4))
              (S754_zero false))))).
Proof.
  intros type. subst type. split.
  - intros Htype. unfold HDRExporter.readPixelsFlipped, HDRExporter.readPixels.
    rewrite Htype. split; reflexivity.
  - intros Htype Harea. unfold HDRExporter.readPixels. rewrite Htype.
    rewrite TypedArray_make_Ok by lia. reflexivity.
Qed.

(** [HDRExporter_readPixels] on a WebGPU device. *)
Lemma HDRExporter_readPixels_witness :
  let texture := {| texture_width := 4; texture_height := 2;
                    texture_format := "rgba16float" |} in
  let device :=
    {| HDRExporter.gpu_device := accepting_device webgpu;
       HDRExporter.on_isTextureFormatRenderable := fun _ => true;
       HDRExporter.on_createTexture := fun _ _ _ _ => Ok texture;
       HDRExporter.on_createHDRFramebuffer := fun texture => Ok texture;
       HDRExporter.on_resize := fun texture _ _ => Ok texture |} in
  let this :=
    {| HDRExporter.device := device; HDRExporter.width := 4; HDRExporter.height := 2;
       HDRExporter.format := "rgba16float"; HDRExporter._texture := texture;
       HDRExporter._framebuffer := texture |} in
  HDRExporter.readPixels this
  = ([], this, Throw (Error HDRExporter.synchronous_readback_unsupported)).
Proof.
  intros texture device this.
  destruct (HDRExporter_readPixels this) as [Hwebgpu _].
  apply Hwebgpu. reflexivity.
Defined.
